(** * Currency: fixed-point money values over IEEE-754 doubles

    A shallow embedding of [source.ts] (class [Currency]).  A JavaScript
    [number] is a binary64 value; it is carried by the Standard Library's
    [spec_float], always in canonical form, and every arithmetic operator is
    the exact rational result rounded to nearest, ties to even.  Strings are
    sequences of 8-bit characters read as the code points U+0000..U+00FF.
    The registry of the event emitter of [part_000] ([on], [off]) is
    embedded in module [Emitter]. *)

From Stdlib Require Import ZArith QArith Qabs Qpower Qfield Qround.
From Stdlib Require Import Bool List Lia Lqa.
From Stdlib Require Import Ascii String.
From Stdlib Require Import Floats.SpecFloat.
Import ListNotations.

Local Open Scope Z_scope.

(** ** Numbers *)

Definition number : Type := spec_float.

Definition prec : Z := 53.
Definition emax : Z := 1024.

Module Num.

(** [up z k] is [z * 2^k] when [k] is positive and [z] otherwise, so that
    [up a k / up b (-k)] is [a / b * 2^k] for either sign of [k]. *)
Definition up (z k : Z) : Z := z * 2 ^ Z.max 0 k.

(** The binade of a positive rational: [2^(mag a b - 1) <= a / b < 2^(mag a b)]. *)
Definition mag (a b : Z) : Z :=
  let d := Z.log2 a - Z.log2 b in
  if up b d <=? up a (- d) then d + 1 else d.

(** Nearest integer to [num / den], ties to the even one. *)
Definition rne (num den : Z) : Z :=
  let q := num / den in
  match 2 * (num mod den) ?= den with
  | Lt => q
  | Eq => if Z.even q then q else q + 1
  | Gt => q + 1
  end.

(** Canonical packaging of [m * 2^e], [0 <= m <= 2^53], with overflow. *)
Definition pack (s : bool) (m e : Z) : number :=
  if m =? 0 then S754_zero s
  else
    let m' := if m =? 2 ^ prec then 2 ^ (prec - 1) else m in
    let e' := if m =? 2 ^ prec then e + 1 else e in
    if e' <=? emax - prec then S754_finite s (Z.to_pos m') e'
    else S754_infinity s.

(** The quantum exponent of the binade of [a / b]. *)
Definition qexp (a b : Z) : Z := Z.max (mag a b - prec) (3 - emax - prec).

(** [rnd s a b]: the double nearest to the rational [a / b] ([0 < a],
    [0 < b]) with sign [s]; round to nearest, ties to even. *)
Definition rnd (s : bool) (a b : Z) : number :=
  let e := qexp a b in
  pack s (rne (up a (- e)) (up b e)) e.

(** The integer [z] as a number (rounded when it has more than 53 bits). *)
Definition of_Z (z : Z) : number :=
  match z with
  | Z0 => S754_zero false
  | Zpos _ => rnd false z 1
  | Zneg _ => rnd true (- z) 1
  end.

(** The decimal [d * 10^k], as a numeric literal denotes it. *)
Definition of_dec (d k : Z) : number :=
  match d with
  | Z0 => S754_zero false
  | Zpos _ => rnd false (d * 10 ^ Z.max 0 k) (10 ^ Z.max 0 (- k))
  | Zneg _ => rnd true (- d * 10 ^ Z.max 0 k) (10 ^ Z.max 0 (- k))
  end.

(** Exact value of a finite number as the fraction [fnum / fden]. *)
Definition fnum (x : number) : Z :=
  match x with
  | S754_finite s m e => cond_Zopp s (up (Zpos m) e)
  | _ => 0
  end.

Definition fden (x : number) : Z :=
  match x with
  | S754_finite _ _ e => up 1 (- e)
  | _ => 1
  end.

(** The same value as a rational, [(-1)^s * m * 2^e]. *)
Definition pow2 (k : Z) : Q := (2 ^ k)%Q.

Definition toQ (x : number) : Q :=
  match x with
  | S754_finite s m e => (inject_Z (cond_Zopp s (Zpos m)) * pow2 e)%Q
  | _ => 0%Q
  end.

(** [x * y] *)
Definition mul (x y : number) : number :=
  match x, y with
  | S754_finite sx mx ex, S754_finite sy my ey =>
      rnd (xorb sx sy) (up (Zpos mx * Zpos my) (ex + ey)) (up 1 (- (ex + ey)))
  | _, _ => SFmul prec emax x y
  end.

(** [x / y] *)
Definition div (x y : number) : number :=
  match x, y with
  | S754_finite sx mx ex, S754_finite sy my ey =>
      rnd (xorb sx sy) (up (Zpos mx) (ex - ey)) (up (Zpos my) (ey - ex))
  | _, _ => SFdiv prec emax x y
  end.

(** [x + y] *)
Definition add (x y : number) : number :=
  match x, y with
  | S754_finite sx mx ex, S754_finite sy my ey =>
      let ez := Z.min ex ey in
      let t := cond_Zopp sx (up (Zpos mx) (ex - ez))
               + cond_Zopp sy (up (Zpos my) (ey - ez)) in
      match t with
      | Z0 => S754_zero false
      | Zpos _ => rnd false (up t ez) (up 1 (- ez))
      | Zneg _ => rnd true (up (- t) ez) (up 1 (- ez))
      end
  | _, _ => SFadd prec emax x y
  end.

(** [x - y] *)
Definition sub (x y : number) : number := add x (SFopp y).

(** [x < y], [x <= y]: false when either side is NaN. *)
Definition ltb (x y : number) : bool := SFltb x y.
Definition leb (x y : number) : bool := SFleb x y.

(** ToBoolean of a number: [+0], [-0] and [NaN] are falsy. *)
Definition truthy (x : number) : bool :=
  match x with
  | S754_zero _ | S754_nan => false
  | _ => true
  end.

(** [Math.abs] *)
Definition abs (x : number) : number := SFabs x.

(** An integer result whose zero keeps the sign of the argument. *)
Definition of_Z_signed (s : bool) (z : Z) : number :=
  if z =? 0 then S754_zero s else of_Z z.

(** [Math.round]: the integer nearest to [x], the larger one on a tie. *)
Definition round (x : number) : number :=
  match x with
  | S754_finite s m e =>
      if 0 <=? e then x
      else of_Z_signed s ((2 * fnum x + fden x) / (2 * fden x))
  | _ => x
  end.

(** [Math.floor] and [Math.ceil] *)
Definition floor (x : number) : number :=
  match x with
  | S754_finite s m e =>
      if 0 <=? e then x else of_Z_signed s (fnum x / fden x)
  | _ => x
  end.

Definition ceil (x : number) : number :=
  match x with
  | S754_finite s m e =>
      if 0 <=? e then x else of_Z_signed s (- ((- fnum x) / fden x))
  | _ => x
  end.

(** ToInt32, as the operator [~] applies it: truncate, wrap modulo 2^32. *)
Definition toInt32 (x : number) : Z :=
  match x with
  | S754_finite s m e =>
      let k := (Z.quot (fnum x) (fden x)) mod 2 ^ 32 in
      if 2 ^ 31 <=? k then k - 2 ^ 32 else k
  | _ => 0
  end.

(** [~~x] *)
Definition dbl_not (x : number) : number := of_Z (toInt32 x).

(** [x % y]: the remainder has the sign of the dividend and is exact. *)
Definition rem (x y : number) : number :=
  match x, y with
  | S754_nan, _ | _, S754_nan => S754_nan
  | S754_infinity _, _ => S754_nan
  | _, S754_zero _ => S754_nan
  | _, S754_infinity _ => x
  | S754_zero _, _ => x
  | S754_finite sx mx ex, S754_finite sy my ey =>
      let ez := Z.min ex ey in
      let a := up (Zpos mx) (ex - ez) in
      let b := up (Zpos my) (ey - ez) in
      let r := a mod b in
      if r =? 0 then S754_zero sx else rnd sx (up r ez) (up 1 (- ez))
  end.

(** [Math.pow(10, p)] for a non-negative integer [p]: the double nearest
    to [10^p], which is [10^p] itself up to [p = 22].  Beyond that an
    engine may return a neighbouring double; the statements that depend
    on the value of the scale factor assume [p <= 22]. *)
Definition pow10 (p : nat) : number := of_Z (10 ^ Z.of_nat p).

End Num.

Definition NaN : number := S754_nan.
Definition zero : number := S754_zero false.

(** ** Completions: a call returns normally or throws *)

Inductive exn : Type :=
| InvalidInput   (* Error('Invalid Input') *)
| RangeError     (* toFixed() with more than 100 digits *)
| SyntaxError.   (* new RegExp() on an ill-formed pattern *)

Inductive completion (A : Type) : Type :=
| Normal (a : A)
| Throw (e : exn).

Arguments Normal {A} a.
Arguments Throw {A} e.

Definition bind {A B : Type} (c : completion A) (k : A -> completion B)
  : completion B :=
  match c with
  | Normal a => k a
  | Throw e => Throw e
  end.

Notation "x <- c ;; k" := (bind c (fun x => k))
  (at level 61, c at next level, right associativity).

(** ** Strings and the built-in string functions the class calls *)

Local Open Scope string_scope.
Local Open Scope Z_scope.

Module Str.

Definition code (c : ascii) : Z := Z.of_N (N_of_ascii c).

Definition is_digit (c : ascii) : bool := (48 <=? code c) && (code c <=? 57).

(** A word character of a regular expression: [[A-Za-z0-9_]]. *)
Definition is_word (c : ascii) : bool :=
  is_digit c
  || ((65 <=? code c) && (code c <=? 90))
  || ((97 <=? code c) && (code c <=? 122))
  || (code c =? 95).

(** Line terminators, which [.] does not match. *)
Definition is_line_terminator (c : ascii) : bool :=
  (code c =? 10) || (code c =? 13).

(** White space and line terminators, which [Number()] trims. *)
Definition is_space (c : ascii) : bool :=
  ((9 <=? code c) && (code c <=? 13)) || (code c =? 32) || (code c =? 160).

Definition digit_val (c : ascii) : Z := code c - 48.

Definition digit_char (d : Z) : ascii := ascii_of_N (Z.to_N (48 + d)).

(** Value of a string of digits read in base [b]. *)
Fixpoint digits_val (b acc : Z) (s : string) : Z :=
  match s with
  | EmptyString => acc
  | String c r => digits_val b (b * acc + digit_val c) r
  end.

(** Decimal digits of a non-negative integer, most significant first. *)
Fixpoint digits_fuel (fuel : nat) (n : Z) (acc : string) : string :=
  match fuel with
  | O => acc
  | S f =>
      let acc' := String (digit_char (n mod 10)) acc in
      if n <? 10 then acc' else digits_fuel f (n / 10) acc'
  end.

Definition digits (n : Z) : string :=
  digits_fuel (S (Z.to_nat (Z.log2 n))) n "".

Definition len (s : string) : Z := Z.of_nat (String.length s).

Fixpoint repeat0 (k : nat) : string :=
  match k with
  | O => ""
  | S k' => String "0" (repeat0 k')
  end.

Fixpoint filter (keep : ascii -> bool) (s : string) : string :=
  match s with
  | EmptyString => ""
  | String c r => if keep c then String c (filter keep r) else filter keep r
  end.

Fixpoint map (f : ascii -> ascii) (s : string) : string :=
  match s with
  | EmptyString => ""
  | String c r => String (f c) (map f r)
  end.

(** Longest prefix whose characters satisfy [p], and what follows it. *)
Fixpoint span (p : ascii -> bool) (s : string) : string * string :=
  match s with
  | EmptyString => ("", "")
  | String c r =>
      if p c then let '(a, b) := span p r in (String c a, b) else ("", s)
  end.

Fixpoint drop_while (p : ascii -> bool) (s : string) : string :=
  match s with
  | EmptyString => ""
  | String c r => if p c then drop_while p r else s
  end.

Fixpoint rev_app (s acc : string) : string :=
  match s with
  | EmptyString => acc
  | String c r => rev_app r (String c acc)
  end.

Definition rev (s : string) : string := rev_app s "".

Definition trim (s : string) : string :=
  rev (drop_while is_space (rev (drop_while is_space s))).

Definition is_empty (s : string) : bool :=
  match s with
  | EmptyString => true
  | _ => false
  end.

(** [s.split(c)] for a one-character separator. *)
Fixpoint split_on (c : ascii) (s : string) : list string :=
  match s with
  | EmptyString => [""]
  | String x r =>
      if Ascii.eqb x c then "" :: split_on c r
      else match split_on c r with
           | [] => [String x ""]
           | p :: ps => String x p :: ps
           end
  end.

(** *** GetSubstitution: expansion of a replacement template

    [matched] is the matched text, [before] and [after] what precedes and
    follows it in the subject, [caps] the captures of the match. *)

Fixpoint nth_cap (caps : list string) (i : nat) : option string :=
  match caps, i with
  | [], _ => None
  | _, O => None
  | c :: _, S O => Some c
  | _ :: cs, S j => nth_cap cs j
  end.

Fixpoint get_substitution (matched before after : string)
    (caps : list string) (t : string) : string :=
  let go := get_substitution matched before after caps in
  match t with
  | EmptyString => ""
  | String c r =>
      if negb (Ascii.eqb c "$") then String c (go r)
      else
        match r with
        | EmptyString => "$"
        | String d1 r1 =>
            if Ascii.eqb d1 "$" then String "$" (go r1)
            else if Ascii.eqb d1 "`" then before ++ go r1
            else if Ascii.eqb d1 "&" then matched ++ go r1
            else if Ascii.eqb d1 "'" then after ++ go r1
            else if is_digit d1 then
              let one := Z.to_nat (digit_val d1) in
              let two :=
                match r1 with
                | String d2 _ =>
                    if is_digit d2
                    then Z.to_nat (10 * digit_val d1 + digit_val d2)
                    else O
                | EmptyString => O
                end in
              match nth_cap caps two, r1 with
              | Some c2, String _ r2 => c2 ++ go r2
              | _, _ =>
                  match nth_cap caps one with
                  | Some c1 => c1 ++ go r1
                  | None => String "$" (String d1 (go r1))
                  end
              end
            else String "$" (String d1 (go r1))
        end
  end.

(** [s.replace(c, t)] for a one-character string pattern [c]: the first
    occurrence is replaced by the expansion of [t]. *)
Fixpoint replace_first (c : ascii) (t : string) (before s : string) : string :=
  match s with
  | EmptyString => ""
  | String x r =>
      if Ascii.eqb x c
      then get_substitution (String c "") before r [] t ++ r
      else String x (replace_first c t (before ++ String x "") r)
  end.

Definition replace_char (c : ascii) (t : string) (s : string) : string :=
  replace_first c t "" s.

(** [s.replace(/^-/, '')] *)
Definition strip_minus (s : string) : string :=
  match s with
  | String c r => if Ascii.eqb c "-" then r else s
  | EmptyString => s
  end.

(** The first [replace] of [parse], which rewrites a parenthesised amount
    as a negative one: the leftmost opening parenthesis that has a closing
    one later on its line is matched, greedily, up to the last such closing
    parenthesis, and the match becomes a minus sign and what it enclosed. *)
Fixpoint last_close (s : string) : option (string * string) :=
  match s with
  | EmptyString => None
  | String c r =>
      if is_line_terminator c then None
      else match last_close r with
           | Some (inner, rest) => Some (String c inner, rest)
           | None =>
               if Ascii.eqb c ")" then Some ("", r) else None
           end
  end.

Fixpoint replace_parens (s : string) : string :=
  match s with
  | EmptyString => ""
  | String c r =>
      if Ascii.eqb c "("
      then match last_close r with
           | Some (inner, rest) => "-" ++ inner ++ rest
           | None => String c (replace_parens r)
           end
      else String c (replace_parens r)
  end.

End Str.

(** ** Conversions between numbers and strings *)

Module Conv.

Import Str.

Definition number_eqb (x y : number) : bool :=
  match x, y with
  | S754_zero s, S754_zero t => Bool.eqb s t
  | S754_infinity s, S754_infinity t => Bool.eqb s t
  | S754_nan, S754_nan => true
  | S754_finite s m e, S754_finite t n f =>
      Bool.eqb s t && Pos.eqb m n && Z.eqb e f
  | _, _ => false
  end.

(** *** Number::toString for an integer-valued [x >= 10^21]

    [shortest] looks for the least number [k] of significant digits and
    the [k]-digit integer [s] with [s * 10^(n-k)] rounding to [x], nearest
    to [x] when two qualify; the text is in exponential notation. *)
Fixpoint shortest (fuel : nat) (k : Z) (x : number) (X nX : Z) : Z * Z :=
  let p := 10 ^ (nX - k) in
  let lo := X / p in
  let hi := lo + 1 in
  let oklo := number_eqb (Num.of_Z (lo * p)) x in
  let okhi := number_eqb (Num.of_Z (hi * p)) x in
  let pick :=
    if oklo && okhi then
      match X - lo * p ?= hi * p - X with
      | Lt => lo
      | Eq => if Z.even lo then lo else hi
      | Gt => hi
      end
    else if oklo then lo else hi in
  let found := if pick =? 10 ^ k then (10 ^ (k - 1), nX + 1) else (pick, nX) in
  match fuel with
  | O => found
  | S f => if oklo || okhi then found else shortest f (k + 1) x X nX
  end.

Definition toString_big (x : number) : string :=
  let X := Num.fnum x in
  let '(s, n) := shortest 16 1 x X (len (digits X)) in
  match digits s with
  | String d EmptyString => String d ("e+" ++ digits (n - 1))
  | String d r => String d ("." ++ r ++ "e+" ++ digits (n - 1))
  | EmptyString => ""
  end.

(** The digits of [n] with a point before the last [f] of them, padded
    with zeros on the left to [f + 1] digits. *)
Definition fixed (n : Z) (f : nat) : string :=
  let m := digits n in
  match f with
  | O => m
  | _ =>
      let k := String.length m in
      let m := if (k <=? f)%nat then repeat0 (f + 1 - k) ++ m else m in
      let k := String.length m in
      substring 0 (k - f) m ++ "." ++ substring (k - f) f m
  end.

(** [x.toFixed(f)] *)
Definition toFixed (x : number) (f : nat) : completion string :=
  if (100 <? f)%nat then Throw RangeError
  else Normal
    match x with
    | S754_nan => "NaN"
    | S754_infinity s => (if s then "-" else "") ++ "Infinity"
    | S754_zero _ => fixed 0 f
    | S754_finite s m e =>
        let a := Num.fnum (Num.abs x) in
        let b := Num.fden x in
        (if s then "-" else "") ++
        (if 10 ^ 21 * b <=? a then toString_big (Num.abs x)
         else fixed ((2 * a * 10 ^ Z.of_nat f + b) / (2 * b)) f)
    end.

(** *** StringToNumber, the conversion [Number(s)] applies to a string *)

Definition of_sign_dec (neg : bool) (d k : Z) : number :=
  if d =? 0 then S754_zero neg
  else Num.rnd neg (d * 10 ^ Z.max 0 k) (10 ^ Z.max 0 (- k)).

(** An exponent part after its [e]: an optional sign and digits. *)
(** An optional sign and what follows it. *)
Definition split_sign (s : string) : bool * string :=
  match s with
  | String c r =>
      if Ascii.eqb c "+" then (false, r)
      else if Ascii.eqb c "-" then (true, r)
      else (false, s)
  | EmptyString => (false, s)
  end.

Definition exponent (s : string) : option Z :=
  let '(neg, u) := split_sign s in
  let '(ds, rest) := span is_digit u in
  if is_empty ds || negb (is_empty rest) then None
  else Some (cond_Zopp neg (digits_val 10 0 ds)).

Definition radix_digit (b : Z) (c : ascii) : option Z :=
  let v :=
    if is_digit c then code c - 48
    else if (97 <=? code c) && (code c <=? 102) then code c - 87
    else if (65 <=? code c) && (code c <=? 70) then code c - 55
    else 16 in
  if v <? b then Some v else None.

Fixpoint radix_val (b acc : Z) (s : string) : option Z :=
  match s with
  | EmptyString => Some acc
  | String c r =>
      match radix_digit b c with
      | Some v => radix_val b (b * acc + v) r
      | None => None
      end
  end.

(** [0x..], [0o..] and [0b..] literals. *)
Definition radix_of (p : ascii) : Z :=
  if Ascii.eqb p "x" || Ascii.eqb p "X" then 16
  else if Ascii.eqb p "o" || Ascii.eqb p "O" then 8
  else if Ascii.eqb p "b" || Ascii.eqb p "B" then 2
  else 0.

Definition non_decimal (s : string) : option Z :=
  match s with
  | String z (String p (String c r)) =>
      if Ascii.eqb z "0" && negb (radix_of p =? 0)
      then radix_val (radix_of p) 0 (String c r)
      else None
  | _ => None
  end.

(** A decimal literal without its sign: digits, a point and digits, or
    either half alone, and an optional exponent; anything else is NaN. *)
Definition decimal_literal (neg : bool) (u : string) : number :=
  let '(ip, r1) := span is_digit u in
  let '(fp, r2) :=
    match r1 with
    | String c r => if Ascii.eqb c "." then span is_digit r else ("", r1)
    | EmptyString => ("", r1)
    end in
  if is_empty ip && is_empty fp then S754_nan
  else
    let d := digits_val 10 0 (ip ++ fp) in
    match r2 with
    | EmptyString => of_sign_dec neg d (- len fp)
    | String c r3 =>
        if Ascii.eqb c "e" || Ascii.eqb c "E" then
          match exponent r3 with
          | Some ex => of_sign_dec neg d (ex - len fp)
          | None => S754_nan
          end
        else S754_nan
    end.

Definition stringToNumber (s : string) : number :=
  let t := trim s in
  if is_empty t then S754_zero false
  else
    match non_decimal t with
    | Some z => Num.of_Z z
    | None =>
        let '(neg, u) := split_sign t in
        if String.eqb u "Infinity" then S754_infinity neg
        else decimal_literal neg u
    end.

End Conv.

(** ** The two grouping regular expressions

    [groupRegex] is [(\d)(?=(\d{3})+\b)] and [vedicRegex] is
    [(\d)(?=(\d\d)+\d\b)], both global.  A digit matches when the run of
    digits that follows it has a length the lookahead can consume in full
    (a positive multiple of three; an odd length of at least three) and a
    word boundary comes after the run. *)

Inductive RegExp : Type := groupRegex | vedicRegex.

Module Group.

Import Str.

Definition lookahead (g : RegExp) (rest : string) : option string :=
  let '(run, after) := span is_digit rest in
  let j := String.length run in
  let boundary :=
    match after with
    | EmptyString => true
    | String c _ => negb (is_word c)
    end in
  match g with
  | groupRegex =>
      if (0 <? j)%nat && (j mod 3 =? 0)%nat && boundary
      then Some (substring (j - 3) 3 run) else None
  | vedicRegex =>
      if (3 <=? j)%nat && (j mod 2 =? 1)%nat && boundary
      then Some (substring (j - 3) 2 run) else None
  end.

(** [s.replace(g, t)]: every match is replaced by the expansion of [t],
    whose captures are the digit and the last group of the lookahead. *)
Fixpoint replace_from (g : RegExp) (t : string) (before s : string) : string :=
  match s with
  | EmptyString => ""
  | String c r =>
      let here :=
        if is_digit c then
          match lookahead g r with
          | Some g2 =>
              get_substitution (String c "") before r [String c ""; g2] t
          | None => String c ""
          end
        else String c "" in
      here ++ replace_from g t (before ++ String c "") r
  end.

Definition replace (g : RegExp) (t : string) (s : string) : string :=
  replace_from g t "" s.

End Group.

(** ** Settings *)

Record defaultsTypes : Type := {
  symbol : string;
  separator : string;
  decimal : ascii;
  formatWithSymbol : bool;
  errorOnInvalid : bool;
  precision : nat;
  pattern : string;
  negativePattern : string;
  increment : option number;
  groups : option RegExp;
  useVedic : option bool
}.

(** [Partial<defaultsTypes>]: the options a caller passes. *)
Record Partial : Type := {
  p_symbol : option string;
  p_separator : option string;
  p_decimal : option ascii;
  p_formatWithSymbol : option bool;
  p_errorOnInvalid : option bool;
  p_precision : option nat;
  p_pattern : option string;
  p_negativePattern : option string;
  p_increment : option number;
  p_groups : option RegExp;
  p_useVedic : option bool
}.

Definition defaults : defaultsTypes := {|
  symbol := "$";
  separator := ",";
  decimal := ".";
  formatWithSymbol := false;
  errorOnInvalid := false;
  precision := 2;
  pattern := "!#";
  negativePattern := "-!#";
  increment := None;
  groups := None;
  useVedic := None
|}.

Definition no_opts : Partial := {|
  p_symbol := None; p_separator := None; p_decimal := None;
  p_formatWithSymbol := None; p_errorOnInvalid := None;
  p_precision := None; p_pattern := None; p_negativePattern := None;
  p_increment := None; p_groups := None; p_useVedic := None
|}.

(** A settings object passed where options are expected. *)
Definition as_opts (s : defaultsTypes) : Partial := {|
  p_symbol := Some (symbol s);
  p_separator := Some (separator s);
  p_decimal := Some (decimal s);
  p_formatWithSymbol := Some (formatWithSymbol s);
  p_errorOnInvalid := Some (errorOnInvalid s);
  p_precision := Some (precision s);
  p_pattern := Some (pattern s);
  p_negativePattern := Some (negativePattern s);
  p_increment := increment s;
  p_groups := groups s;
  p_useVedic := useVedic s
|}.

Definition or_else {A : Type} (o : option A) (d : A) : A :=
  match o with
  | Some a => a
  | None => d
  end.

Definition first_some {A : Type} (o d : option A) : option A :=
  match o with
  | Some a => Some a
  | None => d
  end.

(** [Object.assign({}, d, opts)] *)
Definition assign (d : defaultsTypes) (opts : option Partial) : defaultsTypes :=
  match opts with
  | None => d
  | Some o => {|
      symbol := or_else (p_symbol o) (symbol d);
      separator := or_else (p_separator o) (separator d);
      decimal := or_else (p_decimal o) (decimal d);
      formatWithSymbol := or_else (p_formatWithSymbol o) (formatWithSymbol d);
      errorOnInvalid := or_else (p_errorOnInvalid o) (errorOnInvalid d);
      precision := or_else (p_precision o) (precision d);
      pattern := or_else (p_pattern o) (pattern d);
      negativePattern := or_else (p_negativePattern o) (negativePattern d);
      increment := first_some (p_increment o) (increment d);
      groups := first_some (p_groups o) (groups d);
      useVedic := first_some (p_useVedic o) (useVedic d)
    |}
  end.

Definition with_increment_groups (s : defaultsTypes) (i : number) (g : RegExp)
  : defaultsTypes := {|
  symbol := symbol s;
  separator := separator s;
  decimal := decimal s;
  formatWithSymbol := formatWithSymbol s;
  errorOnInvalid := errorOnInvalid s;
  precision := precision s;
  pattern := pattern s;
  negativePattern := negativePattern s;
  increment := Some i;
  groups := Some g;
  useVedic := useVedic s
|}.

(** ** The class *)

Record Currency : Type := {
  intValue : option number;
  value : option number;
  _settings : option defaultsTypes;
  _precision : option number
}.

(** What [parse] may be handed: a [Currency], a number, a string, or
    anything else ([undefined], [null], another object...). *)
Inductive input : Type :=
| ICurrency (c : Currency)
| INumber (n : number)
| IString (s : string)
| IOther.

(** ToBoolean of a [number | undefined]. *)
Definition truthy (o : option number) : bool :=
  match o with
  | Some x => Num.truthy x
  | None => false
  end.

Definition round (v : number) : number := Num.round v.
Definition pow (p : nat) : number := Num.pow10 p.
Definition rounding (value increment : number) : number :=
  Num.mul (round (Num.div value increment)) increment.

(** The characters the string branch of [parse] keeps: [[^-\d<decimal>]]
    is removed.  The two expressions built from [decimal] are read as that
    class and as the escaped character itself, which is what they denote
    when [decimal] is one character that is neither a word character nor
    a closing bracket.  A backslash escapes the closing bracket of the
    class: the constructor of the first expression throws. *)
Definition kept (decimal c : ascii) : bool :=
  Ascii.eqb c "-" || Str.is_digit c || Ascii.eqb c decimal.

(** [replace(decimalString, '.')], for a [decimal] whose escape denotes
    the character itself (see [plain_decimal]). *)
Definition to_point (decimal c : ascii) : ascii :=
  if Ascii.eqb c decimal then "."%char else c.

(** The first half of [parse]: the input as a number of smallest units,
    before the two roundings. *)
Definition scaled (val : input) (opts : defaultsTypes) : completion number :=
  let precision := pow (precision opts) in
  match val with
  | ICurrency c => Normal (Num.mul (or_else (value c) NaN) precision)
  | INumber n => Normal (Num.mul n precision)
  | IString s =>
      if Str.code (decimal opts) =? 92 then Throw SyntaxError
      else
        let replacedValue :=
          Str.map (to_point (decimal opts))
            (Str.filter (kept (decimal opts)) (Str.replace_parens s)) in
        let v := Num.mul (Conv.stringToNumber replacedValue) precision in
        Normal (if Num.truthy v then v else zero)
  | IOther =>
      if errorOnInvalid opts then Throw InvalidInput else Normal zero
  end.

(** [Number(v.toFixed(4))] *)
Definition four_places (v : number) : completion number :=
  s <- Conv.toFixed v 4 ;;
  Normal (Conv.stringToNumber s).

Definition parse (val : input) (opts : defaultsTypes) (useRounding : bool)
  : completion number :=
  v <- scaled val opts ;;
  v <- four_places v ;;
  Normal (if useRounding then round v else v).

(** [new Currency(value, opts)] *)
Definition new_Currency (val : input) (opts : option Partial)
  : completion Currency :=
  let settings := assign defaults opts in
  let precision := pow (precision settings) in
  v <- parse val settings true ;;
  let inc :=
    if truthy (increment settings) then or_else (increment settings) NaN
    else Num.div (Num.of_Z 1) precision in
  let g :=
    match useVedic settings with
    | Some true => vedicRegex
    | _ => groupRegex
    end in
  Normal {|
    intValue := Some v;
    value := Some (Num.div v precision);
    _settings := Some (with_increment_groups settings inc g);
    _precision := Some precision
  |}.

(** A [_settings] field handed back to the constructor. *)
Definition opts_of (s : option defaultsTypes) : option Partial :=
  option_map as_opts s.

Definition add (this : Currency) (number : input) : completion Currency :=
  match intValue this, _settings this, _precision this with
  | Some i, Some st, Some pr =>
      if Num.truthy i && Num.truthy pr then
        n <- parse number st true ;;
        new_Currency (INumber (Num.div (Num.add i n) pr)) (Some (as_opts st))
      else
        n <- parse number defaults true ;;
        new_Currency
          (INumber (Num.div n (Num.of_Z (Z.of_nat (precision defaults)))))
          (opts_of (_settings this))
  | _, _, _ =>
      n <- parse number defaults true ;;
      new_Currency
        (INumber (Num.div n (Num.of_Z (Z.of_nat (precision defaults)))))
        (opts_of (_settings this))
  end.

Definition subtract (this : Currency) (number : input) : completion Currency :=
  match intValue this, _settings this, _precision this with
  | Some i, Some st, Some pr =>
      if Num.truthy i && Num.truthy pr then
        n <- parse number st true ;;
        new_Currency (INumber (Num.div (Num.sub i n) pr)) (Some (as_opts st))
      else
        n <- parse number defaults true ;;
        new_Currency
          (INumber (Num.div n (Num.of_Z (Z.of_nat (precision defaults)))))
          (opts_of (_settings this))
  | _, _, _ =>
      n <- parse number defaults true ;;
      new_Currency
        (INumber (Num.div n (Num.of_Z (Z.of_nat (precision defaults)))))
        (opts_of (_settings this))
  end.

(** A method whose body may end without [return] yields [undefined],
    here [None]. *)
Definition multiply (this : Currency) (number : number)
  : completion (option Currency) :=
  match intValue this, _settings this with
  | Some i, Some st =>
      if Num.truthy i then
        c <- new_Currency
               (INumber (Num.div (Num.mul i number) (pow (precision st))))
               (Some (as_opts st)) ;;
        Normal (Some c)
      else Normal None
  | _, _ => Normal None
  end.

Definition divide (this : Currency) (number : input)
  : completion (option Currency) :=
  match intValue this, _settings this with
  | Some i, Some st =>
      if Num.truthy i then
        n <- parse number st false ;;
        c <- new_Currency (INumber (Num.div i n)) (Some (as_opts st)) ;;
        Normal (Some c)
      else Normal None
  | _, _ => Normal None
  end.

(** The loop of [distribute]: [count] iterations, each pushing one item
    and decrementing [pennies]. *)
Fixpoint distribute_loop (i split pr : number) (st : option defaultsTypes)
    (count : nat) (pennies : number) : completion (list Currency) :=
  match count with
  | O => Normal []
  | S count' =>
      item <- new_Currency (INumber (Num.div split pr)) (opts_of st) ;;
      item <- (if Num.ltb zero pennies then
                 if Num.leb zero i
                 then add item (INumber (Num.div (Num.of_Z 1) pr))
                 else subtract item (INumber (Num.div (Num.of_Z 1) pr))
               else Normal item) ;;
      rest <- distribute_loop i split pr st count'
                (Num.sub pennies (Num.of_Z 1)) ;;
      Normal (item :: rest)
  end.

(** [distribute(count)], for a non-negative integer [count]: the loop
    [for (; count !== 0; count--)] then runs [count] times. *)
Definition distribute (this : Currency) (count : nat)
  : completion (option (list Currency)) :=
  match intValue this, _precision this with
  | Some i, Some pr =>
      if Num.truthy i && Num.truthy pr then
        let c := Num.of_Z (Z.of_nat count) in
        let q := Num.div i c in
        let split := if Num.leb zero i then Num.floor q else Num.ceil q in
        let pennies := Num.abs (Num.sub i (Num.mul split c)) in
        d <- distribute_loop i split pr (_settings this) count pennies ;;
        Normal (Some d)
      else Normal None
  | _, _ => Normal None
  end.

Definition dollars (this : Currency) : option number :=
  match value this with
  | Some v => if Num.truthy v then Some (Num.dbl_not v) else None
  | None => None
  end.

Definition cents (this : Currency) : option number :=
  match intValue this, _precision this with
  | Some i, Some pr =>
      if Num.truthy i && Num.truthy pr
      then Some (Num.dbl_not (Num.rem i pr)) else None
  | _, _ => None
  end.

Definition toString (this : Currency) : completion (option string) :=
  match intValue this, _settings this, _precision this with
  | Some i, Some st, Some pr =>
      if Num.truthy i && truthy (increment st) && Num.truthy pr then
        s <- Conv.toFixed
               (rounding (Num.div i pr) (or_else (increment st) NaN))
               (precision st) ;;
        Normal (Some s)
      else Normal None
  | _, _, _ => Normal None
  end.

(** [this + '']: [toString()] is called and [undefined] is spelled out. *)
Definition to_primitive_string (this : Currency) : completion string :=
  o <- toString this ;;
  Normal (or_else o "undefined").

Definition format (this : Currency) (useSymbol : option bool)
  : completion (option string) :=
  let st := or_else (_settings this) defaults in
  s <- to_primitive_string this ;;
  let values := Str.split_on "." (Str.strip_minus s) in
  let dollars := nth 0 values "" in
  let cents := nth_error values 1 in
  let useSymbol := or_else useSymbol (formatWithSymbol st) in
  match value this, groups st with
  | Some v, Some g =>
      if Num.truthy v then
        let number :=
          Group.replace g ("$1" ++ separator st) dollars ++
          match cents with
          | Some c => if Str.is_empty c then "" else String (decimal st) c
          | None => ""
          end in
        Normal (Some
          (Str.replace_char "#" number
             (Str.replace_char "!" (if useSymbol then symbol st else "")
                (if Num.leb zero v then pattern st else negativePattern st))))
      else Normal None
  | _, _ => Normal None
  end.

Definition toJSON (this : Currency) : option number := value this.

(** ** Vocabulary of the statements *)

(** Powers of two as rationals. *)
Abbreviation q2 := Num.pow2.

Definition ratio (a b : Z) : Q := (inject_Z a / inject_Z b)%Q.

Definition u53 : Q := 1 # (2 ^ 53).

(** [normal x s q]: [x] is the normalised double of sign [s] and
    magnitude [q]. *)
Definition normal (x : number) (s : bool) (q : Q) : Prop :=
  exists m e,
    x = S754_finite s m e
    /\ 2 ^ 52 <= Zpos m < 2 ^ 53
    /\ (inject_Z (Zpos m) * q2 e == q)%Q.

(** Every character of [s] satisfies [p]. *)
Fixpoint all_chars (p : ascii -> bool) (s : string) : bool :=
  match s with
  | EmptyString => true
  | String c r => p c && all_chars p r
  end.

Definition not_char (c d : ascii) : bool := negb (Ascii.eqb d c).

(** Every dollar sign of the template stands for itself when there are
    no captures: none is followed by a dollar sign, a backquote, an
    ampersand or a quote. *)
Fixpoint literal_dollars (t : string) : bool :=
  match t with
  | EmptyString => true
  | String c r =>
      (negb (Ascii.eqb c "$")
       || match r with
          | EmptyString => true
          | String d _ =>
              negb (Ascii.eqb d "$" || Ascii.eqb d "`"
                    || Ascii.eqb d "&" || Ascii.eqb d "'")
          end)
      && literal_dollars r
  end.

(** A decimal character for which the two expressions [parse] builds
    denote what [kept] and [to_point] say (not a word character, a
    backslash, code 92, or a closing bracket), and which is not itself
    part of the syntax of an amount. *)
Definition plain_decimal (d : ascii) : bool :=
  negb (Str.is_word d || (Str.code d =? 92) || Ascii.eqb d "]"
        || Ascii.eqb d "-" || Ascii.eqb d "$" || Ascii.eqb d "(").

(** A character that parsing strips and that no replacement treats
    specially. *)
Definition inert (d c : ascii) : bool :=
  negb (kept d c || Ascii.eqb c "(" || Ascii.eqb c "#").

Definition symbol_ok (d : ascii) (sym : string) : bool :=
  literal_dollars sym && all_chars (inert d) sym.

Definition separator_ok (d : ascii) (sep : string) : bool :=
  all_chars (not_char "$") sep && all_chars (inert d) sep.

(** A number whose significand has at most 53 bits. *)
Definition wf (x : number) : Prop :=
  match x with
  | S754_finite _ m _ => Zpos m < 2 ^ 53
  | _ => True
  end.

(** Rounding to the nearest integer with ties away from zero. *)
Definition round_half_away (x : number) : number :=
  match x with
  | S754_finite s m e =>
      if 0 <=? e then x
      else
        Num.of_Z_signed s
          (cond_Zopp s
             ((2 * Num.up (Zpos m) e + Num.fden x) / (2 * Num.fden x)))
  | _ => x
  end.

(** [w] is [v] rounded to four decimal places: the double nearest to
    [N / 10^4], where [N] is the integer nearest to [|v| * 10^4], the
    larger one on a tie. *)
Definition four_decimals (v w : number) : Prop :=
  match v with
  | S754_finite s m e =>
      (inject_Z (Zpos m) * q2 e < inject_Z (10 ^ 21))%Q ->
      exists N,
        0 <= N /\ w = Conv.of_sign_dec s N (-4)
        /\ (inject_Z N - (1 # 2)
            <= inject_Z (Zpos m) * q2 e * inject_Z (10 ^ 4)
            < inject_Z N + (1 # 2))%Q
  | S754_zero _ => w = zero
  | _ => w = v
  end.

(** [r] is the integer within half a unit of [w], the larger one on a
    tie: ties go toward positive infinity. *)
Definition half_up (w r : number) : Prop :=
  match w with
  | S754_finite _ _ _ =>
      exists k,
        (Num.toQ r == inject_Z k)%Q
        /\ (inject_Z k - (1 # 2) <= Num.toQ w < inject_Z k + (1 # 2))%Q
  | _ => r = w
  end.

(** A plain decimal numeral with exactly [p] fractional digits: an
    optional minus sign, digits and, when [p] is not zero, a point and
    [p] digits. *)
Definition fixed_text (p : nat) (s : string) : Prop :=
  exists (neg : bool) (ip fp : string),
    s = (if neg then "-" else "") ++ ip
        ++ match p with O => "" | _ => String "." fp end
    /\ all_chars Str.is_digit ip = true /\ ip <> ""
    /\ all_chars Str.is_digit fp = true /\ String.length fp = p.

(** Zero, or a finite number below [10^21] in magnitude: the numbers
    [toFixed] prints in positional notation. *)
Definition positional (v : number) : Prop :=
  match v with
  | S754_zero _ => True
  | S754_finite _ m e => (inject_Z (Zpos m) * q2 e < inject_Z (10 ^ 21))%Q
  | _ => False
  end.

(** What [add] and [subtract] return when their guard fails. *)
Definition fallback (this : Currency) (number : input) : completion Currency :=
  n <- parse number defaults true ;;
  new_Currency (INumber (Num.div n (Num.of_Z 2))) (opts_of (_settings this)).

(** Options that set [precision] alone, as in [{precision: 2}]. *)
Definition only_precision (p : nat) : Partial := {|
  p_symbol := None; p_separator := None; p_decimal := None;
  p_formatWithSymbol := None; p_errorOnInvalid := None;
  p_precision := Some p; p_pattern := None; p_negativePattern := None;
  p_increment := None; p_groups := None; p_useVedic := None
|}.

(** Sum of the scaled integers of a list of values. *)
Definition sum_intValues (l : list Currency) : number :=
  fold_left (fun acc c => Num.add acc (or_else (intValue c) NaN)) l zero.

(** Options that set [increment] alone, as in [{increment: 0.05}]. *)
Definition only_increment (i : number) : Partial := {|
  p_symbol := None; p_separator := None; p_decimal := None;
  p_formatWithSymbol := None; p_errorOnInvalid := None;
  p_precision := None; p_pattern := None; p_negativePattern := None;
  p_increment := Some i; p_groups := None; p_useVedic := None
|}.

(** Options that set [decimal] alone, as in [{decimal: ','}]. *)
Definition only_decimal (d : ascii) : Partial := {|
  p_symbol := None; p_separator := None; p_decimal := Some d;
  p_formatWithSymbol := None; p_errorOnInvalid := None;
  p_precision := None; p_pattern := None; p_negativePattern := None;
  p_increment := None; p_groups := None; p_useVedic := None
|}.

(** The value [new Currency(0)] constructs. *)
Definition zero_value : Currency := {|
  intValue := Some (Num.of_Z 0);
  value := Some (Num.of_Z 0);
  _settings :=
    Some (with_increment_groups defaults (Num.of_dec 1 (-2)) groupRegex);
  _precision := Some (Num.of_Z 100)
|}.

(** The value [new Currency("$1,234.56")] constructs. *)
Definition sample_value : Currency := {|
  intValue := Some (Num.of_Z 123456);
  value := Some (Num.of_dec 123456 (-2));
  _settings :=
    Some (with_increment_groups defaults (Num.of_dec 1 (-2)) groupRegex);
  _precision := Some (Num.of_Z 100)
|}.

(** ** Further vocabulary *)

(** [y] carries the settings and the scale factor of [x]. *)
Definition same_settings (x y : Currency) : Prop :=
  _settings y = _settings x /\ _precision y = _precision x.

(** The number an operand of [add] or [subtract] stands for. *)
Definition operand (v : input) : option number :=
  match v with
  | INumber n => Some n
  | ICurrency c => Some (or_else (value c) NaN)
  | _ => None
  end.

(** [y] is the value of [k] smallest units at precision [p]. *)
Definition has_units (p : nat) (k : Z) (y : Currency) : Prop :=
  intValue y = Some (Num.of_Z k)
  /\ value y = Some (Num.of_dec k (- Z.of_nat p)).

(** ToInt32 of an integer. *)
Definition int32 (z : Z) : Z :=
  let k := z mod 2 ^ 32 in
  if 2 ^ 31 <=? k then k - 2 ^ 32 else k.

(** The scaled integer [distribute] gives the entry of index [j]: the
    quotient truncated toward zero, and one more unit of the sign of the
    amount on the first entries, as many as the remainder counts. *)
Definition share (a : Z) (count j : nat) : Z :=
  Z.quot a (Z.of_nat count)
  + (if Z.of_nat j <? Z.abs (Z.rem a (Z.of_nat count)) then Z.sgn a else 0).

Definition Zsum (zs : list Z) : Z := fold_right Z.add 0 zs.

(** [join sep [c1; c2; ...]] is [c1 ++ sep ++ c2 ++ ...]. *)
Fixpoint join (sep : string) (cs : list string) : string :=
  match cs with
  | [] => ""
  | c :: r =>
      match r with
      | [] => c
      | _ => c ++ sep ++ join sep r
      end
  end.

(** ** The emitter

    An emitter is an object made by [new Emitter()]: its prototype
    [emitter] carries the methods and its own property [events] is an
    object from event types to arrays of handlers.  The model keeps the own
    properties of [events].  A handler is a function object, known by its
    identity, which is what [indexOf] compares. *)

Module Emitter.

Definition handler : Type := nat.

(** The own properties of [events]. *)
Definition events : Type := list (string * list handler).

(** The outcome of a call: it returns, or throws a [TypeError]. *)
Inductive outcome (A : Type) : Type :=
| Done (a : A)
| TypeError.

Arguments Done {A} a.
Arguments TypeError {A}.

(** What a method returns: [this] or [undefined]. *)
Inductive returned : Type := This | Undefined.

Fixpoint own (ev : events) (type : string) : option (list handler) :=
  match ev with
  | [] => None
  | (k, hs) :: r => if String.eqb k type then Some hs else own r type
  end.

(** [events[type] = hs] on an own or a new property. *)
Fixpoint set (ev : events) (type : string) (hs : list handler) : events :=
  match ev with
  | [] => [(type, hs)]
  | (k, v) :: r =>
      if String.eqb k type then (k, hs) :: r else (k, v) :: set r type hs
  end.

(** [delete events[type]] *)
Fixpoint delete (ev : events) (type : string) : events :=
  match ev with
  | [] => []
  | (k, v) :: r =>
      if String.eqb k type then delete r type else (k, v) :: delete r type
  end.

(** [events.hasOwnProperty(type)].  The method is found on
    [Object.prototype] unless [events] has an own property of that name,
    and such a property holds an array: calling it throws. *)
Definition hasOwnProperty (ev : events) (type : string) : outcome bool :=
  match own ev "hasOwnProperty" with
  | Some _ => TypeError
  | None =>
      Done match own ev type with
           | Some _ => true
           | None => false
           end
  end.

(** [hs.splice(hs.indexOf(h), 1)] when [h] is found. *)
Fixpoint remove_first (h : handler) (hs : list handler) : list handler :=
  match hs with
  | [] => []
  | k :: r => if Nat.eqb k h then r else k :: remove_first h r
  end.

(** [new Emitter()] *)
Definition new_Emitter : events := [].

(** [on(type, handler)].  Assigning to [__proto__] runs the setter
    inherited from [Object.prototype], which replaces the prototype of
    [events] and adds no own property. *)
Definition on (ev : events) (type : string) (h : handler)
  : outcome (events * returned) :=
  match hasOwnProperty ev type with
  | TypeError => TypeError
  | Done true => Done (set ev type (or_else (own ev type) [] ++ [h]), This)
  | Done false =>
      if String.eqb type "__proto__" then Done (ev, This)
      else Done (set ev type [h], This)
  end.

Definition _offAll (ev : events) : outcome (events * returned) :=
  Done ([], This).

Definition _offByType (ev : events) (type : string)
  : outcome (events * returned) :=
  match hasOwnProperty ev type with
  | TypeError => TypeError
  | Done true => Done (delete ev type, This)
  | Done false => Done (ev, This)
  end.

Definition _offByHandler (ev : events) (type : string) (h : handler)
  : outcome (events * returned) :=
  match hasOwnProperty ev type with
  | TypeError => TypeError
  | Done false => Done (ev, Undefined)
  | Done true =>
      Done (set ev type (remove_first h (or_else (own ev type) [])), This)
  end.

(** The arguments of a call of [off]: none, a type alone (or with an
    [undefined] handler), or a type and a handler. *)
Inductive off_args : Type :=
| NoArguments
| OnlyType (type : string)
| TypeAndHandler (type : string) (h : handler).

Definition off (ev : events) (args : off_args) : outcome (events * returned) :=
  match args with
  | NoArguments => _offAll ev
  | OnlyType type => _offByType ev type
  | TypeAndHandler type h => _offByHandler ev type h
  end.

End Emitter.

(** * Lemmas and theorems *)

(** ** The arithmetic agrees with IEEE-754 *)

Example mul_agrees :
  Num.mul (Num.of_dec 1005 (-3)) (Num.of_Z 100)
  = SFmul prec emax (Num.of_dec 1005 (-3)) (Num.of_Z 100).
Proof. vm_compute. reflexivity. Qed.

Example div_agrees :
  Num.div (Num.of_Z 1) (Num.of_Z 3)
  = SFdiv prec emax (Num.of_Z 1) (Num.of_Z 3).
Proof. vm_compute. reflexivity. Qed.

Example add_agrees :
  Num.add (Num.of_dec 1 (-1)) (Num.of_dec 2 (-1))
  = SFadd prec emax (Num.of_dec 1 (-1)) (Num.of_dec 2 (-1)).
Proof. vm_compute. reflexivity. Qed.

(** ** Scaling, binades and rounding to nearest even *)

Section UpFacts.

Lemma up_nonneg_exp z k : 0 <= k -> Num.up z k = z * 2 ^ k.
Proof. intros H. unfold Num.up. now rewrite Z.max_r. Qed.

Lemma up_nonpos_exp z k : k <= 0 -> Num.up z k = z.
Proof. intros H. unfold Num.up. rewrite Z.max_l by lia. cbn. lia. Qed.

Lemma up_pos z k : 0 < z -> 0 < Num.up z k.
Proof.
  intros H. unfold Num.up.
  apply Z.mul_pos_pos; [assumption|]. apply Z.pow_pos_nonneg; lia.
Qed.

(** [up b k <= up a (-k)] says [b * 2^k <= a]; scaling both sides by a
    large enough power of two removes the case distinction. *)
Lemma le2_shift a b k K :
  0 <= K -> 0 <= k + K ->
  (Num.up b k <= Num.up a (- k) <-> b * 2 ^ (k + K) <= a * 2 ^ K).
Proof.
  intros HK HkK.
  destruct (Z.le_gt_cases 0 k) as [Hk|Hk].
  - rewrite up_nonneg_exp, up_nonpos_exp by lia.
    rewrite Z.pow_add_r by lia.
    assert (0 < 2 ^ K) by (apply Z.pow_pos_nonneg; lia).
    split; intros; nia.
  - rewrite up_nonpos_exp, (up_nonneg_exp a) by lia.
    replace K with (- k + (k + K)) at 2 by lia.
    rewrite (Z.pow_add_r 2 (- k)) by lia.
    assert (0 < 2 ^ (k + K)) by (apply Z.pow_pos_nonneg; lia).
    split; intros; nia.
Qed.

Lemma lt2_shift a b k K :
  0 <= K -> 0 <= k + K ->
  (Num.up a (- k) < Num.up b k <-> a * 2 ^ K < b * 2 ^ (k + K)).
Proof.
  intros HK HkK. pose proof (le2_shift a b k K HK HkK). lia.
Qed.

End UpFacts.

Section Mag.

Variables a b : Z.
Hypothesis Ha : 0 < a.
Hypothesis Hb : 0 < b.

Lemma mag_spec :
  Num.up b (Num.mag a b - 1) <= Num.up a (- (Num.mag a b - 1))
  /\ Num.up a (- Num.mag a b) < Num.up b (Num.mag a b).
Proof.
  unfold Num.mag.
  set (la := Z.log2 a). set (lb := Z.log2 b).
  destruct (Z.log2_spec a Ha) as [Ha1 Ha2]. fold la in Ha1, Ha2.
  destruct (Z.log2_spec b Hb) as [Hb1 Hb2]. fold lb in Hb1, Hb2.
  pose proof (Z.log2_nonneg a). pose proof (Z.log2_nonneg b).
  fold la in H. fold lb in H0.
  set (K := la + lb + 2).
  assert (HK : 0 <= K) by lia.
  (* everything at scale K *)
  assert (E1 : 2 ^ (la - lb - 1 + K) * 2 ^ (lb + 1) = 2 ^ la * 2 ^ K).
  { rewrite <- !Z.pow_add_r by lia. f_equal. lia. }
  assert (E2 : 2 ^ (la - lb + 1 + K) * 2 ^ lb = 2 ^ (la + 1) * 2 ^ K).
  { rewrite <- !Z.pow_add_r by lia. f_equal. lia. }
  assert (P1 : 0 < 2 ^ (la - lb - 1 + K)) by (apply Z.pow_pos_nonneg; lia).
  assert (P2 : 0 < 2 ^ (la - lb + 1 + K)) by (apply Z.pow_pos_nonneg; lia).
  assert (P3 : 0 < 2 ^ K) by (apply Z.pow_pos_nonneg; lia).
  destruct (Z.leb_spec (Num.up b (la - lb)) (Num.up a (- (la - lb)))) as [C|C].
  - split.
    + replace (la - lb + 1 - 1) with (la - lb) by lia. exact C.
    + apply (lt2_shift a b (la - lb + 1) K); [lia|lia|]. nia.
  - split.
    + apply (le2_shift a b (la - lb - 1) K); [lia|lia|]. nia.
    + exact C.
Qed.

End Mag.

(** The binade is determined by the two bounds. *)
Lemma mag_unique a b d :
  0 < a -> 0 < b ->
  Num.up b (d - 1) <= Num.up a (- (d - 1)) ->
  Num.up a (- d) < Num.up b d ->
  Num.mag a b = d.
Proof.
  intros Ha Hb L U.
  destruct (mag_spec a b Ha Hb) as [L' U'].
  set (d' := Num.mag a b) in *.
  set (K := Z.abs d + Z.abs d' + 2).
  apply (le2_shift a b (d - 1) K) in L; [|lia|lia].
  apply (lt2_shift a b d K) in U; [|lia|lia].
  apply (le2_shift a b (d' - 1) K) in L'; [|lia|lia].
  apply (lt2_shift a b d' K) in U'; [|lia|lia].
  assert (P : 0 < 2 ^ K) by (apply Z.pow_pos_nonneg; lia).
  destruct (Z.lt_trichotomy d d') as [C|[C|C]]; [|symmetry; assumption|]; exfalso.
  - (* d <= d' - 1: b 2^(d'-1+K) <= a 2^K < b 2^(d+K) *)
    assert (2 ^ (d + K) <= 2 ^ (d' - 1 + K)) by (apply Z.pow_le_mono_r; lia).
    nia.
  - assert (2 ^ (d' + K) <= 2 ^ (d - 1 + K)) by (apply Z.pow_le_mono_r; lia).
    nia.
Qed.

Lemma mag_scale a b a' b' :
  0 < a -> 0 < b -> 0 < a' -> 0 < b' -> a * b' = a' * b ->
  Num.mag a b = Num.mag a' b'.
Proof.
  intros Ha Hb Ha' Hb' E.
  symmetry. apply mag_unique; try assumption.
  - destruct (mag_spec a b Ha Hb) as [L _].
    set (d := Num.mag a b) in *. set (K := Z.abs d + 2).
    apply (le2_shift a b (d - 1) K) in L; [|lia|lia].
    apply (le2_shift a' b' (d - 1) K); [lia|lia|].
    assert (0 <= 2 ^ K) by (apply Z.pow_nonneg; lia).
    assert (0 <= 2 ^ (d - 1 + K)) by (apply Z.pow_nonneg; lia).
    apply (Z.mul_le_mono_pos_r _ _ b); [assumption|].
    replace (a' * 2 ^ K * b) with (b' * (a * 2 ^ K)) by nia.
    replace (b' * 2 ^ (d - 1 + K) * b) with (b' * (b * 2 ^ (d - 1 + K))) by ring.
    apply Z.mul_le_mono_nonneg_l; lia.
  - destruct (mag_spec a b Ha Hb) as [_ U].
    set (d := Num.mag a b) in *. set (K := Z.abs d + 2).
    apply (lt2_shift a b d K) in U; [|lia|lia].
    apply (lt2_shift a' b' d K); [lia|lia|].
    apply (Z.mul_lt_mono_pos_r b); [assumption|].
    replace (a' * 2 ^ K * b) with (b' * (a * 2 ^ K)) by nia.
    replace (b' * 2 ^ (d + K) * b) with (b' * (b * 2 ^ (d + K))) by ring.
    apply Z.mul_lt_mono_pos_l; lia.
Qed.

Section Rne.

Lemma rne_scale k num den :
  0 < k -> 0 < den -> Num.rne (k * num) (k * den) = Num.rne num den.
Proof.
  intros Hk Hd. unfold Num.rne.
  rewrite Z.div_mul_cancel_l by lia.
  rewrite Z.mul_mod_distr_l by lia.
  replace (2 * (k * (num mod den))) with (k * (2 * (num mod den))) by ring.
  rewrite <- Zmult_compare_compat_l by lia. reflexivity.
Qed.

Lemma rne_ratio num den num' den' :
  0 < den -> 0 < den' -> num * den' = num' * den ->
  Num.rne num den = Num.rne num' den'.
Proof.
  intros Hd Hd' E.
  rewrite <- (rne_scale den' num den) by assumption.
  rewrite <- (rne_scale den num' den') by assumption.
  f_equal; lia.
Qed.

(** The rounded quotient is within half a unit of the quotient. *)
Lemma rne_near num den :
  0 < den ->
  2 * Num.rne num den * den - den <= 2 * num
  /\ 2 * num <= 2 * Num.rne num den * den + den.
Proof.
  intros Hd. unfold Num.rne.
  pose proof (Z.div_mod num den ltac:(lia)) as E.
  pose proof (Z.mod_pos_bound num den Hd) as B.
  destruct (Z.compare_spec (2 * (num mod den)) den) as [C|C|C];
    [destruct (Z.even (num / den))|..]; nia.
Qed.

Lemma rne_exact m den : 0 < den -> Num.rne (m * den) den = m.
Proof.
  intros Hd. unfold Num.rne.
  rewrite Z.div_mul by lia. rewrite Z.mod_mul by lia.
  destruct (Z.compare_spec (2 * 0) den); lia.
Qed.

Lemma rne_mono_bounds num den lo hi :
  0 < den -> lo * den <= num -> num <= hi * den ->
  lo <= Num.rne num den <= hi.
Proof.
  intros Hd L U. unfold Num.rne.
  pose proof (Z.div_mod num den ltac:(lia)) as E.
  pose proof (Z.mod_pos_bound num den Hd) as B.
  assert (lo <= num / den) by (apply Z.div_le_lower_bound; lia).
  destruct (Z.compare_spec (2 * (num mod den)) den) as [C|C|C];
    [destruct (Z.even (num / den))|..]; try nia.
Qed.

End Rne.

Lemma qexp_scale a b a' b' :
  0 < a -> 0 < b -> 0 < a' -> 0 < b' -> a * b' = a' * b ->
  Num.qexp a b = Num.qexp a' b'.
Proof.
  intros. unfold Num.qexp. now rewrite (mag_scale a b a' b').
Qed.

(** Rounding depends on the value of the fraction only. *)
Lemma rnd_ext s a b a' b' :
  0 < a -> 0 < b -> 0 < a' -> 0 < b' -> a * b' = a' * b ->
  Num.rnd s a b = Num.rnd s a' b'.
Proof.
  intros Ha Hb Ha' Hb' E. unfold Num.rnd.
  rewrite <- (qexp_scale a b a' b') by assumption.
  f_equal. apply rne_ratio.
  - now apply up_pos.
  - now apply up_pos.
  - unfold Num.up. 
    replace (a * 2 ^ Z.max 0 (- Num.qexp a b) * (b' * 2 ^ Z.max 0 (Num.qexp a b)))
      with (a * b' * (2 ^ Z.max 0 (- Num.qexp a b) * 2 ^ Z.max 0 (Num.qexp a b))) by ring.
    rewrite E. ring.
Qed.

(** ** Powers of two and ratios over the rationals *)

Lemma q2_pos k : (0 < q2 k)%Q.
Proof. apply Qpower_0_lt. reflexivity. Qed.

Lemma q2_add j k : (q2 (j + k) == q2 j * q2 k)%Q.
Proof. apply Qpower_plus. discriminate. Qed.

Lemma q2_opp k : (q2 (- k) == / q2 k)%Q.
Proof. apply Qpower_opp. Qed.

Lemma q2_Z k : 0 <= k -> (inject_Z (2 ^ k) == q2 k)%Q.
Proof. intros. unfold Num.pow2. rewrite Zpower_Qpower by assumption. reflexivity. Qed.

Lemma q2_le j k : j <= k -> (q2 j <= q2 k)%Q.
Proof. intros. apply Qpower_le_compat_l; [assumption|]. discriminate. Qed.

Lemma q2_0 : (q2 0 == 1)%Q.
Proof. reflexivity. Qed.

Lemma q2_succ k : (q2 (k + 1) == 2 * q2 k)%Q.
Proof. rewrite q2_add. change (q2 1) with 2%Q. ring. Qed.

Lemma q2_inv k : (q2 k * q2 (- k) == 1)%Q.
Proof. rewrite <- q2_add. replace (k + - k) with 0 by lia. reflexivity. Qed.

Global Opaque Num.pow2.

Lemma inject_up z k : (inject_Z (Num.up z k) == inject_Z z * q2 (Z.max 0 k))%Q.
Proof.
  unfold Num.up. rewrite inject_Z_mult, q2_Z by lia. reflexivity.
Qed.

Lemma q2_max k : (q2 (Z.max 0 k) == q2 k * q2 (Z.max 0 (- k)))%Q.
Proof.
  rewrite <- q2_add. destruct (Z.le_gt_cases 0 k).
  - rewrite !Z.max_r, Z.max_l by lia. replace (k + 0) with k by lia. reflexivity.
  - rewrite Z.max_l, Z.max_r by lia. replace (k + - k) with 0 by lia. reflexivity.
Qed.

(** [up a k / up b (-k)] is [a / b * 2^k]. *)
Lemma ratio_up a b k :
  0 < b -> (ratio (Num.up a k) (Num.up b (- k)) == ratio a b * q2 k)%Q.
Proof.
  intros Hb. unfold ratio. rewrite !inject_up, (q2_max k).
  pose proof (q2_pos (Z.max 0 (- k))).
  assert (~ inject_Z b == 0)%Q.
  { intros E. apply (inject_Z_injective b 0) in E. lia. }
  field. split; [assumption|lra].
Qed.

Lemma ratio_up_opp a b k :
  0 < b -> (ratio (Num.up a (- k)) (Num.up b k) == ratio a b * q2 (- k))%Q.
Proof.
  intros Hb. rewrite <- (ratio_up a b (- k) Hb). now rewrite Z.opp_involutive.
Qed.

Lemma ratio_pos a b : 0 < a -> 0 < b -> (0 < ratio a b)%Q.
Proof.
  intros Ha Hb. unfold ratio.
  apply Qlt_shift_div_l.
  - change 0%Q with (inject_Z 0). rewrite <- Zlt_Qlt. assumption.
  - rewrite Qmult_0_l. change 0%Q with (inject_Z 0). rewrite <- Zlt_Qlt. assumption.
Qed.

Lemma ratio_le_1 a b : 0 < b -> (b <= a <-> (1 <= ratio a b)%Q).
Proof.
  intros Hb. unfold ratio.
  assert (0 < inject_Z b)%Q by (change 0%Q with (inject_Z 0); now rewrite <- Zlt_Qlt).
  split; intros H1.
  - apply Qle_shift_div_l; [assumption|]. rewrite Qmult_1_l. now rewrite <- Zle_Qle.
  - rewrite Zle_Qle.
    setoid_replace (inject_Z a) with (inject_Z a / inject_Z b * inject_Z b)%Q by (field; lra).
    setoid_replace (inject_Z b) with (1 * inject_Z b)%Q at 1 by ring.
    apply Qmult_le_compat_r; lra.
Qed.

Lemma ratio_lt_1 a b : 0 < b -> (a < b <-> (ratio a b < 1)%Q).
Proof.
  intros Hb. pose proof (ratio_le_1 a b Hb) as [H1 H2].
  split; intros H.
  - apply Qnot_le_lt. intros C. apply H2 in C. lia.
  - apply Z.nle_gt. intros C. apply H1 in C. lra.
Qed.

(** The binade, over the rationals. *)
Lemma mag_Q a b :
  0 < a -> 0 < b ->
  (q2 (Num.mag a b - 1) <= ratio a b < q2 (Num.mag a b))%Q.
Proof.
  intros Ha Hb. destruct (mag_spec a b Ha Hb) as [L U].
  set (d := Num.mag a b) in *.
  apply ratio_le_1 in L; [|now apply up_pos].
  rewrite ratio_up_opp in L by assumption.
  apply ratio_lt_1 in U; [|now apply up_pos].
  rewrite ratio_up_opp in U by assumption.
  pose proof (q2_pos (d - 1)). pose proof (q2_pos d).
  pose proof (q2_inv (d - 1)). pose proof (q2_inv d).
  pose proof (ratio_pos a b Ha Hb).
  split.
  - setoid_replace (q2 (d - 1)) with (1 * q2 (d - 1))%Q by ring.
    setoid_replace (ratio a b) with (ratio a b * q2 (- (d - 1)) * q2 (d - 1))%Q.
    + apply Qmult_le_compat_r; lra.
    + rewrite <- Qmult_assoc. rewrite (Qmult_comm (q2 (- (d - 1)))). rewrite H1. ring.
  - setoid_replace (q2 d) with (1 * q2 d)%Q by ring.
    setoid_replace (ratio a b) with (ratio a b * q2 (- d) * q2 d)%Q.
    + apply Qmult_lt_compat_r; lra.
    + rewrite <- Qmult_assoc. rewrite (Qmult_comm (q2 (- d))). rewrite H2. ring.
Qed.

Lemma inject_Z_pos z : 0 < z -> (0 < inject_Z z)%Q.
Proof. intros. change 0%Q with (inject_Z 0). now rewrite <- Zlt_Qlt. Qed.

Lemma ratio_le_Z a b k : 0 < b -> (a <= k * b <-> (ratio a b <= inject_Z k)%Q).
Proof.
  intros Hb. unfold ratio. pose proof (inject_Z_pos b Hb).
  split; intros H1.
  - apply Qle_shift_div_r; [assumption|].
    rewrite <- inject_Z_mult, <- Zle_Qle. assumption.
  - rewrite Zle_Qle, inject_Z_mult.
    setoid_replace (inject_Z a) with (inject_Z a / inject_Z b * inject_Z b)%Q by (field; lra).
    apply Qmult_le_compat_r; lra.
Qed.

Lemma ratio_ge_Z a b k : 0 < b -> (k * b <= a <-> (inject_Z k <= ratio a b)%Q).
Proof.
  intros Hb. unfold ratio. pose proof (inject_Z_pos b Hb).
  split; intros H1.
  - apply Qle_shift_div_l; [assumption|].
    rewrite <- inject_Z_mult, <- Zle_Qle. assumption.
  - rewrite Zle_Qle, inject_Z_mult.
    setoid_replace (inject_Z a) with (inject_Z a / inject_Z b * inject_Z b)%Q by (field; lra).
    apply Qmult_le_compat_r; lra.
Qed.

Lemma q2_lt_inv j k : (q2 j < q2 k)%Q -> j < k.
Proof.
  intros H. apply Z.nle_gt. intros C. apply q2_le in C. lra.
Qed.

(** The rounded quotient, over the rationals. *)
Lemma rne_Q num den :
  0 < den ->
  (inject_Z (Num.rne num den) - (1 # 2) <= ratio num den
   <= inject_Z (Num.rne num den) + (1 # 2))%Q.
Proof.
  intros Hd. destruct (rne_near num den Hd) as [L U].
  set (m := Num.rne num den) in *.
  pose proof (inject_Z_pos den Hd) as Pd.
  unfold ratio. split.
  - apply Qle_shift_div_l; [assumption|].
    assert (E : (inject_Z (2 * m * den - den) <= inject_Z (2 * num))%Q)
      by (now rewrite <- Zle_Qle).
    unfold Z.sub in E. rewrite inject_Z_plus, inject_Z_opp, !inject_Z_mult in E.
    change (inject_Z 2) with 2%Q in E.
    lra.
  - apply Qle_shift_div_r; [assumption|].
    assert (E : (inject_Z (2 * num) <= inject_Z (2 * m * den + den))%Q)
      by (now rewrite <- Zle_Qle).
    rewrite inject_Z_plus, !inject_Z_mult in E. change (inject_Z 2) with 2%Q in E.
    lra.
Qed.

(** The value [pack] builds. *)
Lemma pack_finite s m e :
  0 < m <= 2 ^ 53 -> e <= 970 ->
  exists m' e',
    Num.pack s m e = S754_finite s m' e'
    /\ (inject_Z (Zpos m') * q2 e' == inject_Z m * q2 e)%Q
    /\ Zpos m' < 2 ^ 53
    /\ e <= e' <= e + 1
    /\ (m < 2 ^ 53 -> Zpos m' = m /\ e' = e).
Proof.
  intros Hm He. unfold Num.pack, prec, emax.
  destruct (Z.eqb_spec m 0) as [->|_]; [lia|].
  destruct (Z.eqb_spec m (2 ^ 53)) as [->|Hne].
  - destruct (Z.leb_spec (e + 1) (1024 - 53)) as [_|C]; [|lia].
    exists (Z.to_pos (2 ^ (53 - 1))), (e + 1).
    split; [reflexivity|].
    rewrite Z2Pos.id by (vm_compute; reflexivity).
    split; [|split; [vm_compute; reflexivity|split; [lia|intros C; lia]]].
    rewrite q2_succ.
    change (inject_Z (2 ^ 53)) with (2 * inject_Z (2 ^ (53 - 1)))%Q. ring.
  - destruct (Z.leb_spec e (1024 - 53)) as [_|C]; [|lia].
    exists (Z.to_pos m), e.
    split; [reflexivity|].
    rewrite Z2Pos.id by lia.
    split; [reflexivity|]. split; [lia|]. split; [lia|]. intros _. split; reflexivity.
Qed.

(** ** Correct rounding of normal results *)

Lemma scale_bounds (m r T : Q) :
  (0 < T -> m - (1 # 2) <= r <= m + (1 # 2) ->
   m * T - T * (1 # 2) <= r * T <= m * T + T * (1 # 2))%Q.
Proof. intros HT [L U]. split; nra. Qed.

Lemma q2_52 : (q2 52 == inject_Z (2 ^ 52))%Q.
Proof. symmetry. apply q2_Z. lia. Qed.

Lemma q2_53 : (q2 53 == inject_Z (2 ^ 53))%Q.
Proof. symmetry. apply q2_Z. lia. Qed.

Lemma ratio_eq_Z a b k : 0 < b -> ((ratio a b == inject_Z k)%Q <-> a = k * b).
Proof.
  intros Hb. split; intros E.
  - assert (H1 : (ratio a b <= inject_Z k)%Q) by lra.
    assert (H2 : (inject_Z k <= ratio a b)%Q) by lra.
    apply ratio_le_Z in H1; [|assumption].
    apply ratio_ge_Z in H2; [|assumption]. lia.
  - assert (H1 : (ratio a b <= inject_Z k)%Q)
      by (apply (proj1 (ratio_le_Z a b k Hb)); lia).
    assert (H2 : (inject_Z k <= ratio a b)%Q)
      by (apply (proj1 (ratio_ge_Z a b k Hb)); lia).
    now apply Qle_antisym.
Qed.

Lemma ratio_eq a b a' b' :
  0 < b -> 0 < b' -> ((ratio a b == ratio a' b')%Q <-> a * b' = a' * b).
Proof.
  intros Hb Hb'. unfold ratio.
  pose proof (inject_Z_pos b Hb). pose proof (inject_Z_pos b' Hb').
  split; intros E.
  - apply inject_Z_injective. rewrite !inject_Z_mult.
    setoid_replace (inject_Z a) with (inject_Z a / inject_Z b * inject_Z b)%Q by (field; lra).
    rewrite E. field. lra.
  - apply (f_equal inject_Z) in E. rewrite !inject_Z_mult in E.
    field_simplify_eq; [|split; lra]. rewrite E. ring.
Qed.

Section RndNormal.

Variables (s : bool) (a b : Z).
Hypothesis Ha : 0 < a.
Hypothesis Hb : 0 < b.
Hypothesis Hlo : (q2 (-1022) <= ratio a b)%Q.
Hypothesis Hhi : (ratio a b < q2 1023)%Q.

Let d := Num.mag a b.
Let e := d - 53.
Let num := Num.up a (- e).
Let den := Num.up b e.
Let m := Num.rne num den.

Lemma rnd_normal_core :
  Num.rnd s a b = Num.pack s m e
  /\ 0 < den
  /\ (ratio num den == ratio a b * q2 (- e))%Q
  /\ 2 ^ 52 <= m <= 2 ^ 53
  /\ e <= 970
  /\ (q2 e * inject_Z (2 ^ 52) <= ratio a b)%Q
  /\ (ratio num den < q2 53)%Q.
Proof.
  destruct (mag_Q a b Ha Hb) as [L U]. fold d in L, U.
  assert (Hd1 : -1022 < d) by (apply q2_lt_inv; lra).
  assert (Hd2 : d - 1 < 1023) by (apply q2_lt_inv; lra).
  assert (Hden : 0 < den) by now apply up_pos.
  pose proof (ratio_up_opp a b e Hb) as Er. fold num den in Er.
  pose proof (q2_pos e) as PT. pose proof (q2_pos (- e)) as PT'.
  assert (B1 : (q2 52 <= ratio num den)%Q).
  { rewrite Er. setoid_replace (q2 52) with (q2 (d - 1) * q2 (- e))%Q.
    - apply Qmult_le_compat_r; lra.
    - rewrite <- q2_add. replace (d - 1 + - e) with 52 by (unfold e; lia). reflexivity. }
  assert (B2 : (ratio num den < q2 53)%Q).
  { rewrite Er. setoid_replace (q2 53) with (q2 d * q2 (- e))%Q.
    - apply Qmult_lt_compat_r; lra.
    - rewrite <- q2_add. replace (d + - e) with 53 by (unfold e; lia). reflexivity. }
  split.
  { unfold Num.rnd, Num.qexp. fold d. unfold prec, emax.
    rewrite Z.max_l by lia. reflexivity. }
  split; [assumption|]. split; [assumption|].
  split.
  { assert (B2' : (ratio num den <= q2 53)%Q) by lra.
    rewrite q2_52 in B1. rewrite q2_53 in B2'.
    apply ratio_ge_Z in B1; [|assumption]. apply ratio_le_Z in B2'; [|assumption].
    exact (rne_mono_bounds num den (2 ^ 52) (2 ^ 53) Hden B1 B2'). }
  split; [unfold e; lia|].
  split; [|assumption].
  rewrite <- q2_52, <- q2_add. replace (e + 52) with (d - 1) by (unfold e; lia). exact L.
Qed.

(** Rounding a fraction of the normal range: the result is a normalised
    double and the relative error is at most [2^-53]. *)
Lemma rnd_normal :
  exists q',
    normal (Num.rnd s a b) s q'
    /\ (Qabs (q' - ratio a b) <= ratio a b * u53)%Q.
Proof.
  destruct rnd_normal_core as (Er & Hden & Eq & Bm & He & ET & _).
  pose proof (rne_Q num den Hden) as Near. fold m in Near.
  destruct (pack_finite s m e) as (m' & e' & Ep & Ev & Hm' & He' & Hsame).
  { split; [|lia]. assert (0 < 2 ^ 52) by (vm_compute; reflexivity). lia. }
  { assumption. }
  exists (inject_Z m * q2 e)%Q. split.
  - exists m', e'. split; [congruence|]. split; [|exact Ev].
    destruct (Z.eq_dec m (2 ^ 53)) as [E|NE].
    + (* renormalised *)
      unfold Num.pack in Ep. rewrite E in Ep. 
      change (2 ^ 53 =? 0) with false in Ep. 
      change (2 ^ 53 =? 2 ^ prec) with true in Ep. cbv iota in Ep.
      destruct (e + 1 <=? emax - prec); [|discriminate].
      injection Ep as <- <-. vm_compute. split; [discriminate|reflexivity].
    + destruct Hsame as [-> _]; lia.
  - pose proof (q2_pos e) as PT. pose proof (q2_inv e) as Ei.
    pose proof (scale_bounds (inject_Z m) (ratio num den) (q2 e) PT Near) as [S1 S2].
    assert (Eq' : (ratio num den * q2 e == ratio a b)%Q).
    { rewrite Eq, <- Qmult_assoc, (Qmult_comm (q2 (- e))), Ei. ring. }
    change (inject_Z (2 ^ 52)) with (4503599627370496 # 1)%Q in ET.
    apply Qabs_Qle_condition. unfold u53.
    change (1 # 2 ^ 53)%Q with (1 # 9007199254740992)%Q.
    split; lra.
Qed.

(** A fraction that is a double is rounded to itself. *)
Lemma rnd_exact M E :
  0 < M < 2 ^ 53 -> (ratio a b == inject_Z M * q2 E)%Q ->
  normal (Num.rnd s a b) s (ratio a b).
Proof.
  intros HM EM.
  destruct rnd_normal_core as (Er & Hden & Eq & Bm & He & ET & B2).
  destruct (mag_Q a b Ha Hb) as [L U]. fold d in L, U.
  pose proof (q2_pos E) as PE. pose proof (q2_pos e) as PT.
  pose proof (q2_pos (- e)) as PT'.
  assert (HeE : e <= E).
  { assert (d - 1 < 53 + E); [|unfold e; lia].
    apply q2_lt_inv. rewrite (q2_add 53 E), q2_53.
    assert (inject_Z M < inject_Z (2 ^ 53))%Q by (rewrite <- Zlt_Qlt; lia).
    assert (inject_Z M * q2 E < inject_Z (2 ^ 53) * q2 E)%Q
      by (apply Qmult_lt_compat_r; assumption).
    lra. }
  assert (Ek : (ratio num den == inject_Z (M * 2 ^ (E - e)))%Q).
  { rewrite Eq, EM, inject_Z_mult, q2_Z by lia.
    rewrite <- Qmult_assoc, <- q2_add. replace (E + - e) with (E - e) by lia. reflexivity. }
  assert (Hnum : num = M * 2 ^ (E - e) * den) by (apply ratio_eq_Z; assumption).
  assert (Hm : m = M * 2 ^ (E - e)).
  { unfold m. rewrite Hnum. now apply rne_exact. }
  assert (Hlt : m < 2 ^ 53).
  { rewrite Zlt_Qlt, <- q2_53, Hm, <- Ek. exact B2. }
  destruct (pack_finite s m e) as (m' & e' & Ep & Ev & Hm' & He' & Hsame).
  { split; [|lia]. assert (0 < 2 ^ 52) by (vm_compute; reflexivity). lia. }
  { assumption. }
  destruct (Hsame Hlt) as [Em' Ee'].
  exists m', e'. split; [congruence|]. split; [lia|].
  rewrite Ev, Hm, <- Ek, Eq.
  rewrite <- Qmult_assoc, (Qmult_comm (q2 (- e))), (q2_inv e). ring.
Qed.

End RndNormal.

(** ** Products, quotients and integers *)

(** The fraction [fnum / fden] of a finite number. *)
Lemma ratio_finite m e :
  (ratio (Num.up (Zpos m) e) (Num.up 1 (- e)) == inject_Z (Zpos m) * q2 e)%Q.
Proof.
  rewrite ratio_up by lia. unfold ratio.
  change (inject_Z 1) with 1%Q. field.
Qed.

Lemma normal_ext x s q q' : (q == q')%Q -> normal x s q -> normal x s q'.
Proof.
  intros E (m & e & Hx & Hm & Hq). exists m, e. rewrite <- E. auto.
Qed.

Lemma normal_pos x s q : normal x s q -> (0 < q)%Q.
Proof.
  intros (m & e & _ & _ & <-).
  apply Qmult_lt_0_compat; [apply inject_Z_pos; lia|apply q2_pos].
Qed.

Section Ops.

Variables (x y : number) (sx sy : bool) (qx qy : Q) (a b : Z).
Hypothesis Hx : normal x sx qx.
Hypothesis Hy : normal y sy qy.
Hypothesis Ha : 0 < a.
Hypothesis Hb : 0 < b.

Lemma mul_normal :
  (ratio a b == qx * qy)%Q -> Num.mul x y = Num.rnd (xorb sx sy) a b.
Proof.
  intros E.
  destruct Hx as (mx & ex & -> & _ & Ex), Hy as (my & ey & -> & _ & Ey).
  cbn [Num.mul].
  apply rnd_ext; try assumption; try (apply up_pos; lia).
  apply ratio_eq; [apply up_pos; lia|assumption|].
  rewrite E, ratio_up by lia. rewrite <- Ex, <- Ey.
  unfold ratio. rewrite inject_Z_mult, q2_add.
  change (inject_Z 1) with 1%Q. field.
Qed.

Lemma div_normal :
  (ratio a b == qx / qy)%Q -> Num.div x y = Num.rnd (xorb sx sy) a b.
Proof.
  intros E.
  destruct Hx as (mx & ex & -> & _ & Ex), Hy as (my & ey & -> & _ & Ey).
  cbn [Num.div].
  apply rnd_ext; try assumption; try (apply up_pos; lia).
  apply ratio_eq; [apply up_pos; lia|assumption|].
  replace (ey - ex) with (- (ex - ey)) by lia.
  rewrite E, ratio_up by lia. rewrite <- Ex, <- Ey.
  unfold ratio. unfold Z.sub. rewrite q2_add, q2_opp.
  pose proof (q2_pos ey). pose proof (inject_Z_pos (Zpos my) ltac:(lia)).
  field. split; lra.
Qed.

End Ops.

(** Integers of at most 53 bits are doubles. *)
Lemma of_Z_normal k :
  0 < Z.abs k < 2 ^ 53 ->
  normal (Num.of_Z k) (k <? 0) (inject_Z (Z.abs k)).
Proof.
  intros Hk.
  assert (R : forall s a, 0 < a < 2 ^ 53 ->
                         normal (Num.rnd s a 1) s (inject_Z a)).
  { intros s a Ha.
    assert (E : (ratio a 1 == inject_Z a)%Q)
      by (unfold ratio; change (inject_Z 1) with 1%Q; field).
    apply (normal_ext _ _ _ _ E).
    apply (rnd_exact s a 1) with (M := a) (E := 0); try lia.
    - rewrite E. apply Qle_trans with (q2 0).
      + apply q2_le. lia.
      + rewrite q2_0. change 1%Q with (inject_Z 1). rewrite <- Zle_Qle. lia.
    - rewrite E. apply Qlt_le_trans with (q2 53).
      + rewrite q2_53, <- Zlt_Qlt. lia.
      + apply q2_le. lia.
    - rewrite E, q2_0. ring. }
  destruct k as [|p|p]; cbn [Z.abs] in Hk; [lia|..]; cbn [Num.of_Z Z.ltb Z.compare Z.abs].
  - apply R. lia.
  - change (- Z.neg p) with (Z.pos p). apply R. lia.
Qed.

(** The powers of ten up to [10^22] are doubles. *)
Lemma pow10_normal p :
  (p <= 22)%nat -> normal (Num.pow10 p) false (inject_Z (10 ^ Z.of_nat p)).
Proof.
  intros Hp. unfold Num.pow10.
  set (k := Z.of_nat p). assert (Hk : 0 <= k <= 22) by lia.
  assert (P10 : 0 < 10 ^ k) by (apply Z.pow_pos_nonneg; lia).
  assert (P5 : 0 < 5 ^ k < 2 ^ 53).
  { split; [apply Z.pow_pos_nonneg; lia|].
    apply Z.le_lt_trans with (5 ^ 22); [apply Z.pow_le_mono_r; lia|].
    vm_compute. reflexivity. }
  assert (E10 : 10 ^ k = 5 ^ k * 2 ^ k) by (rewrite <- Z.pow_mul_l; reflexivity).
  assert (E : (ratio (10 ^ k) 1 == inject_Z (10 ^ k))%Q)
    by (unfold ratio; change (inject_Z 1) with 1%Q; field).
  destruct (10 ^ k) as [|t|t] eqn:Et; try lia.
  cbn [Num.of_Z]. rewrite <- Et in *. apply (normal_ext _ _ _ _ E).
  apply (rnd_exact false (10 ^ k) 1) with (M := 5 ^ k) (E := k); try lia.
  - rewrite E. apply Qle_trans with (q2 0).
    + apply q2_le. lia.
    + rewrite q2_0. change 1%Q with (inject_Z 1). rewrite <- Zle_Qle. lia.
  - rewrite E. apply Qlt_le_trans with (q2 (53 + k)).
    + rewrite q2_add, q2_53, E10, inject_Z_mult, <- (q2_Z k) by lia.
      apply Qmult_lt_compat_r.
      * apply inject_Z_pos. apply Z.pow_pos_nonneg; lia.
      * rewrite <- Zlt_Qlt. lia.
    + apply q2_le. lia.
  - rewrite E, E10, inject_Z_mult, q2_Z by lia. reflexivity.
Qed.

(** ** Math.round and toFixed on normal numbers *)

Lemma div_half A B N :
  0 < B -> (2 * N - 1) * B <= 2 * A < (2 * N + 1) * B ->
  (2 * A + B) / (2 * B) = N.
Proof.
  intros HB [L U]. symmetry.
  apply Z.div_unique with (2 * A + B - 2 * B * N); lia.
Qed.

Lemma ratio_mul_Z A B C : 0 < B ->
  (ratio A B * inject_Z C == ratio (A * C) B)%Q.
Proof.
  intros HB. unfold ratio. rewrite inject_Z_mult.
  pose proof (inject_Z_pos B HB). field. lra.
Qed.

(** From bounds of half a unit around [N] over the rationals to the
    integers. *)
Lemma half_bounds_Z A B N :
  0 < B ->
  (inject_Z N - (1 # 2) <= ratio A B < inject_Z N + (1 # 2))%Q ->
  (2 * N - 1) * B <= 2 * A < (2 * N + 1) * B.
Proof.
  intros HB [L U].
  assert (E : (ratio (2 * A) B == 2 * ratio A B)%Q).
  { unfold ratio. rewrite inject_Z_mult. change (inject_Z 2) with 2%Q.
    pose proof (inject_Z_pos B HB). field. lra. }
  split.
  - apply (ratio_ge_Z (2 * A) B (2 * N - 1) HB).
    rewrite E. unfold Z.sub. rewrite inject_Z_plus, inject_Z_mult.
    change (inject_Z 2) with 2%Q. change (inject_Z (- (1))) with (- (1))%Q. lra.
  - apply Z.nle_gt. intros C.
    apply (ratio_ge_Z (2 * A) B (2 * N + 1) HB) in C.
    rewrite E, inject_Z_plus, inject_Z_mult in C.
    change (inject_Z 2) with 2%Q in C. change (inject_Z 1) with 1%Q in C. lra.
Qed.

(** [Math.round] of a normalised double below [2^52] whose value is
    within half a unit of [k], the upper end excluded. *)
Lemma round_normal x s q k :
  normal x s q -> (q < q2 52)%Q ->
  (inject_Z k - (1 # 2) <= (if s then - q else q) < inject_Z k + (1 # 2))%Q ->
  Num.round x = Num.of_Z_signed s k.
Proof.
  intros (m & e & -> & Hm & Eq) Hq Hk.
  assert (He : e < 0).
  { apply q2_lt_inv. rewrite q2_0.
    pose proof (q2_pos e) as PT.
    assert (inject_Z (2 ^ 52) <= inject_Z (Zpos m))%Q by (rewrite <- Zle_Qle; lia).
    rewrite q2_52 in Hq.
    assert (inject_Z (2 ^ 52) * q2 e <= inject_Z (Z.pos m) * q2 e)%Q
      by (apply Qmult_le_compat_r; lra).
    assert (P52 : (0 < inject_Z (2 ^ 52))%Q) by (apply inject_Z_pos; reflexivity).
    apply Qnot_le_lt. intros C.
    assert (inject_Z (2 ^ 52) * 1 <= inject_Z (2 ^ 52) * q2 e)%Q.
    { rewrite !(Qmult_comm (inject_Z (2 ^ 52))). apply Qmult_le_compat_r; lra. }
    lra. }
  cbn [Num.round]. destruct (Z.leb_spec 0 e) as [C|_]; [lia|].
  f_equal. cbn [Num.fnum Num.fden].
  rewrite up_nonpos_exp by lia. rewrite up_nonneg_exp by lia. rewrite Z.mul_1_l.
  set (D := 2 ^ (- e)). assert (HD : 0 < D) by (apply Z.pow_pos_nonneg; lia).
  apply div_half; [assumption|].
  apply half_bounds_Z; [assumption|].
  assert (Ev : (ratio (cond_Zopp s (Z.pos m)) D == if s then - q else q)%Q).
  { pose proof (q2_inv e) as Ei. pose proof (q2_pos (- e)). pose proof (q2_pos e).
    assert (Ei' : (q2 e == / q2 (- e))%Q) by (field_simplify_eq; lra).
    destruct s; cbn [cond_Zopp Z.opp];
      [change (inject_Z (Z.neg m)) with (- inject_Z (Z.pos m))%Q|];
      rewrite <- Eq; unfold ratio, D; rewrite q2_Z by lia;
      rewrite Ei';
      try change (inject_Z (Z.neg m)) with (- inject_Z (Z.pos m))%Q;
      field; lra. }
  rewrite Ev. exact Hk.
Qed.

(** [toFixed] of a normalised double below [10^21]. *)
Lemma toFixed_normal x s q f N :
  normal x s q -> (f <= 100)%nat ->
  (q < inject_Z (10 ^ 21))%Q ->
  (inject_Z N - (1 # 2) <= q * inject_Z (10 ^ Z.of_nat f)
   < inject_Z N + (1 # 2))%Q ->
  Conv.toFixed x f
  = Normal ((if s then "-" else "") ++ Conv.fixed N f)%string.
Proof.
  intros (m & e & -> & Hm & Eq) Hf Hq HN.
  unfold Conv.toFixed.
  destruct (Nat.ltb_spec 100 f) as [C|_]; [lia|].
  cbn [Num.abs SFabs Num.fnum Num.fden cond_Zopp].
  set (a := Num.up (Z.pos m) e). set (b := Num.up 1 (- e)).
  assert (Hb : 0 < b) by (apply up_pos; lia).
  pose proof (ratio_finite m e) as Er. fold a b in Er. rewrite Eq in Er.
  destruct (Z.leb_spec (10 ^ 21 * b) a) as [C|_].
  { apply (ratio_ge_Z a b (10 ^ 21) Hb) in C. lra. }
  do 3 f_equal.
  replace (2 * a * 10 ^ Z.of_nat f) with (2 * (a * 10 ^ Z.of_nat f)) by ring.
  apply div_half; [assumption|].
  apply half_bounds_Z; [assumption|].
  rewrite <- ratio_mul_Z, Er by assumption. exact HN.
Qed.

(** ** Strings of digits *)

Section StringFacts.

Lemma append_nil_r s : s ++ "" = s.
Proof. induction s; cbn; congruence. Qed.

Lemma append_assoc s t u : (s ++ t) ++ u = s ++ t ++ u.
Proof. induction s; cbn; congruence. Qed.

Lemma length_append s t :
  String.length (s ++ t) = (String.length s + String.length t)%nat.
Proof. induction s; cbn; congruence. Qed.

Lemma all_chars_append p s t :
  all_chars p (s ++ t) = all_chars p s && all_chars p t.
Proof. induction s; cbn; [reflexivity|]. rewrite IHs. now rewrite andb_assoc. Qed.

Lemma substring_split j s :
  (j <= String.length s)%nat ->
  substring 0 j s ++ substring j (String.length s - j) s = s.
Proof.
  revert j. induction s as [|c r IH]; intros j Hj.
  - destruct j; reflexivity.
  - destruct j as [|j]; cbn [substring String.length append].
    + f_equal. clear. replace (String.length r - 0)%nat with (String.length r) by lia.
      rewrite Nat.sub_0_r. induction r; cbn; congruence.
    + cbn in Hj. f_equal. replace (S (String.length r) - S j)%nat
        with (String.length r - j)%nat by lia. apply IH. lia.
Qed.

Lemma substring_length j i s :
  (j + i <= String.length s)%nat -> String.length (substring j i s) = i.
Proof.
  revert j i. induction s as [|c r IH]; intros j i H; cbn in H.
  - destruct j, i; cbn; lia.
  - destruct j as [|j]; cbn [substring].
    + destruct i as [|i]; cbn; [reflexivity|]. f_equal. apply IH. lia.
    + apply IH. lia.
Qed.

Lemma substring_all p j i s :
  all_chars p s = true -> all_chars p (substring j i s) = true.
Proof.
  revert j i. induction s as [|c r IH]; intros j i H.
  - destruct j, i; reflexivity.
  - cbn in H. apply andb_prop in H as [Hc Hr].
    destruct j as [|j]; cbn [substring].
    + destruct i as [|i]; cbn; [reflexivity|]. rewrite Hc. now apply IH.
    + now apply IH.
Qed.

Lemma repeat0_length k : String.length (Str.repeat0 k) = k.
Proof. induction k; cbn; congruence. Qed.

Lemma repeat0_digits k : all_chars Str.is_digit (Str.repeat0 k) = true.
Proof. induction k; cbn; auto. Qed.

End StringFacts.

Section Digits.

Lemma digit_char_ok d :
  0 <= d <= 9 ->
  Str.is_digit (Str.digit_char d) = true /\ Str.digit_val (Str.digit_char d) = d.
Proof.
  intros H.
  assert (C : d = 0 \/ d = 1 \/ d = 2 \/ d = 3 \/ d = 4 \/ d = 5 \/ d = 6
              \/ d = 7 \/ d = 8 \/ d = 9) by lia.
  repeat (destruct C as [->|C]; [split; reflexivity|]).
  subst. split; reflexivity.
Qed.

Lemma digits_val_acc b acc s :
  Str.digits_val b acc s
  = acc * b ^ Str.len s + Str.digits_val b 0 s.
Proof.
  revert acc. induction s as [|c r IH]; intros acc.
  - cbn. lia.
  - cbn [Str.digits_val]. rewrite IH, (IH (b * 0 + Str.digit_val c)).
    unfold Str.len. cbn [String.length]. rewrite Nat2Z.inj_succ, Z.pow_succ_r by lia.
    ring.
Qed.

Lemma digits_val_append b s t :
  Str.digits_val b 0 (s ++ t)
  = Str.digits_val b 0 s * b ^ Str.len t + Str.digits_val b 0 t.
Proof.
  assert (G : forall acc, Str.digits_val b acc (s ++ t)
                          = Str.digits_val b (Str.digits_val b acc s) t).
  { induction s as [|c r IH]; intros acc; cbn; [reflexivity|apply IH]. }
  rewrite G. apply digits_val_acc.
Qed.

Lemma digits_val_repeat0 k : Str.digits_val 10 0 (Str.repeat0 k) = 0.
Proof. induction k; cbn; [reflexivity|exact IHk]. Qed.

Lemma digits_fuel_spec fuel n acc :
  0 <= n < 10 ^ Z.of_nat fuel ->
  all_chars Str.is_digit acc = true ->
  Str.digits_val 10 0 (Str.digits_fuel fuel n acc)
  = n * 10 ^ Str.len acc + Str.digits_val 10 0 acc
  /\ all_chars Str.is_digit (Str.digits_fuel fuel n acc) = true
  /\ (String.length acc <= String.length (Str.digits_fuel fuel n acc))%nat
  /\ (fuel <> O -> Str.digits_fuel fuel n acc <> "").
Proof.
  revert n acc. induction fuel as [|f IH]; intros n acc Hn Hacc.
  - change (10 ^ Z.of_nat 0) with 1 in Hn. assert (n = 0) by lia. subst.
    cbn [Str.digits_fuel]. repeat split; auto; try lia.
  - cbn [Str.digits_fuel].
    pose proof (Z.mod_pos_bound n 10 ltac:(lia)) as Hm.
    destruct (digit_char_ok (n mod 10) ltac:(lia)) as [D1 D2].
    set (acc' := String (Str.digit_char (n mod 10)) acc).
    assert (Hacc' : all_chars Str.is_digit acc' = true)
      by (cbn; now rewrite D1, Hacc).
    assert (Vacc' : Str.digits_val 10 0 acc'
                    = n mod 10 * 10 ^ Str.len acc + Str.digits_val 10 0 acc).
    { unfold acc'. cbn [Str.digits_val]. rewrite digits_val_acc, D2. ring. }
    destruct (Z.ltb_spec n 10) as [C|C].
    + rewrite Vacc', Z.mod_small by lia.
      repeat split; auto; [cbn; lia|discriminate].
    + rewrite Nat2Z.inj_succ, Z.pow_succ_r in Hn by lia.
      assert (Hq : 0 <= n / 10 < 10 ^ Z.of_nat f).
      { split; [apply Z.div_pos; lia|apply Z.div_lt_upper_bound; lia]. }
      destruct (IH (n / 10) acc' Hq Hacc') as (V & A & L & NE).
      split; [|split; [exact A|split]].
      * rewrite V, Vacc'. unfold Str.len, acc'. cbn [String.length].
        rewrite Nat2Z.inj_succ, Z.pow_succ_r by lia.
        pose proof (Z.div_mod n 10 ltac:(lia)). nia.
      * unfold acc' in *. cbn [String.length] in L. lia.
      * intros _ E. rewrite E in L. unfold acc' in L. cbn [String.length] in L. lia.
Qed.

Lemma digits_spec n :
  0 <= n ->
  Str.digits_val 10 0 (Str.digits n) = n
  /\ all_chars Str.is_digit (Str.digits n) = true
  /\ Str.digits n <> "".
Proof.
  intros Hn. unfold Str.digits.
  assert (B : 0 <= n < 10 ^ Z.of_nat (S (Z.to_nat (Z.log2 n)))).
  { split; [assumption|].
    rewrite Nat2Z.inj_succ, Z2Nat.id by apply Z.log2_nonneg.
    destruct (Z.eq_dec n 0) as [->|NZ]; [reflexivity|].
    destruct (Z.log2_spec n ltac:(lia)) as [_ U].
    apply Z.lt_le_trans with (2 ^ Z.succ (Z.log2 n)); [assumption|].
    apply Z.pow_le_mono_l. lia. }
  destruct (digits_fuel_spec _ n "" B eq_refl) as (V & A & _ & NE).
  change (Str.len "") with 0 in V. change (Str.digits_val 10 0 "") with 0 in V.
  rewrite Z.pow_0_r in V.
  split; [lia|]. split; [assumption|]. apply NE. discriminate.
Qed.

End Digits.

(** The text [toFixed] builds from the scaled integer. *)
Lemma fixed_spec n f :
  0 <= n -> f <> O ->
  exists ip fp,
    Conv.fixed n f = ip ++ String "." fp
    /\ all_chars Str.is_digit ip = true /\ ip <> ""
    /\ all_chars Str.is_digit fp = true /\ String.length fp = f
    /\ Str.digits_val 10 0 (ip ++ fp) = n.
Proof.
  intros Hn Hf. destruct (digits_spec n Hn) as (V & A & NE).
  unfold Conv.fixed. destruct f as [|f']; [contradiction|].
  set (f := S f') in *.
  set (m0 := Str.digits n) in *.
  set (m := if (String.length m0 <=? f)%nat
            then Str.repeat0 (f + 1 - String.length m0) ++ m0 else m0).
  assert (Hm : all_chars Str.is_digit m = true
               /\ Str.digits_val 10 0 m = n
               /\ (f + 1 <= String.length m)%nat).
  { unfold m. destruct (Nat.leb_spec (String.length m0) f) as [C|C].
    - rewrite all_chars_append, repeat0_digits, A, digits_val_append,
        digits_val_repeat0, length_append, repeat0_length.
      repeat split; [lia|lia].
    - repeat split; [assumption|assumption|lia]. }
  destruct Hm as (Am & Vm & Lm).
  set (k := String.length m) in *.
  exists (substring 0 (k - f) m), (substring (k - f) f m).
  pose proof (substring_split (k - f) m ltac:(lia)) as Sp.
  replace (String.length m - (k - f))%nat with f in Sp by (unfold k; lia).
  split; [reflexivity|].
  split; [now apply substring_all|].
  split.
  { intros E. pose proof (substring_length 0 (k - f) m ltac:(lia)) as L.
    rewrite E in L. cbn in L. lia. }
  split; [now apply substring_all|].
  split; [apply substring_length; lia|].
  rewrite Sp. exact Vm.
Qed.

Lemma fixed_0 n : Conv.fixed n 0 = Str.digits n.
Proof. reflexivity. Qed.

(** ** Reading a numeral *)

Section Trim.

Lemma rev_app_app s a b : Str.rev_app (Str.rev_app s a) b = Str.rev_app a (s ++ b).
Proof.
  revert a b. induction s as [|c r IH]; intros a b; cbn; [reflexivity|].
  rewrite IH. reflexivity.
Qed.

Lemma rev_involutive s : Str.rev (Str.rev s) = s.
Proof. unfold Str.rev. rewrite rev_app_app. cbn. apply append_nil_r. Qed.

Lemma all_chars_rev_app p s a :
  all_chars p (Str.rev_app s a) = all_chars p s && all_chars p a.
Proof.
  revert a. induction s as [|c r IH]; intros a; cbn; [reflexivity|].
  rewrite IH. cbn. destruct (p c), (all_chars p r); reflexivity.
Qed.

Lemma drop_while_none p s :
  all_chars (fun c => negb (p c)) s = true -> Str.drop_while p s = s.
Proof.
  destruct s as [|c r]; cbn; [reflexivity|].
  destruct (p c); [discriminate|reflexivity].
Qed.

(** A string without white space is its own trimming. *)
Lemma trim_id s :
  all_chars (fun c => negb (Str.is_space c)) s = true -> Str.trim s = s.
Proof.
  intros H. unfold Str.trim.
  rewrite (drop_while_none _ s H).
  rewrite drop_while_none; [apply rev_involutive|].
  unfold Str.rev. rewrite all_chars_rev_app, H. reflexivity.
Qed.

End Trim.

Lemma all_chars_impl (p q : ascii -> bool) s :
  (forall c, p c = true -> q c = true) ->
  all_chars p s = true -> all_chars q s = true.
Proof.
  intros I. induction s as [|c r IH]; cbn; [reflexivity|].
  intros H. apply andb_prop in H as [Hc Hr]. now rewrite (I c Hc), IH.
Qed.

(** What a digit is not. *)
Lemma digit_facts c :
  Str.is_digit c = true ->
  Str.is_space c = false
  /\ Ascii.eqb c "+" = false /\ Ascii.eqb c "-" = false
  /\ Ascii.eqb c "." = false /\ Ascii.eqb c "I" = false
  /\ Conv.radix_of c = 0
  /\ Ascii.eqb c "$" = false
  /\ Ascii.eqb c "e" = false /\ Ascii.eqb c "E" = false
  /\ Str.is_word c = true.
Proof.
  destruct c as [[] [] [] [] [] [] [] []]; cbv; intros H;
    try discriminate H; repeat split.
Qed.

Lemma span_all p s : all_chars p s = true -> Str.span p s = (s, "").
Proof.
  induction s as [|c r IH]; cbn; [reflexivity|].
  intros H. apply andb_prop in H as [Hc Hr]. now rewrite Hc, IH.
Qed.

Lemma span_append p s c r :
  all_chars p s = true -> p c = false ->
  Str.span p (s ++ String c r) = (s, String c r).
Proof.
  intros Hs Hc. induction s as [|d t IH]; cbn.
  - now rewrite Hc.
  - cbn in Hs. apply andb_prop in Hs as [Hd Ht]. now rewrite Hd, IH.
Qed.

Lemma nonspace_digits s :
  all_chars Str.is_digit s = true ->
  all_chars (fun c => negb (Str.is_space c)) s = true.
Proof.
  apply all_chars_impl. intros c H.
  destruct (digit_facts c H) as [-> _]. reflexivity.
Qed.

Section Number.

Variables (neg : bool) (ip fp : string).
Hypothesis Hip : all_chars Str.is_digit ip = true.
Hypothesis Nip : ip <> "".
Hypothesis Hfp : all_chars Str.is_digit fp = true.

Let sign : string := if neg then "-" else "".

Lemma decimal_literal_point :
  Conv.decimal_literal neg (ip ++ String "." fp)
  = Conv.of_sign_dec neg (Str.digits_val 10 0 (ip ++ fp)) (- Str.len fp).
Proof.
  unfold Conv.decimal_literal.
  rewrite (span_append _ ip "." fp Hip eq_refl).
  cbn [Ascii.eqb Bool.eqb]. rewrite (span_all _ fp Hfp).
  destruct ip; [contradiction|]. reflexivity.
Qed.

Lemma decimal_literal_int :
  Conv.decimal_literal neg ip
  = Conv.of_sign_dec neg (Str.digits_val 10 0 ip) 0.
Proof.
  unfold Conv.decimal_literal.
  rewrite (span_all _ ip Hip).
  destruct ip; [contradiction|]. cbn [Str.is_empty andb].
  now rewrite append_nil_r.
Qed.

(** The common prelude of [Number]: a numeral that starts with a digit
    after its optional minus sign is read as a decimal literal. *)
Lemma stringToNumber_numeral rest :
  all_chars (fun c => negb (Str.is_space c)) rest = true ->
  (match rest with
   | EmptyString => True
   | String p _ => Conv.radix_of p = 0
   end) ->
  Conv.stringToNumber (sign ++ ip ++ rest)
  = Conv.decimal_literal neg (ip ++ rest).
Proof.
  intros Hsp Hrad.
  unfold Conv.stringToNumber.
  rewrite trim_id.
  2:{ unfold sign. rewrite !all_chars_append.
      rewrite (nonspace_digits ip Hip), Hsp. destruct neg; reflexivity. }
  destruct ip as [|c r] eqn:Eip; [contradiction|].
  cbn [all_chars] in Hip. apply andb_prop in Hip as [Hc Hr].
  destruct (digit_facts c Hc) as (_ & Cp & Cm & Cd & CI & Cr & _).
  assert (R2 : match r ++ rest with
               | EmptyString => True
               | String p _ => Conv.radix_of p = 0
               end).
  { destruct r as [|p r']; [exact Hrad|].
    cbn [all_chars] in Hr. apply andb_prop in Hr as [Hp _].
    now destruct (digit_facts p Hp) as (_ & _ & _ & _ & _ & ? & _). }
  unfold sign. destruct neg.
  - cbn [append Str.is_empty].
    assert (ND : Conv.non_decimal (String "-" (String c (r ++ rest))) = None).
    { unfold Conv.non_decimal. destruct (r ++ rest); reflexivity. }
    rewrite ND. cbn [Conv.split_sign Ascii.eqb Bool.eqb].
    cbn [String.eqb]. rewrite CI. reflexivity.
  - cbn [append Str.is_empty].
    assert (ND : Conv.non_decimal (String c (r ++ rest)) = None).
    { unfold Conv.non_decimal. destruct (r ++ rest) as [|p [|c' t']]; try reflexivity.
      rewrite R2. cbn [Z.eqb negb]. now rewrite andb_false_r. }
    rewrite ND. cbn [Conv.split_sign]. rewrite Cp, Cm.
    cbn [String.eqb]. rewrite CI. reflexivity.
Qed.

(** [Number] of a decimal numeral with a point. *)
Lemma stringToNumber_point :
  Conv.stringToNumber (sign ++ ip ++ String "." fp)
  = Conv.of_sign_dec neg (Str.digits_val 10 0 (ip ++ fp)) (- Str.len fp).
Proof.
  rewrite stringToNumber_numeral.
  - apply decimal_literal_point.
  - cbn [all_chars]. now rewrite (nonspace_digits fp Hfp).
  - reflexivity.
Qed.

(** [Number] of an integer numeral. *)
Lemma stringToNumber_int :
  Conv.stringToNumber (sign ++ ip)
  = Conv.of_sign_dec neg (Str.digits_val 10 0 ip) 0.
Proof.
  rewrite <- (append_nil_r ip) at 1. rewrite stringToNumber_numeral.
  - rewrite append_nil_r. apply decimal_literal_int.
  - reflexivity.
  - exact I.
Qed.

End Number.

(** [Number(sign + fixed n f)] is the double nearest to [n / 10^f]. *)
Lemma stringToNumber_fixed (neg : bool) n f :
  0 <= n ->
  Conv.stringToNumber ((if neg then "-" else "") ++ Conv.fixed n f)
  = Conv.of_sign_dec neg n (- Z.of_nat f).
Proof.
  intros Hn. destruct f as [|f'].
  - rewrite fixed_0. destruct (digits_spec n Hn) as (V & A & NE).
    rewrite stringToNumber_int by assumption. now rewrite V.
  - destruct (fixed_spec n (S f') Hn ltac:(discriminate))
      as (ip & fp & -> & Aip & Nip & Afp & Lfp & V).
    rewrite stringToNumber_point by assumption.
    rewrite V. unfold Str.len. now rewrite Lfp.
Qed.

(** ** Relative error *)

Lemma normal_truthy x s q : normal x s q -> Num.truthy x = true.
Proof. intros (m & e & -> & _). reflexivity. Qed.

Lemma normal_leb_zero x s q : normal x s q -> Num.leb zero x = negb s.
Proof. intros (m & e & -> & _). destruct s; reflexivity. Qed.

(** The product and the quotient of normalised doubles, in range. *)
Section MulDiv.

Variables (x y : number) (sx sy : bool) (qx qy : Q).
Hypothesis Hx : normal x sx qx.
Hypothesis Hy : normal y sy qy.

Lemma mul_err :
  (q2 (-1022) <= qx * qy)%Q -> (qx * qy < q2 1023)%Q ->
  exists q,
    normal (Num.mul x y) (xorb sx sy) q
    /\ (Qabs (q - qx * qy) <= qx * qy * u53)%Q.
Proof.
  intros Lo Hi.
  destruct Hx as (mx & ex & Ex & Bx & Vx), Hy as (my & ey & Ey & By & Vy).
  set (a := Num.up (Zpos mx * Zpos my) (ex + ey)).
  set (b := Num.up 1 (- (ex + ey))).
  assert (Ha : 0 < a) by (apply up_pos; lia).
  assert (Hb : 0 < b) by (apply up_pos; lia).
  assert (E : (ratio a b == qx * qy)%Q).
  { unfold a, b. rewrite ratio_up by lia. rewrite <- Vx, <- Vy.
    unfold ratio. rewrite inject_Z_mult, q2_add.
    change (inject_Z 1) with 1%Q. field. }
  rewrite (mul_normal x y sx sy qx qy a b Hx Hy Ha Hb E).
  destruct (rnd_normal (xorb sx sy) a b Ha Hb) as (q & Hn & He).
  - now rewrite E.
  - now rewrite E.
  - exists q. split; [assumption|]. now rewrite <- E.
Qed.

Lemma div_err :
  (q2 (-1022) <= qx / qy)%Q -> (qx / qy < q2 1023)%Q ->
  exists q,
    normal (Num.div x y) (xorb sx sy) q
    /\ (Qabs (q - qx / qy) <= qx / qy * u53)%Q.
Proof.
  intros Lo Hi.
  destruct Hx as (mx & ex & Ex & Bx & Vx), Hy as (my & ey & Ey & By & Vy).
  set (a := Num.up (Zpos mx) (ex - ey)).
  set (b := Num.up (Zpos my) (- (ex - ey))).
  assert (Ha : 0 < a) by (apply up_pos; lia).
  assert (Hb : 0 < b) by (apply up_pos; lia).
  assert (E : (ratio a b == qx / qy)%Q).
  { unfold a, b. rewrite ratio_up by lia. rewrite <- Vx, <- Vy.
    unfold ratio, Z.sub. rewrite q2_add, q2_opp.
    pose proof (q2_pos ey). pose proof (inject_Z_pos (Zpos my) ltac:(lia)).
    field. split; lra. }
  rewrite (div_normal x y sx sy qx qy a b Hx Hy Ha Hb E).
  destruct (rnd_normal (xorb sx sy) a b Ha Hb) as (q & Hn & He).
  - now rewrite E.
  - now rewrite E.
  - exists q. split; [assumption|]. now rewrite <- E.
Qed.

End MulDiv.

(** Constants of the range conditions. *)
Lemma q2_m1022_small : (q2 (-1022) <= 1 # 10 ^ 40)%Q.
Proof.
  apply Qle_trans with (q2 (-133)); [apply q2_le; lia|].
  setoid_replace (q2 (-133)) with (/ q2 133)%Q by apply (q2_opp 133).
  rewrite <- (q2_Z 133) by lia. vm_compute. discriminate.
Qed.

Lemma q2_1023_large : (inject_Z (10 ^ 40) <= q2 1023)%Q.
Proof.
  apply Qle_trans with (q2 133); [|apply q2_le; lia].
  rewrite <- (q2_Z 133) by lia. vm_compute. discriminate.
Qed.

Lemma q2_52_large : (inject_Z (10 ^ 15) + 1 < q2 52)%Q.
Proof. rewrite <- (q2_Z 52) by lia. vm_compute. reflexivity. Qed.

(** The second half of [parse] on a scaled value within a quarter of the
    integer [n]: both roundings together give [n]. *)
Lemma four_places_round v s q n :
  normal v s q -> 0 < n <= 10 ^ 15 ->
  (Qabs (q - inject_Z n) <= 1 # 4)%Q ->
  exists w,
    four_places v = Normal w
    /\ round w = Num.of_Z (if s then - n else n).
Proof.
  intros Hv Hn Hq.
  apply Qabs_Qle_condition in Hq. destruct Hq as [Hq1 Hq2].
  assert (Hn1 : (1 <= inject_Z n)%Q)
    by (change 1%Q with (inject_Z 1); rewrite <- Zle_Qle; lia).
  assert (Hn2 : (inject_Z n <= inject_Z (10 ^ 15))%Q)
    by (rewrite <- Zle_Qle; lia).
  change (inject_Z (10 ^ 15)) with (1000000000000000 # 1)%Q in Hn2.
  set (t := (q * inject_Z (10 ^ Z.of_nat 4) + (1 # 2))%Q).
  set (N := Qfloor t).
  pose proof (Qfloor_le t) as F1. pose proof (Qlt_floor t) as F2.
  fold N in F1, F2. rewrite inject_Z_plus in F2.
  change (inject_Z 1) with 1%Q in F2. unfold t in F1, F2.
  change (inject_Z (10 ^ Z.of_nat 4)) with (10000 # 1)%Q in F1, F2.
  assert (HN : 7499 < N).
  { rewrite Zlt_Qlt. change (inject_Z 7499) with (7499 # 1)%Q. lra. }
  unfold four_places.
  rewrite (toFixed_normal v s q 4 N Hv).
  2: lia.
  2:{ change (inject_Z (10 ^ 21)) with (1000000000000000000000 # 1)%Q. lra. }
  2:{ change (inject_Z (10 ^ Z.of_nat 4)) with (10000 # 1)%Q. split; lra. }
  cbn [bind]. rewrite stringToNumber_fixed by lia.
  eexists. split; [reflexivity|].
  unfold Conv.of_sign_dec. destruct (Z.eqb_spec N 0) as [C|_]; [lia|].
  change (10 ^ Z.max 0 (- Z.of_nat 4)) with 1.
  change (10 ^ Z.max 0 (- - Z.of_nat 4)) with 10000.
  assert (Er : (ratio (N * 1) 10000 == inject_Z N * (1 # 10000))%Q).
  { unfold ratio. rewrite Z.mul_1_r. change (inject_Z 10000) with (10000 # 1)%Q.
    field. }
  destruct (rnd_normal s (N * 1) 10000) as (qw & Hw & Ew); try lia.
  { rewrite Er. apply Qle_trans with (1 # 10 ^ 40)%Q; [apply q2_m1022_small|].
    change (1 # 10 ^ 40)%Q with (1 # 10000000000000000000000000000000000000000)%Q.
    lra. }
  { rewrite Er. apply Qlt_le_trans with (inject_Z (10 ^ 40)); [|apply q2_1023_large].
    change (inject_Z (10 ^ 40)) with (10000000000000000000000000000000000000000 # 1)%Q.
    lra. }
  rewrite Er in Ew. apply Qabs_Qle_condition in Ew. destruct Ew as [Ew1 Ew2].
  unfold u53 in Ew1, Ew2. change (1 # 2 ^ 53)%Q with (1 # 9007199254740992)%Q in Ew1, Ew2.
  unfold round.
  rewrite (round_normal _ s qw (if s then - n else n) Hw).
  - unfold Num.of_Z_signed. destruct s.
    + destruct (Z.eqb_spec (- n) 0); [lia|reflexivity].
    + destruct (Z.eqb_spec n 0); [lia|reflexivity].
  - apply Qlt_trans with (inject_Z (10 ^ 15) + 1)%Q; [|apply q2_52_large].
    change (inject_Z (10 ^ 15)) with (1000000000000000 # 1)%Q. lra.
  - destruct s; [rewrite inject_Z_opp|]; split; lra.
Qed.

(** ** Amounts in hundredths *)

Lemma abs_scale (q r T c : Q) :
  (0 < T -> Qabs (q - r) <= r * c -> Qabs (q * T - r * T) <= r * T * c)%Q.
Proof.
  intros HT H. apply Qabs_Qle_condition in H. destruct H as [H1 H2].
  apply Qabs_Qle_condition. split; nra.
Qed.

Ltac norm_u :=
  unfold u53 in *;
  change (1 # 2 ^ 53)%Q with (1 # 9007199254740992)%Q in *.

Lemma mul_between (x lo hi k : Q) :
  (0 <= k -> lo <= x <= hi -> k * lo <= k * x <= k * hi)%Q.
Proof. intros Hk [L U]. split; nra. Qed.

(** An amount of [n] smallest units at [p] decimal places, [n] positive
    and at most [10^15], [p] at most 22: the numbers the class computes
    from it. *)
Section Amount.

Variables (p : nat) (n : Z) (s : bool).
Hypothesis Hp : (p <= 22)%nat.
Hypothesis Hn : 0 < n <= 10 ^ 15.

Let T : Z := 10 ^ Z.of_nat p.
Let i : number := Num.of_Z (if s then - n else n).
Let P : number := Num.pow10 p.
Let v : number := Num.rnd s n T.
Let inc : number := Num.div (Num.of_Z 1) P.

Let TQ : Q := inject_Z T.
Let nQ : Q := inject_Z n.

Lemma T_pos : 0 < T.
Proof. apply Z.pow_pos_nonneg; lia. Qed.

Lemma T_bounds : (1 <= TQ <= 10000000000000000000000 # 1)%Q.
Proof.
  unfold TQ. split.
  - change 1%Q with (inject_Z 1). rewrite <- Zle_Qle. pose proof T_pos. lia.
  - change (10000000000000000000000 # 1)%Q with (inject_Z (10 ^ 22)).
    rewrite <- Zle_Qle. apply Z.pow_le_mono_r; lia.
Qed.

Lemma n_bounds : (1 <= nQ <= 1000000000000000 # 1)%Q.
Proof.
  unfold nQ. split.
  - change 1%Q with (inject_Z 1). rewrite <- Zle_Qle. lia.
  - change (1000000000000000 # 1)%Q with (inject_Z (10 ^ 15)).
    rewrite <- Zle_Qle. lia.
Qed.

Lemma i_normal : normal i s nQ.
Proof.
  unfold i, nQ.
  assert (B : 10 ^ 15 < 2 ^ 53) by reflexivity.
  destruct s.
  - pose proof (of_Z_normal (- n) ltac:(lia)) as H.
    replace (- n <? 0) with true in H by (symmetry; apply Z.ltb_lt; lia).
    replace (Z.abs (- n)) with n in H by lia. exact H.
  - pose proof (of_Z_normal n ltac:(lia)) as H.
    replace (n <? 0) with false in H by (symmetry; apply Z.ltb_ge; lia).
    replace (Z.abs n) with n in H by lia. exact H.
Qed.

Lemma P_normal : normal P false TQ.
Proof. apply pow10_normal. assumption. Qed.

Lemma P_truthy : Num.truthy P = true.
Proof. exact (normal_truthy _ _ _ P_normal). Qed.

Lemma i_truthy : Num.truthy i = true.
Proof. exact (normal_truthy _ _ _ i_normal). Qed.

(** [intValue / precision] *)
Lemma div_i_P : Num.div i P = v.
Proof.
  unfold v. pattern s at 1. rewrite <- (xorb_false_r s).
  apply (div_normal _ _ _ _ _ _ n T i_normal P_normal); [lia|apply T_pos|].
  reflexivity.
Qed.

Lemma ratio_n_T_range :
  (q2 (-1022) <= ratio n T)%Q /\ (ratio n T < q2 1023)%Q
  /\ (ratio n T * TQ == nQ)%Q.
Proof.
  pose proof T_bounds as [T1 T2]. pose proof n_bounds as [N1 N2].
  assert (E : (ratio n T * TQ == nQ)%Q) by (unfold ratio, TQ, nQ; fold TQ; field; lra).
  assert (R1 : (1 # 10 ^ 40 <= ratio n T)%Q).
  { unfold ratio. fold TQ nQ. apply Qle_shift_div_l; [lra|].
    change (1 # 10 ^ 40)%Q with (1 # 10000000000000000000000000000000000000000)%Q.
    lra. }
  assert (R2 : (ratio n T <= nQ)%Q).
  { unfold ratio. fold TQ nQ. apply Qle_shift_div_r; [lra|]. nra. }
  split; [|split; [|exact E]].
  - apply Qle_trans with (1 # 10 ^ 40)%Q; [apply q2_m1022_small|exact R1].
  - apply Qlt_le_trans with (inject_Z (10 ^ 40)); [|apply q2_1023_large].
    change (inject_Z (10 ^ 40)) with (10000000000000000000000000000000000000000 # 1)%Q.
    lra.
Qed.

(** The value: a normalised double within a relative [2^-53] of [n / T]. *)
Lemma v_normal :
  exists q, normal v s q /\ (Qabs (q * TQ - nQ) <= nQ * u53)%Q.
Proof.
  destruct ratio_n_T_range as (R1 & R2 & E).
  destruct (rnd_normal s n T ltac:(lia) T_pos R1 R2) as (q & Hq & Eq).
  exists q. split; [exact Hq|].
  pose proof T_bounds as [T1 T2].
  apply (abs_scale _ _ TQ) in Eq; [|lra].
  now rewrite E in Eq.
Qed.

Lemma inc_normal :
  exists q, normal inc false q /\ (Qabs (q * TQ - 1) <= u53)%Q.
Proof.
  pose proof T_bounds as [T1 T2].
  assert (H1 : normal (Num.of_Z 1) false 1%Q) by (apply (of_Z_normal 1); lia).
  assert (E : (1 / TQ * TQ == 1)%Q) by (field; lra).
  assert (R1 : (1 # 10 ^ 40 <= 1 / TQ)%Q).
  { apply Qle_shift_div_l; [lra|].
    change (1 # 10 ^ 40)%Q with (1 # 10000000000000000000000000000000000000000)%Q.
    lra. }
  assert (R2 : (1 / TQ <= 1)%Q) by (apply Qle_shift_div_r; lra).
  destruct (div_err _ _ _ _ _ _ H1 P_normal) as (q & Hq & Eq).
  - apply Qle_trans with (1 # 10 ^ 40)%Q; [apply q2_m1022_small|exact R1].
  - apply Qlt_le_trans with (inject_Z (10 ^ 40)); [|apply q2_1023_large].
    change (inject_Z (10 ^ 40)) with (10000000000000000000000000000000000000000 # 1)%Q.
    lra.
  - exists q. split; [exact Hq|].
    apply (abs_scale _ _ TQ) in Eq; [|lra].
    rewrite E in Eq. now rewrite Qmult_1_l in Eq.
Qed.

Lemma inc_truthy : Num.truthy inc = true.
Proof. destruct inc_normal as (q & H & _). exact (normal_truthy _ _ _ H). Qed.

(** [round(value / increment)] is the scaled integer again. *)
Lemma round_div_inc : round (Num.div v inc) = i.
Proof.
  pose proof T_bounds as [T1 T2]. pose proof n_bounds as [N1 N2].
  destruct v_normal as (q1 & Hv & Ev). destruct inc_normal as (qi & Hi & Ei).
  apply Qabs_Qle_condition in Ev. destruct Ev as [Ev1 Ev2].
  apply Qabs_Qle_condition in Ei. destruct Ei as [Ei1 Ei2].
  norm_u.
  pose proof (normal_pos _ _ _ Hi) as Pqi.
  pose proof (normal_pos _ _ _ Hv) as Pq1.
  set (r := (q1 / qi)%Q).
  assert (Pr : (0 < r)%Q) by (apply Qlt_shift_div_l; lra).
  assert (Er : (r * (qi * TQ) == q1 * TQ)%Q) by (unfold r; field; lra).
  assert (B1 : (r * (1 - (1 # 9007199254740992)) <= r * (qi * TQ))%Q)
    by (apply Qmult_le_l; lra).
  assert (B2 : (r * (qi * TQ) <= r * (1 + (1 # 9007199254740992)))%Q)
    by (apply Qmult_le_l; lra).
  destruct (div_err _ _ _ _ _ _ Hv Hi) as (q & Hq & Eq); fold r.
  - apply Qle_trans with (1 # 10 ^ 40)%Q; [apply q2_m1022_small|].
    change (1 # 10 ^ 40)%Q with (1 # 10000000000000000000000000000000000000000)%Q.
    lra.
  - apply Qlt_le_trans with (inject_Z (10 ^ 40)); [|apply q2_1023_large].
    change (inject_Z (10 ^ 40)) with (10000000000000000000000000000000000000000 # 1)%Q.
    lra.
  - rewrite xorb_false_r in Hq. fold r in Eq.
    apply Qabs_Qle_condition in Eq. destruct Eq as [Eq1 Eq2]. norm_u.
    unfold round.
    rewrite (round_normal _ s q (if s then - n else n) Hq).
    + unfold i, Num.of_Z_signed. destruct s.
      * destruct (Z.eqb_spec (- n) 0); [lia|reflexivity].
      * destruct (Z.eqb_spec n 0); [lia|reflexivity].
    + apply Qlt_trans with (inject_Z (10 ^ 15) + 1)%Q; [|apply q2_52_large].
      change (inject_Z (10 ^ 15)) with (1000000000000000 # 1)%Q. lra.
    + fold nQ. destruct s; [rewrite inject_Z_opp|]; fold nQ; split; lra.
Qed.

(** [toString()] prints the digits of [n] with [p] decimals. *)
Lemma toFixed_rounding :
  Conv.toFixed (rounding (Num.div i P) inc) p
  = Normal ((if s then "-" else "") ++ Conv.fixed n p)%string.
Proof.
  pose proof T_bounds as [T1 T2]. pose proof n_bounds as [N1 N2].
  unfold rounding. rewrite div_i_P, round_div_inc.
  destruct inc_normal as (qi & Hi & Ei).
  apply Qabs_Qle_condition in Ei. destruct Ei as [Ei1 Ei2].
  norm_u.
  pose proof (normal_pos _ _ _ Hi) as Pqi.
  assert (Ux : (qi <= 2)%Q).
  { apply Qle_trans with (qi * TQ)%Q; [|lra].
    rewrite <- (Qmult_1_r qi) at 1. apply Qmult_le_l; lra. }
  assert (Bi : (1 - (1 # 9007199254740992) <= qi * TQ
                <= 1 + (1 # 9007199254740992))%Q) by (split; lra).
  pose proof (mul_between (qi * TQ) _ _ nQ ltac:(lra) Bi) as [X1 X2].
  assert (Y : (nQ * qi <= nQ * 2)%Q) by (apply Qmult_le_l; lra).
  assert (Z0 : (0 < nQ * qi)%Q) by (apply Qmult_lt_0_compat; lra).
  assert (Lo : (1 # 10 ^ 40 <= nQ * qi)%Q).
  { change (1 # 10 ^ 40)%Q with (1 # 10000000000000000000000000000000000000000)%Q.
    apply Qle_trans with (1 * qi)%Q; [|apply Qmult_le_compat_r; lra].
    rewrite Qmult_1_l.
    apply Qle_trans with ((1 # 2) / TQ)%Q.
    - apply Qle_shift_div_l; lra.
    - apply Qle_shift_div_r; lra. }
  destruct (mul_err _ _ _ _ _ _ i_normal Hi) as (q & Hq & Eq); fold nQ.
  - apply Qle_trans with (1 # 10 ^ 40)%Q; [apply q2_m1022_small|exact Lo].
  - apply Qlt_le_trans with (inject_Z (10 ^ 40)); [|apply q2_1023_large].
    change (inject_Z (10 ^ 40)) with (10000000000000000000000000000000000000000 # 1)%Q.
    lra.
  - rewrite xorb_false_r in Hq. fold nQ in Eq.
    apply (abs_scale _ _ TQ) in Eq; [|lra].
    apply Qabs_Qle_condition in Eq. destruct Eq as [Eq1 Eq2]. norm_u.
    assert (Ea : (nQ * qi * TQ == nQ * (qi * TQ))%Q) by ring.
    rewrite Ea in Eq1, Eq2.
    apply (toFixed_normal _ s q p n Hq); [lia| |].
    + change (inject_Z (10 ^ 21)) with (1000000000000000000000 # 1)%Q.
      apply Qle_lt_trans with (q * TQ)%Q; [|lra].
      rewrite <- (Qmult_1_r q) at 1. apply Qmult_le_l; [|lra].
      exact (normal_pos _ _ _ Hq).
    + fold T TQ nQ. split; lra.
Qed.

(** Parsing the printed value back: the literal is the value itself, and
    scaling and rounding it give the scaled integer. *)
Lemma literal_is_value : Conv.of_sign_dec s n (- Z.of_nat p) = v.
Proof.
  unfold Conv.of_sign_dec, v. destruct (Z.eqb_spec n 0) as [C|_]; [lia|].
  rewrite Z.opp_involutive.
  rewrite (Z.max_l 0 (- Z.of_nat p)), (Z.max_r 0 (Z.of_nat p)) by lia.
  fold T. f_equal. apply Z.mul_1_r.
Qed.

Lemma parse_value_back :
  exists w, four_places (Num.mul v P) = Normal w /\ round w = i
            /\ Num.truthy (Num.mul v P) = true.
Proof.
  pose proof T_bounds as [T1 T2]. pose proof n_bounds as [N1 N2].
  destruct v_normal as (q1 & Hv & Ev).
  apply Qabs_Qle_condition in Ev. destruct Ev as [Ev1 Ev2].
  norm_u.
  destruct (mul_err _ _ _ _ _ _ Hv P_normal) as (q & Hq & Eq).
  - apply Qle_trans with (1 # 10 ^ 40)%Q; [apply q2_m1022_small|].
    change (1 # 10 ^ 40)%Q with (1 # 10000000000000000000000000000000000000000)%Q.
    lra.
  - apply Qlt_le_trans with (inject_Z (10 ^ 40)); [|apply q2_1023_large].
    change (inject_Z (10 ^ 40)) with (10000000000000000000000000000000000000000 # 1)%Q.
    lra.
  - rewrite xorb_false_r in Hq.
    apply Qabs_Qle_condition in Eq. destruct Eq as [Eq1 Eq2]. norm_u.
    norm_u.
    destruct (four_places_round _ s q n Hq Hn) as (w & Hw & Rw).
    + fold nQ. apply Qabs_Qle_condition. split; lra.
    + exists w. split; [exact Hw|]. split; [exact Rw|].
      exact (normal_truthy _ _ _ Hq).
Qed.

End Amount.

(** ** Patterns and replacement *)

Section Substitution.

Variables matched before after : string.

Lemma nth_cap_nil i : Str.nth_cap [] i = None.
Proof. destruct i; reflexivity. Qed.

Lemma subst_literal t :
  literal_dollars t = true ->
  Str.get_substitution matched before after [] t = t.
Proof.
  induction t as [|c r IH]; [reflexivity|].
  cbn [literal_dollars]. intros H. apply andb_prop in H as [H1 H2].
  specialize (IH H2).
  cbn [Str.get_substitution].
  destruct (Ascii.eqb c "$") eqn:Ec; cbn [negb].
  - destruct r as [|d r1]; [apply Ascii.eqb_eq in Ec; now subst|].
    cbn [negb orb] in H1.
    destruct (Ascii.eqb d "$") eqn:E1; [discriminate|].
    destruct (Ascii.eqb d "`") eqn:E2; [discriminate|].
    destruct (Ascii.eqb d "&") eqn:E3; [discriminate|].
    destruct (Ascii.eqb d "'") eqn:E4; [discriminate|].
    apply Ascii.eqb_eq in Ec. subst c.
    (* the tail was expanded too *)
    cbn [Str.get_substitution] in IH. rewrite E1 in IH. cbn [negb] in IH.
    injection IH as IH.
    rewrite !nth_cap_nil. destruct (Str.is_digit d); now rewrite IH.
  - now rewrite IH.
Qed.

Lemma subst_no_dollar caps t :
  all_chars (not_char "$") t = true ->
  Str.get_substitution matched before after caps t = t.
Proof.
  induction t as [|c r IH]; [reflexivity|].
  cbn [all_chars]. intros H. apply andb_prop in H as [H1 H2].
  cbn [Str.get_substitution]. unfold not_char in H1. rewrite H1.
  now rewrite IH.
Qed.

Lemma nth_cap_two (c1 c2 : string) k :
  (k = 0 \/ 3 <= k)%nat -> Str.nth_cap [c1; c2] k = None.
Proof.
  intros [->|H]; [reflexivity|].
  destruct k as [|[|[|k]]]; try lia. reflexivity.
Qed.

(** The template of the grouping replacement, ['$1' + separator]. *)
Lemma subst_group c1 c2 sep :
  all_chars (not_char "$") sep = true ->
  Str.get_substitution matched before after [c1; c2] ("$1" ++ sep)
  = c1 ++ sep.
Proof.
  intros H. cbn [append Str.get_substitution Ascii.eqb Bool.eqb negb].
  change (Str.is_digit "1") with true. cbv iota.
  change (Z.to_nat (Str.digit_val "1")) with 1%nat.
  assert (E : Str.nth_cap [c1; c2]
                match sep with
                | EmptyString => 0%nat
                | String d2 _ =>
                    if Str.is_digit d2
                    then Z.to_nat (10 * Str.digit_val "1" + Str.digit_val d2)
                    else 0%nat
                end = None).
  { apply nth_cap_two. destruct sep as [|d2 r]; [now left|].
    destruct (Str.is_digit d2) eqn:D; [right|now left].
    change (Str.digit_val "1") with 1.
    unfold Str.is_digit in D. apply andb_prop in D as [D1 D2].
    unfold Str.digit_val. lia. }
  rewrite E. cbn [Str.nth_cap]. now rewrite subst_no_dollar.
Qed.

End Substitution.

Section Grouping.

Variables (g : RegExp) (sep : string).
Hypothesis Hsep : all_chars (not_char "$") sep = true.

Lemma filter_append keep s t :
  Str.filter keep (s ++ t) = Str.filter keep s ++ Str.filter keep t.
Proof.
  induction s as [|c r IH]; cbn; [reflexivity|].
  destruct (keep c); cbn; now rewrite IH.
Qed.

Lemma filter_none keep s :
  all_chars (fun c => negb (keep c)) s = true -> Str.filter keep s = "".
Proof.
  induction s as [|c r IH]; cbn; [reflexivity|].
  intros H. apply andb_prop in H as [H1 H2].
  destruct (keep c); [discriminate|]. now apply IH.
Qed.

Lemma filter_all keep s :
  all_chars keep s = true -> Str.filter keep s = s.
Proof.
  induction s as [|c r IH]; cbn; [reflexivity|].
  intros H. apply andb_prop in H as [H1 H2]. rewrite H1. now rewrite IH.
Qed.

(** At each character the replacement leaves the character, followed by
    the separator or not. *)
Lemma group_here c before r :
  (if Str.is_digit c then
     match Group.lookahead g r with
     | Some g2 =>
         Str.get_substitution (String c "") before r [String c ""; g2]
           ("$1" ++ sep)
     | None => String c ""
     end
   else String c "")
  = String c "" \/
  (if Str.is_digit c then
     match Group.lookahead g r with
     | Some g2 =>
         Str.get_substitution (String c "") before r [String c ""; g2]
           ("$1" ++ sep)
     | None => String c ""
     end
   else String c "")
  = String c sep.
Proof.
  destruct (Str.is_digit c); [|now left].
  destruct (Group.lookahead g r); [|now left].
  right. now rewrite subst_group.
Qed.

(** Grouping adds separators only: what a filter that drops the
    separator keeps is unchanged. *)
Lemma group_filter keep before s :
  all_chars (fun c => negb (keep c)) sep = true ->
  Str.filter keep (Group.replace_from g ("$1" ++ sep) before s)
  = Str.filter keep s.
Proof.
  intros Hk. revert before. induction s as [|c r IH]; intros before.
  - reflexivity.
  - cbn [Group.replace_from]. rewrite filter_append, IH.
    destruct (group_here c before r) as [-> | ->].
    + cbn [Str.filter]. destruct (keep c); reflexivity.
    + cbn [Str.filter]. rewrite (filter_none keep sep Hk).
      destruct (keep c); reflexivity.
Qed.

Lemma group_chars q before s :
  all_chars q sep = true -> all_chars q s = true ->
  all_chars q (Group.replace_from g ("$1" ++ sep) before s) = true.
Proof.
  intros Hq. revert before. induction s as [|c r IH]; intros before Hs.
  - reflexivity.
  - cbn [all_chars] in Hs. apply andb_prop in Hs as [Hc Hr].
    cbn [Group.replace_from]. rewrite all_chars_append, (IH _ Hr).
    destruct (group_here c before r) as [-> | ->]; cbn [all_chars];
      rewrite Hc; [reflexivity|now rewrite Hq].
Qed.

End Grouping.

Lemma replace_first_skip c t before pre post :
  all_chars (not_char c) pre = true ->
  Str.replace_first c t before (pre ++ String c post)
  = pre ++ Str.get_substitution (String c "") (before ++ pre) post [] t ++ post.
Proof.
  revert before. induction pre as [|x r IH]; intros before H.
  - cbn [append Str.replace_first]. rewrite Ascii.eqb_refl.
    now rewrite append_nil_r.
  - cbn [all_chars] in H. apply andb_prop in H as [H1 H2].
    cbn [append Str.replace_first]. unfold not_char in H1.
    destruct (Ascii.eqb x c); [discriminate|].
    rewrite (IH _ H2). now rewrite append_assoc.
Qed.

Lemma replace_parens_none s :
  all_chars (not_char "(") s = true -> Str.replace_parens s = s.
Proof.
  induction s as [|c r IH]; [reflexivity|].
  cbn [all_chars]. intros H. apply andb_prop in H as [H1 H2].
  cbn [Str.replace_parens]. unfold not_char in H1.
  destruct (Ascii.eqb c "("); [discriminate|]. now rewrite IH.
Qed.

Lemma split_on_none c s :
  all_chars (not_char c) s = true -> Str.split_on c s = [s].
Proof.
  induction s as [|x r IH]; [reflexivity|].
  cbn [all_chars]. intros H. apply andb_prop in H as [H1 H2].
  cbn [Str.split_on]. unfold not_char in H1.
  destruct (Ascii.eqb x c); [discriminate|]. now rewrite IH.
Qed.

Lemma split_on_one c s t :
  all_chars (not_char c) s = true -> all_chars (not_char c) t = true ->
  Str.split_on c (s ++ String c t) = [s; t].
Proof.
  intros Hs Ht. induction s as [|x r IH].
  - cbn [append Str.split_on]. rewrite Ascii.eqb_refl. now rewrite split_on_none.
  - cbn [all_chars] in Hs. apply andb_prop in Hs as [H1 H2].
    cbn [append Str.split_on]. unfold not_char in H1.
    destruct (Ascii.eqb x c); [discriminate|]. now rewrite IH.
Qed.

Lemma map_id f s :
  all_chars (fun c => Ascii.eqb (f c) c) s = true -> Str.map f s = s.
Proof.
  induction s as [|c r IH]; [reflexivity|].
  cbn [all_chars]. intros H. apply andb_prop in H as [H1 H2].
  cbn [Str.map]. apply Ascii.eqb_eq in H1. now rewrite H1, IH.
Qed.

Lemma map_append f s t : Str.map f (s ++ t) = Str.map f s ++ Str.map f t.
Proof. induction s as [|c r IH]; cbn; [reflexivity|now rewrite IH]. Qed.

(** ** Formatted text *)

Lemma no_dollar_literal t :
  all_chars (not_char "$") t = true -> literal_dollars t = true.
Proof.
  induction t as [|c r IH]; [reflexivity|].
  cbn [all_chars literal_dollars]. intros H. apply andb_prop in H as [H1 H2].
  unfold not_char in H1. rewrite H1, (IH H2). reflexivity.
Qed.

Section FormatText.

Variables (d : ascii) (t sep : string) (g : RegExp) (s : bool) (n : Z) (p : nat).
Hypothesis Hd : plain_decimal d = true.
Hypothesis Ht : symbol_ok d t = true.
Hypothesis Hsep : separator_ok d sep = true.
Hypothesis Hn : 0 <= n.

Let sign : string := if s then "-" else "".
Let text : string := sign ++ Conv.fixed n p.

Lemma decimal_not_backslash : (Str.code d =? 92) = false.
Proof.
  unfold plain_decimal in Hd. apply negb_true_iff in Hd.
  repeat (apply orb_false_iff in Hd; destruct Hd as [Hd ?]).
  assumption.
Qed.

Lemma decimal_facts :
  Str.is_digit d = false /\ Ascii.eqb d "-" = false
  /\ Ascii.eqb d "$" = false /\ Ascii.eqb d "(" = false.
Proof.
  unfold plain_decimal in Hd. apply negb_true_iff in Hd.
  repeat (apply orb_false_iff in Hd; destruct Hd as [Hd ?]).
  unfold Str.is_word in Hd.
  repeat (apply orb_false_iff in Hd; destruct Hd as [Hd ?]).
  auto.
Qed.

Lemma digit_props c :
  Str.is_digit c = true ->
  kept d c = true /\ to_point d c = c
  /\ not_char "$" c = true /\ not_char "(" c = true
  /\ not_char "." c = true /\ not_char "#" c = true.
Proof.
  intros H. destruct decimal_facts as (D1 & _).
  assert (Ascii.eqb c d = false).
  { apply Ascii.eqb_neq. intros ->. congruence. }
  unfold kept, to_point, not_char. rewrite H, H0.
  destruct c as [[] [] [] [] [] [] [] []]; try discriminate H;
    repeat split; cbn; try reflexivity; now rewrite orb_true_r.
Qed.

Lemma digits_props u :
  all_chars Str.is_digit u = true ->
  Str.filter (kept d) u = u /\ Str.map (to_point d) u = u
  /\ all_chars (not_char "$") u = true /\ all_chars (not_char "(") u = true
  /\ all_chars (not_char ".") u = true.
Proof.
  intros H. repeat split.
  - apply filter_all. revert H. apply all_chars_impl. intros c Hc.
    now destruct (digit_props c Hc).
  - apply map_id. revert H. apply all_chars_impl. intros c Hc.
    destruct (digit_props c Hc) as (_ & -> & _). apply Ascii.eqb_refl.
  - revert H. apply all_chars_impl. intros c Hc. now destruct (digit_props c Hc) as (_ & _ & ? & _).
  - revert H. apply all_chars_impl. intros c Hc.
    now destruct (digit_props c Hc) as (_ & _ & _ & ? & _).
  - revert H. apply all_chars_impl. intros c Hc.
    now destruct (digit_props c Hc) as (_ & _ & _ & _ & ? & _).
Qed.

Lemma inert_split c :
  inert d c = true ->
  kept d c = false /\ Ascii.eqb c "(" = false /\ Ascii.eqb c "#" = false.
Proof.
  unfold inert. intros H. apply negb_true_iff in H.
  apply orb_false_iff in H as [H H3]. apply orb_false_iff in H as [H1 H2].
  auto.
Qed.

Lemma inert_props u :
  all_chars (inert d) u = true ->
  Str.filter (kept d) u = ""
  /\ all_chars (not_char "(") u = true /\ all_chars (not_char "#") u = true.
Proof.
  intros H. repeat split.
  - apply filter_none. revert H. apply all_chars_impl. intros c Hc.
    destruct (inert_split c Hc) as (K1 & K2 & K3). now rewrite K1.
  - revert H. apply all_chars_impl. intros c Hc.
    destruct (inert_split c Hc) as (K1 & K2 & K3).
    unfold not_char. now rewrite K2.
  - revert H. apply all_chars_impl. intros c Hc.
    destruct (inert_split c Hc) as (K1 & K2 & K3).
    unfold not_char. now rewrite K3.
Qed.

(** The string [format] builds from the text of [toString], and what
    [parse] makes of it before [Number] reads it. *)
Lemma formatted_text_parses :
  let values := Str.split_on "." (Str.strip_minus text) in
  let number :=
    Group.replace g ("$1" ++ sep) (nth 0 values "") ++
    match nth_error values 1 with
    | Some c => if Str.is_empty c then "" else String d c
    | None => ""
    end in
  Str.map (to_point d)
    (Str.filter (kept d)
       (Str.replace_parens
          (Str.replace_char "#" number
             (Str.replace_char "!" t (if s then "-!#" else "!#")))))
  = text.
Proof.
  destruct decimal_facts as (D1 & D2 & D3 & D4).
  unfold symbol_ok in Ht. apply andb_prop in Ht as [Ht1 Ht2].
  unfold separator_ok in Hsep. apply andb_prop in Hsep as [Hs1 Hs2].
  destruct (inert_props t Ht2) as (Ft & Pt & Ht3).
  destruct (inert_props sep Hs2) as (Fs & Ps & _).
  assert (Hs2' : all_chars (fun c => negb (kept d c)) sep = true).
  { revert Hs2. apply all_chars_impl. intros c Hc.
    destruct (inert_split c Hc) as (K1 & K2 & K3). now rewrite K1. }
  (* the pattern with the symbol in place *)
  assert (E1 : Str.replace_char "!" t (if s then "-!#" else "!#")
               = (sign ++ t) ++ "#").
  { unfold Str.replace_char, sign. destruct s.
    - change "-!#" with ("-" ++ String "!" "#").
      rewrite (replace_first_skip "!" t "" "-" "#" eq_refl).
      rewrite subst_literal by assumption. reflexivity.
    - change "!#" with ("" ++ String "!" "#").
      rewrite (replace_first_skip "!" t "" "" "#" eq_refl).
      rewrite subst_literal by assumption. cbn [append].
      reflexivity. }
  assert (Hpre : all_chars (not_char "#") (sign ++ t) = true).
  { rewrite all_chars_append, Ht3. unfold sign. destruct s; reflexivity. }
  (* the two parts of the text *)
  assert (Hparts :
    exists ip tail tail',
      Conv.fixed n p = ip ++ tail
      /\ all_chars Str.is_digit ip = true /\ ip <> ""
      /\ Str.split_on "." (Conv.fixed n p)
         = ip :: match tail with EmptyString => [] | _ => [tail'] end
      /\ match tail with
         | EmptyString => True
         | _ => tail = String "." tail' /\ tail' <> ""
                /\ all_chars Str.is_digit tail' = true
         end).
  { destruct p as [|p'].
    - destruct (digits_spec n Hn) as (_ & A & NE).
      exists (Str.digits n), "", "". rewrite fixed_0, append_nil_r.
      repeat split; try assumption.
      apply split_on_none. now destruct (digits_props _ A) as (_ & _ & _ & _ & ?).
    - destruct (fixed_spec n (S p') Hn ltac:(discriminate))
        as (ip & fp & E & Aip & Nip & Afp & Lfp & _).
      exists ip, (String "." fp), fp. rewrite E.
      repeat split; try assumption.
      + apply split_on_one.
        * now destruct (digits_props _ Aip) as (_ & _ & _ & _ & ?).
        * now destruct (digits_props _ Afp) as (_ & _ & _ & _ & ?).
      + intros ->. discriminate Lfp. }
  destruct Hparts as (ip & tail & tail' & Efix & Aip & Nip & Esplit & Htail).
  assert (Estrip : Str.strip_minus text = Conv.fixed n p).
  { unfold text, sign. destruct s; [reflexivity|].
    cbn [append]. rewrite Efix. destruct ip as [|c r]; [contradiction|].
    cbn [append Str.strip_minus]. cbn [all_chars] in Aip.
    apply andb_prop in Aip as [Hc _].
    now destruct (digit_facts c Hc) as (_ & _ & -> & _). }
  cbv zeta. rewrite Estrip, Esplit. cbn [nth nth_error].
  destruct (digits_props ip Aip) as (Fip & Mip & Dip & Pip & _).
  set (G := Group.replace g ("$1" ++ sep) ip).
  assert (FG : Str.filter (kept d) G = ip).
  { unfold G, Group.replace. rewrite group_filter by assumption. exact Fip. }
  assert (DG : all_chars (not_char "$") G = true)
    by (apply group_chars; assumption).
  assert (PG : all_chars (not_char "(") G = true)
    by (apply group_chars; assumption).
  set (cents := match match tail with
                      | EmptyString => []
                      | String _ _ => [tail']
                      end with
                | [] => None
                | x :: _ => Some x
                end).
  set (ctext := match cents with
                | Some c => if Str.is_empty c then "" else String d c
                | None => ""
                end).
  assert (Hc : all_chars (not_char "$") ctext = true
               /\ all_chars (not_char "(") ctext = true
               /\ Str.map (to_point d) (Str.filter (kept d) ctext) = tail).
  { unfold ctext, cents. destruct tail as [|c0 r0]; [repeat split|].
    destruct Htail as (Et & Nt & At). injection Et as -> ->.
    destruct tail' as [|c1 r1]; [contradiction|]. cbn [Str.is_empty].
    destruct (digits_props _ At) as (Ff & Mf & Df & Pf & _).
    split; [|split].
    - cbn [all_chars] in Df |- *. unfold not_char at 1. now rewrite D3, Df.
    - cbn [all_chars] in Pf |- *. unfold not_char at 1. now rewrite D4, Pf.
    - change (Str.filter (kept d) (String d (String c1 r1)))
        with (if kept d d
              then String d (Str.filter (kept d) (String c1 r1))
              else Str.filter (kept d) (String c1 r1)).
      unfold kept at 1. rewrite Ascii.eqb_refl, orb_true_r, Ff.
      cbn [Str.map] in Mf |- *. unfold to_point at 1.
      now rewrite Ascii.eqb_refl, Mf. }
  destruct Hc as (Dc & Pc & Mc).
  rewrite E1. unfold Str.replace_char.
  rewrite (replace_first_skip "#" (G ++ ctext) "" (sign ++ t) "" Hpre).
  rewrite subst_literal.
  2:{ apply no_dollar_literal. now rewrite all_chars_append, DG, Dc. }
  rewrite append_nil_r.
  rewrite replace_parens_none.
  2:{ rewrite !all_chars_append, Pt, PG, Pc. unfold sign. destruct s; reflexivity. }
  rewrite !filter_append, Ft, FG, !map_append, Mip, Mc.
  unfold text. rewrite Efix. unfold sign.
  destruct s; cbn [Str.filter Str.map append].
  - change (kept d "-") with true. cbn [Str.map append]. unfold to_point.
    rewrite Ascii.eqb_sym, D2. reflexivity.
  - reflexivity.
Qed.

End FormatText.

(** ** Guards and errors *)

Lemma toFixed_4_normal (v : number) :
  exists s, Conv.toFixed v 4 = Normal s.
Proof. unfold Conv.toFixed. change (100 <? 4)%nat with false. eauto. Qed.

(** A number is always parsed, whatever the settings. *)
Lemma four_places_normal (v : number) :
  exists w, four_places v = Normal w.
Proof.
  unfold four_places. destruct (toFixed_4_normal v) as [s ->].
  cbn [bind]. eauto.
Qed.

(** A number is always parsed, whatever the settings. *)
Lemma parse_number_normal (n : number) (opts : defaultsTypes) (r : bool) :
  exists v, parse (INumber n) opts r = Normal v.
Proof.
  unfold parse, scaled. cbn [bind].
  destruct (four_places_normal (Num.mul n (pow (precision opts)))) as [w ->].
  cbn [bind]. eauto.
Qed.

Lemma new_Currency_number_normal (n : number) (opts : option Partial) :
  exists c, new_Currency (INumber n) opts = Normal c.
Proof.
  unfold new_Currency.
  destruct (parse_number_normal n (assign defaults opts) true) as [v ->].
  cbn [bind]. eauto.
Qed.

Lemma parse_post_normal (v : number) (r : bool) :
  exists n,
    (w <- four_places v ;; Normal (if r then round w else w)) = Normal n.
Proof. destruct (four_places_normal v) as [w ->]. cbn [bind]. eauto. Qed.

(** A [Currency] and a number are always parsed, and so is a string
    unless [decimal] is a backslash. *)
Lemma parse_recognised_normal (val : input) (opts : defaultsTypes) (r : bool) :
  val <> IOther ->
  ((exists s, val = IString s) -> Str.code (decimal opts) <> 92) ->
  exists n, parse val opts r = Normal n.
Proof.
  intros H D. unfold parse, scaled.
  destruct val as [c|n|s|]; cbn [bind]; try apply parse_post_normal.
  - apply Z.eqb_neq in D; [|eauto]. rewrite D. cbn [bind].
    apply parse_post_normal.
  - contradiction.
Qed.

Lemma parse_string_backslash (s : string) (opts : defaultsTypes) (r : bool) :
  Str.code (decimal opts) = 92 ->
  parse (IString s) opts r = Throw SyntaxError.
Proof.
  intros D. apply Z.eqb_eq in D. unfold parse, scaled. rewrite D. reflexivity.
Qed.

Lemma parse_other_lenient (opts : defaultsTypes) (r : bool) :
  errorOnInvalid opts = false -> parse IOther opts r = Normal zero.
Proof.
  intros E. unfold parse, scaled. rewrite E. cbn [bind].
  destruct r; vm_compute; reflexivity.
Qed.

Lemma parse_other_strict (opts : defaultsTypes) (r : bool) :
  errorOnInvalid opts = true -> parse IOther opts r = Throw InvalidInput.
Proof. intros E. unfold parse, scaled. rewrite E. reflexivity. Qed.

(** C5. When the scaled integer of the receiver is falsy (zero, NaN or
    unset), [multiply], [divide] and [distribute] return [undefined] and
    do no arithmetic. *)
Theorem falsy_receiver_no_result
    (this : Currency) (multiplier : number) (divisor : input) (count : nat) :
  truthy (intValue this) = false ->
  multiply this multiplier = Normal None
  /\ divide this divisor = Normal None
  /\ distribute this count = Normal None.
Proof.
  unfold truthy, multiply, divide, distribute.
  destruct (intValue this) as [i|]; intros H.
  - rewrite H. cbn [andb].
    destruct (_settings this), (_precision this); auto.
  - auto.
Qed.

Example new_Currency_0 :
  new_Currency (INumber (Num.of_Z 0)) None = Normal zero_value.
Proof. vm_compute. reflexivity. Qed.

(** [new Currency(0)] has a falsy scaled integer. *)
Lemma falsy_receiver_no_result_witness :
  truthy (intValue zero_value) = false
  /\ multiply zero_value (Num.of_Z 3) = Normal None
  /\ divide zero_value (INumber (Num.of_Z 3)) = Normal None
  /\ distribute zero_value 3 = Normal None.
Proof.
  split; [reflexivity|].
  apply (falsy_receiver_no_result zero_value); reflexivity.
Defined.

(** C8, as stated, fails: with [{decimal: '\\'}], a backslash, parsing
    the string [1.00] throws although the input is a string. *)
Lemma parse_string_can_throw :
  ~ (forall val opts r e,
       parse val opts r = Throw e ->
       val = IOther /\ errorOnInvalid opts = true).
Proof.
  intros H.
  destruct (H (IString "1.00")
              (assign defaults (Some (only_decimal (ascii_of_nat 92))))
              true SyntaxError ltac:(vm_compute; reflexivity)) as [H0 _].
  discriminate H0.
Qed.

(** C8, amended. [parse] throws the Invalid Input error exactly when the
    input is neither a number, a string nor a [Currency] and
    [errorOnInvalid] is set; with [errorOnInvalid] unset such an input
    parses to 0; a [Currency] and a number are always parsed, and so is a
    string when the decimal setting is a character other than a
    backslash. *)
Theorem parse_throws_iff (val : input) (opts : defaultsTypes) (r : bool) :
  (parse val opts r = Throw InvalidInput
   <-> val = IOther /\ errorOnInvalid opts = true)
  /\ (errorOnInvalid opts = false -> parse IOther opts r = Normal zero)
  /\ (forall c, exists n, parse (ICurrency c) opts r = Normal n)
  /\ (forall x, exists n, parse (INumber x) opts r = Normal n)
  /\ (forall s, Str.code (decimal opts) <> 92 ->
        exists n, parse (IString s) opts r = Normal n).
Proof.
  split; [|split; [apply parse_other_lenient|]].
  - destruct val as [c|n|s|].
    + destruct (parse_recognised_normal (ICurrency c) opts r) as [n' ->];
        [discriminate|intros [s' Hs]; discriminate Hs|].
      split; [discriminate|intros [H _]; discriminate H].
    + destruct (parse_recognised_normal (INumber n) opts r) as [n' ->];
        [discriminate|intros [s' Hs]; discriminate Hs|].
      split; [discriminate|intros [H _]; discriminate H].
    + destruct (Z.eq_dec (Str.code (decimal opts)) 92) as [D|D].
      * rewrite (parse_string_backslash s opts r D).
        split; [discriminate|intros [H _]; discriminate H].
      * destruct (parse_recognised_normal (IString s) opts r) as [n' ->];
          [discriminate|intros _; exact D|].
        split; [discriminate|intros [H _]; discriminate H].
    + destruct (errorOnInvalid opts) eqn:E.
      * rewrite (parse_other_strict opts r E). split; auto.
      * rewrite (parse_other_lenient opts r E).
        split; [discriminate|intros [_ H]; discriminate H].
  - repeat split; intros.
    + apply parse_recognised_normal;
        [discriminate|intros [s' Hs]; discriminate Hs].
    + apply parse_recognised_normal;
        [discriminate|intros [s' Hs]; discriminate Hs].
    + apply parse_recognised_normal; [discriminate|intros _; assumption].
Qed.

(** ** Well-formed numbers *)

Lemma pack_wf s m e : m <= 2 ^ 53 -> wf (Num.pack s m e).
Proof.
  intros H. unfold Num.pack, prec.
  destruct (m =? 0); [exact I|].
  destruct (Z.eqb_spec m (2 ^ 53)) as [->|NE].
  - destruct (_ <=? _); [|exact I]. reflexivity.
  - destruct (_ <=? _); [|exact I]. cbn [wf].
    destruct m as [|q|q]; cbn [Z.to_pos]; try reflexivity. lia.
Qed.

Lemma rne_nonpos num den : num <= 0 -> 0 < den -> Num.rne num den <= 0.
Proof.
  intros Hn Hd. destruct (rne_near num den Hd) as [L U]. nia.
Qed.

Lemma rnd_wf s a b : 0 < b -> wf (Num.rnd s a b).
Proof.
  intros Hb. unfold Num.rnd. apply pack_wf.
  set (e := Num.qexp a b).
  assert (Hden : 0 < Num.up b e) by now apply up_pos.
  destruct (Z.le_gt_cases a 0) as [Ha|Ha].
  - assert (Num.up a (- e) <= 0).
    { unfold Num.up. assert (0 < 2 ^ Z.max 0 (- e)) by (apply Z.pow_pos_nonneg; lia). nia. }
    pose proof (rne_nonpos _ _ H Hden). assert (0 < 2 ^ 53) by reflexivity. lia.
  - apply (rne_mono_bounds _ _ 0 (2 ^ 53) Hden).
    + pose proof (up_pos a (- e) Ha). lia.
    + apply ratio_le_Z; [assumption|].
      rewrite ratio_up_opp by assumption.
      destruct (mag_Q a b Ha Hb) as [_ U].
      pose proof (q2_pos (- e)).
      apply Qle_trans with (q2 (Num.mag a b) * q2 (- e))%Q.
      * apply Qmult_le_compat_r; lra.
      * rewrite <- q2_add, <- q2_53. apply q2_le.
        unfold e, Num.qexp, prec. lia.
Qed.

Lemma of_Z_wf z : wf (Num.of_Z z).
Proof. destruct z; [exact I|apply rnd_wf; lia|apply rnd_wf; lia]. Qed.

Lemma of_sign_dec_wf neg d k : wf (Conv.of_sign_dec neg d k).
Proof.
  unfold Conv.of_sign_dec. destruct (d =? 0); [exact I|].
  apply rnd_wf. apply Z.pow_pos_nonneg; lia.
Qed.

Lemma stringToNumber_wf s : wf (Conv.stringToNumber s).
Proof.
  unfold Conv.stringToNumber.
  destruct (Str.is_empty _); [exact I|].
  destruct (Conv.non_decimal _); [apply of_Z_wf|].
  destruct (Conv.split_sign _) as [neg u].
  destruct (String.eqb _ _); [exact I|].
  unfold Conv.decimal_literal.
  destruct (Str.span Str.is_digit u) as [ip r1].
  destruct (match r1 with
            | EmptyString => (""%string, r1)
            | String c r => if Ascii.eqb c "." then Str.span Str.is_digit r
                            else (""%string, r1)
            end) as [fp r2].
  destruct (_ && _); [exact I|].
  destruct r2 as [|c r3]; [apply of_sign_dec_wf|].
  destruct (_ || _); [|exact I].
  destruct (Conv.exponent r3); [apply of_sign_dec_wf|exact I].
Qed.

Lemma four_places_wf v w : four_places v = Normal w -> wf w.
Proof.
  unfold four_places. destruct (Conv.toFixed v 4); cbn [bind]; [|discriminate].
  intros H. injection H as <-. apply stringToNumber_wf.
Qed.

(** The value of a finite number over its denominator. *)
Lemma toQ_ratio s m e :
  (Num.toQ (S754_finite s m e)
   == ratio (cond_Zopp s (Num.up (Zpos m) e)) (Num.up 1 (- e)))%Q.
Proof.
  cbn [Num.toQ]. pose proof (ratio_finite m e) as E.
  destruct s; cbn [cond_Zopp].
  - change (inject_Z (Z.neg m)) with (- inject_Z (Z.pos m))%Q.
    unfold ratio in *. rewrite inject_Z_opp.
    setoid_replace (- inject_Z (Num.up (Z.pos m) e) / inject_Z (Num.up 1 (- e)))%Q
      with (- (inject_Z (Num.up (Z.pos m) e) / inject_Z (Num.up 1 (- e))))%Q.
    + rewrite E. ring.
    + pose proof (inject_Z_pos _ (up_pos 1 (- e) ltac:(lia))). field. lra.
  - now rewrite E.
Qed.

Lemma toQ_of_Z k : Z.abs k < 2 ^ 53 -> (Num.toQ (Num.of_Z k) == inject_Z k)%Q.
Proof.
  intros H. destruct (Z.eq_dec k 0) as [->|NZ]; [reflexivity|].
  destruct (of_Z_normal k ltac:(lia)) as (m & e & -> & _ & E).
  cbn [Num.toQ]. destruct (Z.ltb_spec k 0); cbn [cond_Zopp].
  - change (inject_Z (- Z.pos m)) with (- inject_Z (Z.pos m))%Q.
    setoid_replace (- inject_Z (Z.pos m) * q2 e)%Q
      with (- (inject_Z (Z.pos m) * q2 e))%Q by ring.
    rewrite E, <- inject_Z_opp. f_equiv. lia.
  - rewrite E. f_equiv. lia.
Qed.

(** [Math.round] takes a finite number to the integer within half a unit
    of it, the larger one on a tie. *)
Lemma round_half_up w :
  wf w ->
  match w with
  | S754_finite _ _ _ =>
      exists k,
        (Num.toQ (Num.round w) == inject_Z k)%Q
        /\ (inject_Z k - (1 # 2) <= Num.toQ w < inject_Z k + (1 # 2))%Q
  | _ => Num.round w = w
  end.
Proof.
  destruct w as [| | |s m e]; try reflexivity. cbn [wf]. intros Hm.
  cbn [Num.round]. destruct (Z.leb_spec 0 e) as [He|He].
  - exists (cond_Zopp s (Zpos m) * 2 ^ e).
    assert (E : (Num.toQ (S754_finite s m e)
                 == inject_Z (cond_Zopp s (Z.pos m) * 2 ^ e))%Q).
    { cbn [Num.toQ]. rewrite inject_Z_mult, q2_Z by assumption. reflexivity. }
    split; [exact E|]. rewrite E. split; lra.
  - set (D := Num.fden (S754_finite s m e)).
    set (M := Num.fnum (S754_finite s m e)).
    assert (HD : D = 2 ^ (- e)).
    { unfold D. cbn [Num.fden]. rewrite up_nonneg_exp by lia. lia. }
    assert (HM : M = cond_Zopp s (Zpos m)).
    { unfold M. cbn [Num.fnum]. now rewrite up_nonpos_exp by lia. }
    assert (D2 : 2 <= D).
    { rewrite HD. replace (- e) with (1 + (- e - 1)) by lia.
      rewrite Z.pow_add_r by lia.
      assert (0 < 2 ^ (- e - 1)) by (apply Z.pow_pos_nonneg; lia). lia. }
    assert (BM : - 2 ^ 53 < M < 2 ^ 53) by (rewrite HM; destruct s; cbn; lia).
    set (k := (2 * M + D) / (2 * D)).
    pose proof (Z.div_mod (2 * M + D) (2 * D) ltac:(lia)) as Ed.
    pose proof (Z.mod_pos_bound (2 * M + D) (2 * D) ltac:(lia)) as Bd.
    fold k in Ed.
    assert (Bk : Z.abs k < 2 ^ 53).
    { assert (2 ^ 53 = 9007199254740992) by reflexivity. nia. }
    exists k. split.
    + unfold Num.of_Z_signed. destruct (Z.eqb_spec k 0) as [->|NZ]; [reflexivity|].
      now apply toQ_of_Z.
    + rewrite toQ_ratio. change (cond_Zopp s (Num.up (Z.pos m) e)) with M.
      change (Num.up 1 (- e)) with D.
      assert (HDQ : (0 < inject_Z D)%Q) by (apply inject_Z_pos; lia).
      assert (L : (2 * k - 1) * D <= 2 * M) by nia.
      assert (U : 2 * M < (2 * k + 1) * D) by nia.
      unfold ratio. split.
      * apply Qle_shift_div_l; [assumption|].
        rewrite Zle_Qle in L. rewrite !inject_Z_mult in L. unfold Z.sub in L.
        rewrite inject_Z_plus, inject_Z_mult in L.
        change (inject_Z 2) with 2%Q in L. change (inject_Z (- (1))) with (- (1))%Q in L.
        lra.
      * apply Qlt_shift_div_r; [assumption|].
        rewrite Zlt_Qlt in U. rewrite !inject_Z_mult in U.
        rewrite inject_Z_plus, inject_Z_mult in U.
        change (inject_Z 2) with 2%Q in U. change (inject_Z 1) with 1%Q in U.
        lra.
Qed.

(** ** Rounding in parse *)

Lemma half_bounds_Q A B N :
  0 < B -> (2 * N - 1) * B <= 2 * A < (2 * N + 1) * B ->
  (inject_Z N - (1 # 2) <= ratio A B < inject_Z N + (1 # 2))%Q.
Proof.
  intros HB [L U].
  assert (HBQ : (0 < inject_Z B)%Q) by (apply inject_Z_pos; lia).
  unfold ratio. split.
  - apply Qle_shift_div_l; [assumption|].
    rewrite Zle_Qle in L. rewrite !inject_Z_mult in L. unfold Z.sub in L.
    rewrite inject_Z_plus, inject_Z_mult in L.
    change (inject_Z 2) with 2%Q in L. change (inject_Z (- (1))) with (- (1))%Q in L.
    lra.
  - apply Qlt_shift_div_r; [assumption|].
    rewrite Zlt_Qlt in U. rewrite !inject_Z_mult in U.
    rewrite inject_Z_plus, inject_Z_mult in U.
    change (inject_Z 2) with 2%Q in U. change (inject_Z 1) with 1%Q in U.
    lra.
Qed.

(** [toFixed] of a finite number below [10^21]. *)
Lemma toFixed_finite s m e f :
  (f <= 100)%nat ->
  (inject_Z (Zpos m) * q2 e < inject_Z (10 ^ 21))%Q ->
  exists N,
    0 <= N
    /\ Conv.toFixed (S754_finite s m e) f
       = Normal ((if s then "-" else "") ++ Conv.fixed N f)
    /\ (inject_Z N - (1 # 2)
        <= inject_Z (Zpos m) * q2 e * inject_Z (10 ^ Z.of_nat f)
        < inject_Z N + (1 # 2))%Q.
Proof.
  intros Hf Hq. unfold Conv.toFixed.
  destruct (Nat.ltb_spec 100 f) as [C|_]; [lia|].
  cbn [Num.abs SFabs Num.fnum Num.fden cond_Zopp].
  set (a := Num.up (Z.pos m) e). set (b := Num.up 1 (- e)).
  assert (Hb : 0 < b) by (apply up_pos; lia).
  assert (Ha : 0 < a) by (apply up_pos; lia).
  pose proof (ratio_finite m e) as Er. fold a b in Er.
  destruct (Z.leb_spec (10 ^ 21 * b) a) as [C|_].
  { apply (ratio_ge_Z a b (10 ^ 21) Hb) in C. lra. }
  set (T := 10 ^ Z.of_nat f). assert (HT : 0 < T) by (apply Z.pow_pos_nonneg; lia).
  set (N := (2 * a * T + b) / (2 * b)).
  pose proof (Z.div_mod (2 * a * T + b) (2 * b) ltac:(lia)) as Ed.
  pose proof (Z.mod_pos_bound (2 * a * T + b) (2 * b) ltac:(lia)) as Bd.
  fold N in Ed.
  assert (HN : 0 <= N) by (apply Z.div_pos; nia).
  exists N. split; [assumption|]. split; [reflexivity|].
  rewrite <- Er, ratio_mul_Z by assumption.
  apply half_bounds_Q; [assumption|]. nia.
Qed.

Lemma four_places_spec v :
  exists w, four_places v = Normal w /\ four_decimals v w.
Proof.
  destruct v as [s|s| |s m e].
  - exists zero. split; [destruct s; vm_compute; reflexivity|reflexivity].
  - exists (S754_infinity s). split; [destruct s; vm_compute; reflexivity|reflexivity].
  - exists S754_nan. split; [vm_compute; reflexivity|reflexivity].
  - destruct (four_places_normal (S754_finite s m e)) as [w Hw].
    exists w. split; [assumption|]. cbn [four_decimals]. intros Hq.
    destruct (toFixed_finite s m e 4 ltac:(lia) Hq) as (N & HN & Ht & Hb).
    exists N. split; [assumption|]. split; [|exact Hb].
    unfold four_places in Hw. rewrite Ht in Hw. cbn [bind] in Hw.
    rewrite stringToNumber_fixed in Hw by assumption.
    now injection Hw as <-.
Qed.

(** C4, as stated, fails: [parse(-0.025)] with the default settings is
    -2, while rounding the four-decimal value -2.5 half away from zero
    gives -3. *)
Lemma parse_not_half_away :
  ~ (forall val opts w,
       parse val opts false = Normal w ->
       parse val opts true = Normal (round_half_away w)).
Proof.
  intros H.
  specialize (H (INumber (Num.of_dec (-25) (-3))) defaults
                (Num.of_dec (-25) (-1)) ltac:(vm_compute; reflexivity)).
  vm_compute in H. discriminate H.
Qed.

(** C4, amended. [parse] with rounding returns [Math.round] of what it
    returns without: the scaled value is first rounded to four decimal
    places (half away from zero, then to the nearest double), and that is
    rounded to the nearest integer with ties toward positive infinity; so
    2.5 goes to 3 and -2.5 to -2. *)
Theorem parse_rounds_half_up (val : input) (opts : defaultsTypes) :
  match scaled val opts with
  | Normal v =>
      exists w,
        four_places v = Normal w
        /\ parse val opts false = Normal w
        /\ parse val opts true = Normal (round w)
        /\ four_decimals v w
        /\ half_up w (round w)
  | Throw e => parse val opts true = Throw e
  end
  /\ parse (INumber (Num.of_dec 25 (-3))) defaults true
     = Normal (Num.of_Z 3)
  /\ parse (INumber (Num.of_dec (-25) (-3))) defaults true
     = Normal (Num.of_Z (-2)).
Proof.
  split; [|split; vm_compute; reflexivity].
  unfold parse. destruct (scaled val opts) as [v|e]; cbn [bind]; [|reflexivity].
  destruct (four_places_spec v) as (w & Hw & Hd).
  exists w. rewrite Hw. cbn [bind].
  repeat split; try assumption.
  pose proof (round_half_up w (four_places_wf v w Hw)) as R.
  unfold half_up, round. destruct w; assumption.
Qed.

(** ** toString *)

Lemma fixed_is_fixed_text (neg : bool) n p :
  0 <= n -> fixed_text p ((if neg then "-" else "") ++ Conv.fixed n p).
Proof.
  intros Hn. destruct p as [|p'].
  - destruct (digits_spec n Hn) as (_ & A & NE).
    exists neg, (Str.digits n), "". rewrite fixed_0, append_nil_r. auto.
  - destruct (fixed_spec n (S p') Hn ltac:(discriminate))
      as (ip & fp & E & Aip & Nip & Afp & Lfp & _).
    exists neg, ip, fp. rewrite E. auto.
Qed.

Lemma toFixed_positional v p s :
  positional v -> Conv.toFixed v p = Normal s -> fixed_text p s.
Proof.
  intros Hv H. unfold Conv.toFixed in H.
  destruct (Nat.ltb_spec 100 p) as [C|C]; [discriminate|].
  destruct v as [z| | |sg m e]; try contradiction.
  - injection H as <-. apply (fixed_is_fixed_text false 0 p). lia.
  - destruct (toFixed_finite sg m e p C Hv) as (N & HN & Ht & _).
    unfold Conv.toFixed in Ht.
    destruct (Nat.ltb_spec 100 p) as [C'|_]; [lia|].
    rewrite Ht in H. injection H as <-. now apply fixed_is_fixed_text.
Qed.

(** C6, at the failing input. [new Currency(0)] constructs a value whose
    [toString()] returns [undefined]: it is no string, while the method
    is documented as returning one. *)
Theorem toString_of_zero_is_undefined :
  new_Currency (INumber (Num.of_Z 0)) None = Normal zero_value
  /\ toString zero_value = Normal None
  /\ ~ (exists s, toString zero_value = Normal (Some s)).
Proof.
  split; [vm_compute; reflexivity|].
  split; [vm_compute; reflexivity|].
  intros [s H]. vm_compute in H. discriminate H.
Qed.

(** What [toString()] returns, for every receiver.  When the scaled
    integer, the increment and the scale factor are all truthy, it is
    [(round(value / increment) * increment).toFixed(precision)], with
    [value] the scaled integer over the scale factor: a plain decimal
    numeral with exactly [precision] fractional digits whenever that
    number is zero or finite and below [10^21]; it throws a range error
    when [precision] exceeds 100.  Otherwise it returns [undefined]. *)
Theorem toString_spec (this : Currency) :
  match intValue this, _settings this, _precision this with
  | Some i, Some st, Some pr =>
      if Num.truthy i && truthy (increment st) && Num.truthy pr then
        let inc := or_else (increment st) NaN in
        let v := Num.mul (round (Num.div (Num.div i pr) inc)) inc in
        if (precision st <=? 100)%nat then
          exists s,
            toString this = Normal (Some s)
            /\ Conv.toFixed v (precision st) = Normal s
            /\ (positional v -> fixed_text (precision st) s)
        else toString this = Throw RangeError
      else toString this = Normal None
  | _, _, _ => toString this = Normal None
  end.
Proof.
  unfold toString.
  destruct (intValue this) as [i|]; [|reflexivity].
  destruct (_settings this) as [st|]; [|reflexivity].
  destruct (_precision this) as [pr|]; [|reflexivity].
  destruct (Num.truthy i && truthy (increment st) && Num.truthy pr);
    [|reflexivity].
  cbv zeta. unfold rounding.
  set (v := Num.mul (round (Num.div (Num.div i pr) (or_else (increment st) NaN)))
              (or_else (increment st) NaN)).
  destruct (Nat.leb_spec (precision st) 100) as [C|C].
  - destruct (Conv.toFixed v (precision st)) as [s|e] eqn:E.
    + exists s. cbn [bind]. repeat split.
      intros Hv. exact (toFixed_positional v _ s Hv E).
    + unfold Conv.toFixed in E.
      destruct (Nat.ltb_spec 100 (precision st)); [lia|discriminate].
  - unfold Conv.toFixed.
    destruct (Nat.ltb_spec 100 (precision st)); [reflexivity|lia].
Qed.

(** ** add and subtract on a falsy receiver *)

Lemma parse_defaults_normal (x : input) (r : bool) :
  exists n, parse x defaults r = Normal n.
Proof.
  destruct x as [c|n|s|];
    try (apply parse_recognised_normal; [discriminate|intros _; discriminate]).
  exists zero. apply parse_other_lenient. reflexivity.
Qed.

Lemma of_dec_rnd k j :
  0 < Z.abs k -> j <= 0 ->
  Num.of_dec k j = Num.rnd (k <? 0) (Z.abs k) (10 ^ (- j)).
Proof.
  intros Hk Hj. unfold Num.of_dec.
  rewrite (Z.max_l 0 j), (Z.max_r 0 (- j)) by lia.
  change (10 ^ 0) with 1.
  destruct k as [|q|q]; [cbn in Hk; lia|..]; cbn [Z.ltb Z.compare Z.abs];
    f_equal; lia.
Qed.

Lemma of_Z_rnd z :
  0 < Z.abs z -> Num.of_Z z = Num.rnd (z <? 0) (Z.abs z) 1.
Proof.
  destruct z as [|q|q]; cbn [Z.abs]; intros H; [lia|reflexivity|reflexivity].
Qed.

Lemma of_Z_0_falsy : Num.truthy (Num.of_Z 0) = false.
Proof. reflexivity. Qed.

Local Opaque Num.div Num.mul Num.of_Z Num.rnd Num.pow10 Num.of_dec.

Section FiftyTimes.

Variable k : Z.
Hypothesis Hk : 0 < Z.abs k <= 2 * 10 ^ 13.

Let s : bool := k <? 0.
Let m : Z := Z.abs k.

Lemma fifty_bounds : 0 < m <= 10 ^ 15 /\ 0 < 50 * m <= 10 ^ 15.
Proof. unfold m. change (10 ^ 15) with (50 * (2 * 10 ^ 13)). lia. Qed.

Lemma signed_m : (if s then - m else m) = k.
Proof. unfold s, m. destruct (Z.ltb_spec k 0); lia. Qed.

Lemma signed_50m : (if s then - (50 * m) else 50 * m) = 50 * k.
Proof. unfold s, m. destruct (Z.ltb_spec k 0); lia. Qed.

Lemma parse_cents :
  parse (INumber (Num.of_dec k (-2))) defaults true = Normal (Num.of_Z k).
Proof.
  destruct fifty_bounds as [B1 B2].
  unfold parse, scaled. cbn [bind precision defaults]. unfold pow.
  rewrite (of_dec_rnd k (-2)) by (unfold m in B1; lia).
  change (10 ^ (- (-2))) with (10 ^ Z.of_nat 2). fold s m.
  destruct (parse_value_back 2 m s ltac:(lia) B1) as (w & Hw & Rw & _).
  rewrite Hw. cbn [bind].
  now rewrite Rw, signed_m.
Qed.

Lemma half_normal :
  normal (Num.div (Num.of_Z k) (Num.of_Z 2)) s (inject_Z m * (1 # 2))%Q.
Proof.
  destruct fifty_bounds as [B1 B2].
  pose proof (i_normal 2 m s ltac:(lia) B1) as Hi. rewrite signed_m in Hi.
  assert (H2 : normal (Num.of_Z 2) false 2%Q) by (apply (of_Z_normal 2); lia).
  assert (E : (ratio m 2 == inject_Z m / 2)%Q) by reflexivity.
  rewrite (div_normal _ _ _ _ _ _ m 2 Hi H2 ltac:(lia) ltac:(lia) E).
  rewrite xorb_false_r.
  assert (E' : (ratio m 2 == inject_Z m * (1 # 2))%Q)
    by (unfold ratio; change (inject_Z 2) with 2%Q; field).
  assert (M1 : (1 <= inject_Z m)%Q)
    by (change 1%Q with (inject_Z 1); rewrite <- Zle_Qle; lia).
  assert (M2 : (inject_Z m <= inject_Z (10 ^ 15))%Q) by (rewrite <- Zle_Qle; lia).
  change (inject_Z (10 ^ 15)) with (1000000000000000 # 1)%Q in M2.
  apply (normal_ext _ _ _ _ E').
  apply (rnd_exact s m 2) with (M := m) (E := -1); [lia|lia| | | |].
  - rewrite E'. apply Qle_trans with (1 # 10 ^ 40)%Q; [apply q2_m1022_small|].
    change (1 # 10 ^ 40)%Q with (1 # 10000000000000000000000000000000000000000)%Q.
    lra.
  - rewrite E'. apply Qlt_le_trans with (inject_Z (10 ^ 40)); [|apply q2_1023_large].
    change (inject_Z (10 ^ 40)) with (10000000000000000000000000000000000000000 # 1)%Q.
    lra.
  - assert (2 ^ 53 = 9007199254740992) by reflexivity.
    assert (10 ^ 15 = 1000000000000000) by reflexivity. lia.
  - rewrite E'. apply Qmult_comp; [reflexivity|]. vm_compute. reflexivity.
Qed.

Lemma scaled_half :
  Num.mul (Num.div (Num.of_Z k) (Num.of_Z 2)) (Num.pow10 2)
  = Num.of_Z (50 * k).
Proof.
  destruct fifty_bounds as [B1 B2].
  pose proof (pow10_normal 2 ltac:(lia)) as HP.
  change (inject_Z (10 ^ Z.of_nat 2)) with (100 # 1)%Q in HP.
  assert (E : (ratio (50 * m) 1 == inject_Z m * (1 # 2) * (100 # 1))%Q).
  { unfold ratio. rewrite inject_Z_mult. change (inject_Z 50) with (50 # 1)%Q.
    change (inject_Z 1) with 1%Q. field. }
  rewrite (mul_normal _ _ _ _ _ _ (50 * m) 1 half_normal HP ltac:(lia) ltac:(lia) E).
  rewrite xorb_false_r.
  rewrite of_Z_rnd by (unfold m in B2; lia).
  f_equal; unfold s, m; [|lia].
  destruct (Z.ltb_spec k 0), (Z.ltb_spec (50 * k) 0); try reflexivity; lia.
Qed.

(** Adding [k] hundredths to the zero value gives 50 times as much. *)
Lemma add_to_zero_value :
  exists c,
    add zero_value (INumber (Num.of_dec k (-2))) = Normal c
    /\ intValue c = Some (Num.of_Z (50 * k))
    /\ value c = Some (Num.of_dec (50 * k) (-2)).
Proof.
  destruct fifty_bounds as [B1 B2].
  unfold add. cbn [intValue _settings _precision zero_value].
  rewrite of_Z_0_falsy. cbn [andb].
  rewrite parse_cents. cbn [bind].
  change (Num.of_Z (Z.of_nat (precision defaults))) with (Num.of_Z 2).
  unfold new_Currency.
  set (settings := assign defaults _).
  change (precision settings) with 2%nat.
  unfold parse, scaled. cbn [bind]. change (precision settings) with 2%nat.
  unfold pow. rewrite scaled_half.
  pose proof (i_normal 2 (50 * m) s ltac:(lia) B2) as Hi.
  rewrite signed_50m in Hi.
  destruct (four_places_round _ s (inject_Z (50 * m)) (50 * m) Hi B2)
    as (w & Hw & Rw).
  { setoid_replace (inject_Z (50 * m) - inject_Z (50 * m))%Q with 0%Q by ring.
    cbn. discriminate. }
  rewrite Hw. cbn [bind]. rewrite Rw, signed_50m.
  eexists. split; [reflexivity|]. cbn [intValue value].
  split; [reflexivity|]. f_equal.
  pose proof (div_i_P 2 (50 * m) s ltac:(lia) B2) as Hv.
  rewrite signed_50m in Hv. rewrite Hv.
  rewrite (of_dec_rnd (50 * k) (-2)) by (unfold m in B2; lia).
  change (10 ^ (- (-2))) with (10 ^ Z.of_nat 2).
  f_equal; unfold s, m; [|lia].
  destruct (Z.ltb_spec k 0), (Z.ltb_spec (50 * k) 0); try reflexivity; lia.
Qed.

End FiftyTimes.

Local Transparent Num.div Num.mul Num.of_Z Num.rnd Num.pow10 Num.of_dec.

(** C7, as stated, fails: [new Currency(0).add(0.005)] has the value 0.5,
    which is not 50 times 0.005: the operand is first rounded to a whole
    number of hundredths. *)
Lemma add_half_cent_to_zero :
  ~ (forall x c,
       add zero_value (INumber x) = Normal c ->
       value c = Some (Num.mul (Num.of_Z 50) x)).
Proof.
  intros H.
  destruct (add zero_value (INumber (Num.of_dec 5 (-3)))) as [c|e] eqn:E;
    [|vm_compute in E; discriminate E].
  specialize (H _ _ E).
  vm_compute in E. injection E as <-.
  vm_compute in H. discriminate H.
Qed.

Example add_half_cent_value :
  exists c,
    add zero_value (INumber (Num.of_dec 5 (-3))) = Normal c
    /\ value c = Some (Num.of_dec 5 (-1))
    /\ Num.mul (Num.of_Z 50) (Num.of_dec 5 (-3)) = Num.of_dec 25 (-2).
Proof.
  eexists. split; [vm_compute; reflexivity|].
  split; vm_compute; reflexivity.
Qed.

(** C7, amended. When the scaled integer of the receiver is falsy, [add]
    and [subtract] alike parse the operand with the module defaults,
    divide the result by 2 (the default [precision], not the scale factor
    100) and construct a value from the quotient with the receiver's
    settings; they always return a value.  On the zero value of the
    default settings, adding [k] hundredths, with [k] at most [2 * 10^13]
    in magnitude, gives a value of [50 * k] hundredths:
    [new Currency(0).add(1)] has the value 50. *)
Theorem falsy_receiver_add_subtract
    (this : Currency) (number : input) (k : Z) :
  truthy (intValue this) = false ->
  Z.abs k <= 2 * 10 ^ 13 ->
  add this number = fallback this number
  /\ subtract this number = fallback this number
  /\ (exists c, add this number = Normal c)
  /\ (exists c,
        add zero_value (INumber (Num.of_dec k (-2))) = Normal c
        /\ intValue c = Some (Num.of_Z (50 * k))
        /\ value c = Some (Num.of_dec (50 * k) (-2)))
  /\ (exists c,
        add zero_value (INumber (Num.of_Z 1)) = Normal c
        /\ value c = Some (Num.of_Z 50)).
Proof.
  intros Hf Hk.
  assert (Ha : add this number = fallback this number).
  { unfold add, fallback, truthy in *.
    change (Num.of_Z (Z.of_nat (precision defaults))) with (Num.of_Z 2).
    destruct (intValue this) as [i|]; [|reflexivity].
    rewrite Hf. cbn [andb].
    destruct (_settings this), (_precision this); reflexivity. }
  assert (Hs : subtract this number = fallback this number).
  { unfold subtract, fallback, truthy in *.
    change (Num.of_Z (Z.of_nat (precision defaults))) with (Num.of_Z 2).
    destruct (intValue this) as [i|]; [|reflexivity].
    rewrite Hf. cbn [andb].
    destruct (_settings this), (_precision this); reflexivity. }
  split; [exact Ha|]. split; [exact Hs|]. split; [|split].
  - rewrite Ha. unfold fallback.
    destruct (parse_defaults_normal number true) as [n ->]. cbn [bind].
    apply new_Currency_number_normal.
  - destruct (Z.eq_dec k 0) as [->|NZ].
    + eexists. split; [vm_compute; reflexivity|]. split; reflexivity.
    + apply add_to_zero_value. lia.
  - eexists. split; [vm_compute; reflexivity|]. reflexivity.
Qed.

(** [new Currency(0).add(1)] takes the fallback. *)
Lemma falsy_receiver_add_subtract_witness :
  truthy (intValue zero_value) = false
  /\ Z.abs 100 <= 2 * 10 ^ 13
  /\ add zero_value (INumber (Num.of_Z 1))
     = fallback zero_value (INumber (Num.of_Z 1)).
Proof.
  split; [reflexivity|]. split; [vm_compute; discriminate|].
  apply (falsy_receiver_add_subtract zero_value (INumber (Num.of_Z 1)) 100).
  - reflexivity.
  - vm_compute. discriminate.
Defined.

(** ** format and parse *)

Local Opaque Num.div Num.mul Num.of_Z Num.rnd Num.pow10.

(** C9, amended. Let [x] be a constructed value whose scaled integer is a
    non-zero integer of magnitude at most [10^15], with the default
    patterns, the default increment [1 / 10^precision], a precision of at
    most 22, a decimal character that is plain and a symbol and a
    separator made of characters that parsing strips.  Then [format]
    returns a string, with or without the symbol, and constructing a
    value from that string with the same options gives the scaled integer
    and the value of [x]. *)
Theorem format_parse_round_trip
    (val : input) (opts : option Partial) (x : Currency)
    (st : defaultsTypes) (n : Z) (useSymbol : option bool) :
  new_Currency val opts = Normal x ->
  _settings x = Some st ->
  intValue x = Some (Num.of_Z n) ->
  0 < Z.abs n <= 10 ^ 15 ->
  increment st = Some (Num.div (Num.of_Z 1) (pow (precision st))) ->
  pattern st = "!#" -> negativePattern st = "-!#" ->
  (precision st <= 22)%nat ->
  plain_decimal (decimal st) = true ->
  symbol_ok (decimal st) (symbol st) = true ->
  separator_ok (decimal st) (separator st) = true ->
  exists str y,
    format x useSymbol = Normal (Some str)
    /\ new_Currency (IString str) opts = Normal y
    /\ intValue y = intValue x
    /\ value y = value x.
Proof.
  intros Hx Hst Hi Hn Hinc Hpat Hneg Hp Hd Hsym Hsep.
  unfold new_Currency in Hx.
  set (settings := assign defaults opts) in *.
  destruct (parse val settings true) as [v0|e] eqn:Ep; cbn [bind] in Hx;
    [|discriminate].
  injection Hx as <-. cbn [_settings intValue] in Hst, Hi.
  injection Hi as ->.
  set (g := match useVedic settings with
            | Some true => vedicRegex
            | _ => groupRegex
            end) in *.
  set (inc0 := if truthy (increment settings)
               then or_else (increment settings) NaN
               else Num.div (Num.of_Z 1) (pow (precision settings))) in *.
  injection Hst as <-.
  cbn [increment precision pattern negativePattern decimal symbol separator
       with_increment_groups] in *.
  injection Hinc as Hinc.
  set (p := precision settings) in *.
  set (s := n <? 0).
  set (m := Z.abs n).
  assert (Ei : Num.of_Z n = Num.of_Z (if s then - m else m)).
  { unfold s, m. destruct (Z.ltb_spec n 0); f_equal; lia. }
  pose proof (toFixed_rounding p m s Hp Hn) as Hfix. rewrite <- Ei in Hfix.
  pose proof (div_i_P p m s Hp Hn) as Hval. rewrite <- Ei in Hval.
  pose proof (i_truthy p m s Hp Hn) as Hti. rewrite <- Ei in Hti.
  pose proof (P_truthy p Hp) as HtP.
  pose proof (inc_truthy p Hp) as Htinc.
  destruct (v_normal p m s Hp Hn) as (qv & Hv & _).
  destruct (parse_value_back p m s Hp Hn) as (w & Hw & Rw & Tw).
  rewrite <- Ei in Rw.
  pose proof (literal_is_value p m s Hp Hn) as Hlit.
  (* toString *)
  assert (Hts : toString
                  {| intValue := Some (Num.of_Z n);
                     value := Some (Num.div (Num.of_Z n) (pow p));
                     _settings := Some (with_increment_groups settings inc0 g);
                     _precision := Some (pow p) |}
                = Normal (Some ((if s then "-" else "") ++ Conv.fixed m p))).
  { unfold toString.
    cbn [intValue _settings _precision increment precision
         with_increment_groups truthy or_else].
    rewrite Hinc. unfold pow. rewrite Hti, HtP, Htinc. cbn [andb].
    fold p. rewrite Hfix. reflexivity. }
  eexists. eexists.
  split.
  { unfold format, to_primitive_string. rewrite Hts.
    cbn [bind or_else _settings value groups with_increment_groups
         formatWithSymbol decimal separator symbol pattern negativePattern].
    unfold pow. rewrite Hval, (normal_truthy _ _ _ Hv), (normal_leb_zero _ _ _ Hv).
    rewrite Hpat, Hneg. reflexivity. }
  assert (Hparse :
    parse (IString
       (Str.replace_char "#"
          (Group.replace g ("$1" ++ separator settings)
             (nth 0 (Str.split_on "."
                (Str.strip_minus ((if s then "-" else "") ++ Conv.fixed m p))) "")
           ++ match nth_error (Str.split_on "."
                (Str.strip_minus ((if s then "-" else "") ++ Conv.fixed m p))) 1 with
              | Some c => if Str.is_empty c then "" else String (decimal settings) c
              | None => ""
              end)
          (Str.replace_char "!"
             (if or_else useSymbol (formatWithSymbol settings)
              then symbol settings else "")
             (if negb s then "!#" else "-!#")))) settings true
    = Normal (Num.of_Z n)).
  { unfold parse, scaled. fold p.
    rewrite (decimal_not_backslash (decimal settings) Hd).
    assert (Hsym' : symbol_ok (decimal settings)
                      (if or_else useSymbol (formatWithSymbol settings)
                       then symbol settings else "") = true)
      by (destruct (or_else useSymbol (formatWithSymbol settings));
          [exact Hsym|reflexivity]).
    pose proof (formatted_text_parses (decimal settings) _ (separator settings)
                  g s m p Hd Hsym' Hsep ltac:(lia)) as Htext.
    cbv zeta in Htext.
    replace (if negb s then "!#" else "-!#") with (if s then "-!#" else "!#")
      by (destruct s; reflexivity).
    rewrite Htext.
    rewrite stringToNumber_fixed by lia. rewrite Hlit.
    unfold pow. rewrite Tw. cbn [bind]. rewrite Hw. cbn [bind].
    now rewrite Rw. }
  split.
  { unfold new_Currency. fold settings. rewrite Hparse. cbn [bind]. reflexivity. }
  split; reflexivity.
Qed.

Local Transparent Num.div Num.mul Num.of_Z Num.rnd Num.pow10.

(** C9, as stated, fails: with [{increment: 0.05}] the value 1.02, a whole
    number of hundredths, is formatted as 1.00, which parses to 1. *)
Lemma format_parse_not_round_trip :
  ~ (forall val opts x n str y,
       new_Currency val opts = Normal x ->
       intValue x = Some (Num.of_Z n) ->
       format x None = Normal (Some str) ->
       new_Currency (IString str) opts = Normal y ->
       value y = value x).
Proof.
  intros H.
  set (val := INumber (Num.of_dec 102 (-2))).
  set (opts := Some (only_increment (Num.of_dec 5 (-2)))).
  destruct (new_Currency val opts) as [x|e] eqn:Ex;
    [|vm_compute in Ex; discriminate Ex].
  destruct (new_Currency (IString "1.00") opts) as [y|e] eqn:Ey;
    [|vm_compute in Ey; discriminate Ey].
  assert (Ex' := Ex). vm_compute in Ex'. injection Ex' as <-.
  assert (Ey' := Ey). vm_compute in Ey'. injection Ey' as <-.
  specialize (H val opts _ 102 "1.00" _ Ex
                ltac:(vm_compute; reflexivity)
                ltac:(vm_compute; reflexivity) Ey).
  vm_compute in H. discriminate H.
Qed.

(** The round trip of [new Currency("$1,234.56")]. *)
Lemma format_parse_round_trip_witness :
  new_Currency (IString "$1,234.56") None = Normal sample_value
  /\ exists str y,
       format sample_value (Some true) = Normal (Some str)
       /\ new_Currency (IString str) None = Normal y
       /\ intValue y = intValue sample_value
       /\ value y = value sample_value.
Proof.
  split; [vm_compute; reflexivity|].
  apply (format_parse_round_trip (IString "$1,234.56") None sample_value
           (with_increment_groups defaults (Num.of_dec 1 (-2)) groupRegex)
           123456 (Some true)).
  - vm_compute. reflexivity.
  - reflexivity.
  - reflexivity.
  - vm_compute. split; [reflexivity|discriminate].
  - vm_compute. reflexivity.
  - reflexivity.
  - reflexivity.
  - vm_compute. repeat constructor.
  - reflexivity.
  - reflexivity.
  - reflexivity.
Defined.

Example format_sample :
  format sample_value (Some true) = Normal (Some "$1,234.56")
  /\ format sample_value None = Normal (Some "1,234.56").
Proof. split; vm_compute; reflexivity. Qed.

(** ** Scenarios *)

(** C10. [new Currency(1.005)] has the scaled integer 101: the product
    [1.005 * 100] is the double 100.49999999999999, which [Math.round]
    alone would take to 100, and [toFixed(4)] prints it as 100.5000. *)
Theorem ctor_1_005_intValue :
  exists c,
    new_Currency (INumber (Num.of_dec 1005 (-3))) None = Normal c
    /\ intValue c = Some (Num.of_Z 101)
    /\ Num.mul (Num.of_dec 1005 (-3)) (pow (precision defaults))
       = Num.of_dec 10049999999999999 (-14)
    /\ round (Num.of_dec 10049999999999999 (-14)) = Num.of_Z 100
    /\ Conv.toFixed (Num.of_dec 10049999999999999 (-14)) 4
       = Normal "100.5000"
    /\ Conv.stringToNumber "100.5000" = Num.of_dec 1005 (-1)
    /\ round (Num.of_dec 1005 (-1)) = Num.of_Z 101.
Proof.
  eexists. split; [vm_compute; reflexivity|].
  repeat split; vm_compute; reflexivity.
Qed.

(** C3, as stated, fails: [new Currency(-500, {precision: 2})] does not
    have [dollars()] equal to -5. *)
Lemma dollars_minus_500_not_minus_5 :
  ~ (exists c,
       new_Currency (INumber (Num.of_Z (-500))) (Some (only_precision 2))
       = Normal c
       /\ dollars c = Some (Num.of_Z (-5))
       /\ cents c = Some (Num.of_Z 0)).
Proof.
  intros [c [H [Hd _]]].
  vm_compute in H. injection H as <-.
  vm_compute in Hd. discriminate Hd.
Qed.

(** C3, amended. [new Currency(-500, {precision: 2})] has [dollars()]
    equal to -500 and [cents()] equal to 0: a number is an amount in whole
    units, not in hundredths. *)
Theorem dollars_cents_minus_500 :
  exists c,
    new_Currency (INumber (Num.of_Z (-500))) (Some (only_precision 2))
    = Normal c
    /\ intValue c = Some (Num.of_Z (-50000))
    /\ dollars c = Some (Num.of_Z (-500))
    /\ cents c = Some (Num.of_Z 0).
Proof.
  eexists. split; [vm_compute; reflexivity|].
  repeat split; vm_compute; reflexivity.
Qed.

(** C1, at the failing input. [new Currency(0.02).distribute(3)] returns
    values whose scaled integers are 50, 50 and 0: they sum to 100, while
    the scaled integer of the receiver is 2. *)
Theorem distribute_0_02_by_3 :
  exists x l,
    new_Currency (INumber (Num.of_dec 2 (-2))) None = Normal x
    /\ intValue x = Some (Num.of_Z 2)
    /\ distribute x 3 = Normal (Some l)
    /\ List.map intValue l
       = [Some (Num.of_Z 50); Some (Num.of_Z 50); Some (Num.of_Z 0)]
    /\ sum_intValues l = Num.of_Z 100.
Proof.
  do 2 eexists. split; [vm_compute; reflexivity|].
  split; [vm_compute; reflexivity|].
  split; [vm_compute; reflexivity|].
  split; vm_compute; reflexivity.
Qed.

(** C2, at the failing input. With [a = new Currency(0)] and
    [b = new Currency(1)], [a.add(b).value] is 50 while
    [a.value + b.value] is 1. *)
Theorem add_to_zero_receiver :
  exists a b r,
    new_Currency (INumber (Num.of_Z 0)) None = Normal a
    /\ new_Currency (INumber (Num.of_Z 1)) None = Normal b
    /\ value a = Some (Num.of_Z 0)
    /\ value b = Some (Num.of_Z 1)
    /\ add a (ICurrency b) = Normal r
    /\ value r = Some (Num.of_Z 50)
    /\ Num.add (Num.of_Z 0) (Num.of_Z 1) = Num.of_Z 1.
Proof.
  do 3 eexists. split; [vm_compute; reflexivity|].
  split; [vm_compute; reflexivity|].
  repeat split; vm_compute; reflexivity.
Qed.

(** * Further properties of the code *)

(** ** Sums, differences and products of integers *)

Lemma inject_cond_Zopp s z :
  (inject_Z (cond_Zopp s z) == if s then - inject_Z z else inject_Z z)%Q.
Proof. destruct s; cbn [cond_Zopp]; [now rewrite inject_Z_opp|reflexivity]. Qed.

Lemma inject_up_shift m k j :
  0 <= k - j ->
  (inject_Z (Num.up m (k - j)) * q2 j == inject_Z m * q2 k)%Q.
Proof.
  intros H. rewrite up_nonneg_exp by lia.
  rewrite inject_Z_mult, q2_Z by lia.
  assert (E : (q2 k == q2 (k - j) * q2 j)%Q).
  { rewrite <- q2_add. now replace (k - j + j) with k by lia. }
  rewrite E. ring.
Qed.

Lemma ratio_up_1 t k :
  (ratio (Num.up t k) (Num.up 1 (- k)) == inject_Z t * q2 k)%Q.
Proof.
  rewrite ratio_up by lia. unfold ratio.
  change (inject_Z 1) with 1%Q. field.
Qed.

(** The sum of two normal numbers is the rounding of the exact sum. *)
Lemma add_normal x y sx sy qx qy (s : bool) a b :
  normal x sx qx -> normal y sy qy -> 0 < a -> 0 < b ->
  ((if s then - ratio a b else ratio a b)
   == (if sx then - qx else qx) + (if sy then - qy else qy))%Q ->
  Num.add x y = Num.rnd s a b.
Proof.
  intros (mx & ex & -> & _ & Ex) (my & ey & -> & _ & Ey) Ha Hb E.
  cbn [Num.add]. set (ez := Z.min ex ey).
  set (t := cond_Zopp sx (Num.up (Zpos mx) (ex - ez))
            + cond_Zopp sy (Num.up (Zpos my) (ey - ez))).
  pose proof (ratio_pos a b Ha Hb) as Rp.
  assert (Ht : (inject_Z t * q2 ez
                == if s then - ratio a b else ratio a b)%Q).
  { rewrite E. unfold t. rewrite inject_Z_plus, !inject_cond_Zopp.
    assert (A : (inject_Z (Num.up (Zpos mx) (ex - ez)) * q2 ez == qx)%Q)
      by (rewrite inject_up_shift by (unfold ez; lia); exact Ex).
    assert (B : (inject_Z (Num.up (Zpos my) (ey - ez)) * q2 ez == qy)%Q)
      by (rewrite inject_up_shift by (unfold ez; lia); exact Ey).
    destruct sx, sy; lra. }
  pose proof (q2_pos ez) as Pz.
  clearbody t. destruct t as [|q|q].
  - exfalso. change (inject_Z 0) with 0%Q in Ht.
    destruct s; lra.
  - assert (Pq : (0 < inject_Z (Zpos q))%Q) by (apply inject_Z_pos; lia).
    assert (0 < inject_Z (Z.pos q) * q2 ez)%Q by (apply Qmult_lt_0_compat; assumption).
    destruct s; [lra|].
    apply rnd_ext; try assumption; try (apply up_pos; lia).
    apply ratio_eq; [apply up_pos; lia|assumption|].
    now rewrite ratio_up_1.
  - assert (Pq : (0 < inject_Z (Zpos q))%Q) by (apply inject_Z_pos; lia).
    assert (0 < inject_Z (Z.pos q) * q2 ez)%Q by (apply Qmult_lt_0_compat; assumption).
    change (inject_Z (Z.neg q)) with (- inject_Z (Z.pos q))%Q in Ht.
    destruct s; [|lra].
    change (- Z.neg q) with (Z.pos q).
    apply rnd_ext; try assumption; try (apply up_pos; lia).
    apply ratio_eq; [apply up_pos; lia|assumption|].
    rewrite ratio_up_1. lra.
Qed.

Lemma add_cancel x y sx sy q :
  normal x sx q -> normal y sy q -> sx <> sy ->
  Num.add x y = S754_zero false.
Proof.
  intros (mx & ex & -> & Bx & Ex) (my & ey & -> & By & Ey) D.
  cbn [Num.add]. set (ez := Z.min ex ey).
  set (t := cond_Zopp sx (Num.up (Zpos mx) (ex - ez))
            + cond_Zopp sy (Num.up (Zpos my) (ey - ez))).
  assert (Ht : (inject_Z t * q2 ez == 0)%Q).
  { unfold t. rewrite inject_Z_plus, !inject_cond_Zopp.
    assert (A : (inject_Z (Num.up (Zpos mx) (ex - ez)) * q2 ez == q)%Q)
      by (rewrite inject_up_shift by (unfold ez; lia); exact Ex).
    assert (B : (inject_Z (Num.up (Zpos my) (ey - ez)) * q2 ez == q)%Q)
      by (rewrite inject_up_shift by (unfold ez; lia); exact Ey).
    destruct sx, sy; try congruence; lra. }
  pose proof (q2_pos ez) as Pz.
  clearbody t. destruct t as [|p|p]; [reflexivity|exfalso..].
  - assert (Pq : (0 < inject_Z (Zpos p))%Q) by (apply inject_Z_pos; lia).
    assert (0 < inject_Z (Z.pos p) * q2 ez)%Q by (apply Qmult_lt_0_compat; assumption).
    lra.
  - assert (Pq : (0 < inject_Z (Zpos p))%Q) by (apply inject_Z_pos; lia).
    assert (0 < inject_Z (Z.pos p) * q2 ez)%Q by (apply Qmult_lt_0_compat; assumption).
    change (inject_Z (Z.neg p)) with (- inject_Z (Z.pos p))%Q in Ht. lra.
Qed.

Lemma signed_abs k :
  ((if k <? 0 then - inject_Z (Z.abs k) else inject_Z (Z.abs k))
   == inject_Z k)%Q.
Proof.
  destruct (Z.ltb_spec k 0).
  - rewrite <- inject_Z_opp. now replace (- Z.abs k) with k by lia.
  - now replace (Z.abs k) with k by lia.
Qed.

Lemma ratio_1 a : (ratio a 1 == inject_Z a)%Q.
Proof. unfold ratio. change (inject_Z 1) with 1%Q. field. Qed.

Lemma of_Z_finite k :
  0 < Z.abs k < 2 ^ 53 ->
  exists m e, Num.of_Z k = S754_finite (k <? 0) m e.
Proof.
  intros H. destruct (of_Z_normal k H) as (m & e & E & _). eauto.
Qed.

(** Integers below [2^53] in magnitude add without error. *)
Lemma add_of_Z a b :
  Z.abs a < 2 ^ 53 -> Z.abs b < 2 ^ 53 ->
  Num.add (Num.of_Z a) (Num.of_Z b) = Num.of_Z (a + b).
Proof.
  intros Ha Hb.
  destruct (Z.eq_dec a 0) as [->|Na].
  { rewrite Z.add_0_l.
    destruct (Z.eq_dec b 0) as [->|Nb]; [reflexivity|].
    destruct (of_Z_finite b ltac:(lia)) as (m & e & ->). reflexivity. }
  destruct (Z.eq_dec b 0) as [->|Nb].
  { rewrite Z.add_0_r.
    destruct (of_Z_finite a ltac:(lia)) as (m & e & ->). reflexivity. }
  pose proof (of_Z_normal a ltac:(lia)) as Xa.
  pose proof (of_Z_normal b ltac:(lia)) as Xb.
  destruct (Z.eq_dec (a + b) 0) as [Z0|NZ].
  - rewrite Z0. replace (Z.abs b) with (Z.abs a) in Xb by lia.
    apply (add_cancel _ _ _ _ _ Xa Xb).
    destruct (Z.ltb_spec a 0), (Z.ltb_spec b 0); try discriminate; lia.
  - rewrite (of_Z_rnd (a + b)) by lia.
    apply (add_normal _ _ _ _ _ _ _ _ _ Xa Xb); try lia.
    transitivity (inject_Z (a + b)).
    + rewrite <- (signed_abs (a + b)).
      destruct (a + b <? 0); now rewrite ratio_1.
    + rewrite inject_Z_plus. apply Qplus_comp; symmetry; apply signed_abs.
Qed.

Lemma opp_of_Z b : b <> 0 -> SFopp (Num.of_Z b) = Num.of_Z (- b).
Proof.
  intros N. rewrite !of_Z_rnd by lia. rewrite Z.abs_opp.
  unfold Num.rnd, Num.pack.
  replace (- b <? 0) with (negb (b <? 0))
    by (destruct (Z.ltb_spec b 0), (Z.ltb_spec (- b) 0); try reflexivity; lia).
  destruct (_ =? 0); [reflexivity|].
  destruct (_ <=? _); reflexivity.
Qed.

Lemma sub_of_Z a b :
  Z.abs a < 2 ^ 53 -> Z.abs b < 2 ^ 53 ->
  Num.sub (Num.of_Z a) (Num.of_Z b) = Num.of_Z (a - b).
Proof.
  intros Ha Hb. unfold Num.sub.
  destruct (Z.eq_dec b 0) as [->|Nb].
  - rewrite Z.sub_0_r. change (SFopp (Num.of_Z 0)) with (S754_zero true).
    destruct (Z.eq_dec a 0) as [->|Na]; [reflexivity|].
    destruct (of_Z_finite a ltac:(lia)) as (m & e & ->). reflexivity.
  - rewrite opp_of_Z by assumption.
    rewrite add_of_Z by (rewrite ?Z.abs_opp; assumption).
    reflexivity.
Qed.

(** The product of two integers below [2^53] is the rounded product. *)
Lemma mul_of_Z a b :
  0 < Z.abs a < 2 ^ 53 -> 0 < Z.abs b < 2 ^ 53 ->
  Num.mul (Num.of_Z a) (Num.of_Z b) = Num.of_Z (a * b).
Proof.
  intros Ha Hb.
  rewrite (of_Z_rnd (a * b)) by lia.
  replace (a * b <? 0) with (xorb (a <? 0) (b <? 0))
    by (destruct (Z.ltb_spec a 0), (Z.ltb_spec b 0), (Z.ltb_spec (a * b) 0);
        try reflexivity; nia).
  apply (mul_normal _ _ _ _ _ _ _ _ (of_Z_normal a Ha) (of_Z_normal b Hb));
    try lia.
  rewrite ratio_1, Z.abs_mul. now rewrite inject_Z_mult.
Qed.

Lemma div_of_Z a b :
  0 < Z.abs a < 2 ^ 53 -> 0 < Z.abs b < 2 ^ 53 ->
  Num.div (Num.of_Z a) (Num.of_Z b)
  = Num.rnd (xorb (a <? 0) (b <? 0)) (Z.abs a) (Z.abs b).
Proof.
  intros Ha Hb.
  apply (div_normal _ _ _ _ _ _ _ _ (of_Z_normal a Ha) (of_Z_normal b Hb));
    try lia.
  reflexivity.
Qed.

(** ** The scale factor *)

Lemma mag_ge_1 z : 0 < z -> 1 <= Num.mag z 1.
Proof.
  intros Hz. destruct (mag_spec z 1 Hz ltac:(lia)) as [_ U].
  destruct (Z_lt_le_dec (Num.mag z 1) 1) as [L|L]; [exfalso|assumption].
  rewrite (up_nonpos_exp 1 (Num.mag z 1)) in U by lia.
  rewrite up_nonneg_exp in U by lia.
  assert (0 < 2 ^ (- Num.mag z 1)) by (apply Z.pow_pos_nonneg; lia).
  nia.
Qed.

(** An integer of at least 1 is a positive finite number or, past the
    largest double, positive infinity. *)
Lemma of_Z_pos_shape z :
  0 < z ->
  (exists m e, Num.of_Z z = S754_finite false m e)
  \/ Num.of_Z z = S754_infinity false.
Proof.
  intros Hz. rewrite of_Z_rnd by lia.
  replace (z <? 0) with false by (symmetry; apply Z.ltb_ge; lia).
  replace (Z.abs z) with z by lia.
  unfold Num.rnd.
  set (e := Num.qexp z 1).
  set (m := Num.rne (Num.up z (- e)) (Num.up 1 e)).
  assert (Hm : 0 < m).
  { pose proof (mag_ge_1 z Hz) as M1.
    destruct (mag_spec z 1 Hz ltac:(lia)) as [L _].
    assert (He : e = Num.mag z 1 - 53) by (unfold e, Num.qexp, prec, emax; lia).
    destruct (Z_le_gt_dec e 0) as [N|N].
    - unfold m. rewrite (up_nonpos_exp 1 e) by lia.
      rewrite <- (Z.mul_1_r (Num.up z (- e))).
      rewrite rne_exact by lia. apply up_pos. lia.
    - unfold m. rewrite (up_nonpos_exp z (- e)) by lia.
      rewrite (up_nonneg_exp 1 e) by lia. rewrite Z.mul_1_l.
      rewrite (up_nonneg_exp 1) in L by lia.
      rewrite (up_nonpos_exp z) in L by lia.
      assert (B : 2 ^ 52 * 2 ^ e <= z).
      { rewrite <- Z.pow_add_r by lia.
        replace (52 + e) with (Num.mag z 1 - 1) by lia. lia. }
      assert (0 < 2 ^ e) by (apply Z.pow_pos_nonneg; lia).
      pose proof (rne_mono_bounds z (2 ^ e) (2 ^ 52) z ltac:(lia) B ltac:(nia)).
      lia. }
  clearbody m e. unfold Num.pack.
  destruct (Z.eqb_spec m 0); [lia|].
  destruct (_ <=? _); [left; eauto|right; reflexivity].
Qed.

Lemma pow_shape p :
  (exists m e, pow p = S754_finite false m e) \/ pow p = S754_infinity false.
Proof.
  unfold pow, Num.pow10. apply of_Z_pos_shape.
  apply Z.pow_pos_nonneg; lia.
Qed.

Lemma div_falsy_pow i p :
  Num.truthy i = false -> Num.truthy (Num.div i (pow p)) = false.
Proof.
  intros H.
  destruct (pow_shape p) as [(m & e & ->)| ->];
    destruct i as [s| | |]; try discriminate H; reflexivity.
Qed.

(** The fields of a constructed value. *)
Lemma new_Currency_fields val opts x :
  new_Currency val opts = Normal x ->
  let settings := assign defaults opts in
  exists v inc g,
    parse val settings true = Normal v
    /\ intValue x = Some v
    /\ value x = Some (Num.div v (pow (precision settings)))
    /\ _settings x = Some (with_increment_groups settings inc g)
    /\ _precision x = Some (pow (precision settings))
    /\ inc = (if truthy (increment settings)
              then or_else (increment settings) NaN
              else Num.div (Num.of_Z 1) (pow (precision settings)))
    /\ g = match useVedic settings with
           | Some true => vedicRegex
           | _ => groupRegex
           end.
Proof.
  intros H settings. unfold new_Currency in H. fold settings in H.
  destruct (parse val settings true) as [v|e]; cbn [bind] in H; [|discriminate].
  injection H as <-. do 3 eexists. repeat split; reflexivity.
Qed.

(** ** Values that print nothing *)

(** X1.  For a value x returned by the constructor whose intValue is falsy
    (0, -0 or NaN), toString() and format(useSymbol) return undefined
    without throwing, dollars() and cents() return undefined, and toJSON()
    returns a falsy number. *)
Theorem falsy_value_prints_nothing
    (val : input) (opts : option Partial) (x : Currency)
    (useSymbol : option bool) :
  new_Currency val opts = Normal x ->
  truthy (intValue x) = false ->
  toString x = Normal None
  /\ format x useSymbol = Normal None
  /\ dollars x = None
  /\ cents x = None
  /\ truthy (toJSON x) = false.
Proof.
  intros Hx Hf.
  destruct (new_Currency_fields _ _ _ Hx) as (v & inc & g & _ & Hi & Hv & Hs & Hp & _).
  rewrite Hi in Hf. cbn [truthy] in Hf.
  pose proof (div_falsy_pow v (precision (assign defaults opts)) Hf) as Hd.
  assert (Ts : toString x = Normal None).
  { unfold toString. rewrite Hi, Hs, Hp, Hf. reflexivity. }
  split; [exact Ts|].
  split.
  { unfold format, to_primitive_string. rewrite Ts. cbn [bind or_else].
    rewrite Hv, Hs.
    cbn [or_else groups with_increment_groups]. now rewrite Hd. }
  split; [unfold dollars; now rewrite Hv, Hd|].
  split; [unfold cents; now rewrite Hi, Hp, Hf|].
  unfold toJSON. rewrite Hv. exact Hd.
Qed.

Lemma falsy_value_prints_nothing_witness :
  truthy (intValue zero_value) = false
  /\ format zero_value None = Normal None.
Proof.
  split; [reflexivity|].
  apply (falsy_value_prints_nothing (INumber (Num.of_Z 0)) None zero_value None).
  - vm_compute. reflexivity.
  - reflexivity.
Defined.

(** ** Settings are kept *)

(** Settings as the constructor leaves them. *)
Lemma settled_assign s inc g :
  assign defaults (Some (as_opts (with_increment_groups s inc g)))
  = with_increment_groups s inc g.
Proof. destruct s as [? ? ? ? ? ? ? ? ? ? [u|]]; reflexivity. Qed.

Lemma rebuilt_settings val opts x st val' y :
  new_Currency val opts = Normal x ->
  _settings x = Some st ->
  new_Currency val' (Some (as_opts st)) = Normal y ->
  _settings y = Some st /\ _precision y = _precision x.
Proof.
  intros Hx Hst Hy.
  destruct (new_Currency_fields _ _ _ Hx)
    as (v & inc & g & _ & _ & _ & Hs & Hp & Hinc & Hg).
  rewrite Hs in Hst. injection Hst as <-.
  destruct (new_Currency_fields _ _ _ Hy)
    as (v' & inc' & g' & _ & _ & _ & Hs' & Hp' & Hinc' & Hg').
  rewrite settled_assign in Hs', Hp', Hinc', Hg'.
  cbn [precision useVedic increment with_increment_groups truthy or_else]
    in Hs', Hp', Hinc', Hg'.
  rewrite Hs', Hp', Hp. split; [|reflexivity].
  f_equal. rewrite Hg', <- Hg.
  assert (E : inc' = inc).
  { rewrite Hinc'. destruct (Num.truthy inc) eqn:T; [reflexivity|].
    rewrite Hinc in T |- *.
    destruct (truthy (increment (assign defaults opts))) eqn:T2.
    - destruct (increment (assign defaults opts)) as [i0|];
        cbn [truthy or_else] in *; congruence.
    - reflexivity. }
  rewrite E. reflexivity.
Qed.

Section Kept.

Variables (val : input) (opts : option Partial) (x : Currency).
Hypothesis Hx : new_Currency val opts = Normal x.

Lemma constructed_settings :
  exists i st pr,
    intValue x = Some i /\ _settings x = Some st /\ _precision x = Some pr.
Proof.
  destruct (new_Currency_fields _ _ _ Hx)
    as (v & inc & g & _ & Hi & _ & Hs & Hp & _).
  eauto 7.
Qed.

Lemma add_keeps number y : add x number = Normal y -> same_settings x y.
Proof.
  destruct constructed_settings as (i & st & pr & Hi & Hs & Hp).
  unfold add, same_settings. rewrite Hi, Hs, Hp. cbn [opts_of option_map].
  intros H. rewrite <- Hp.
  destruct (Num.truthy i && Num.truthy pr);
    match type of H with
    | bind ?c _ = _ => destruct c as [n|e]; cbn [bind] in H; [|discriminate]
    end;
    exact (rebuilt_settings _ _ _ _ _ _ Hx Hs H).
Qed.

Lemma subtract_keeps number y : subtract x number = Normal y -> same_settings x y.
Proof.
  destruct constructed_settings as (i & st & pr & Hi & Hs & Hp).
  unfold subtract, same_settings. rewrite Hi, Hs, Hp. cbn [opts_of option_map].
  intros H. rewrite <- Hp.
  destruct (Num.truthy i && Num.truthy pr);
    match type of H with
    | bind ?c _ = _ => destruct c as [n|e]; cbn [bind] in H; [|discriminate]
    end;
    exact (rebuilt_settings _ _ _ _ _ _ Hx Hs H).
Qed.

Lemma multiply_keeps m y : multiply x m = Normal (Some y) -> same_settings x y.
Proof.
  destruct constructed_settings as (i & st & pr & Hi & Hs & Hp).
  unfold multiply, same_settings. rewrite Hi, Hs.
  intros H.
  destruct (Num.truthy i); [|discriminate].
  match type of H with
  | bind ?c _ = _ => destruct c as [c0|e] eqn:E; cbn [bind] in H; [|discriminate]
  end.
  injection H as <-.
  exact (rebuilt_settings _ _ _ _ _ _ Hx Hs E).
Qed.

Lemma divide_keeps d y : divide x d = Normal (Some y) -> same_settings x y.
Proof.
  destruct constructed_settings as (i & st & pr & Hi & Hs & Hp).
  unfold divide, same_settings. rewrite Hi, Hs.
  intros H.
  destruct (Num.truthy i); [|discriminate].
  destruct (parse d st false) as [n|e]; cbn [bind] in H; [|discriminate].
  match type of H with
  | bind ?c _ = _ => destruct c as [c0|e] eqn:E; cbn [bind] in H; [|discriminate]
  end.
  injection H as <-.
  exact (rebuilt_settings _ _ _ _ _ _ Hx Hs E).
Qed.

End Kept.

Lemma distribute_loop_keeps val opts x st i split pr count :
  new_Currency val opts = Normal x ->
  _settings x = Some st ->
  forall pennies l,
    distribute_loop i split pr (Some st) count pennies = Normal l ->
    Forall (same_settings x) l.
Proof.
  intros Hx Hs. induction count as [|c IH]; intros pennies l H.
  - injection H as <-. constructor.
  - cbn [distribute_loop opts_of option_map] in H.
    destruct (new_Currency (INumber (Num.div split pr)) (Some (as_opts st)))
      as [item|e] eqn:E0; cbn [bind] in H; [|discriminate].
    pose proof (rebuilt_settings _ _ _ _ _ _ Hx Hs E0) as [S0 P0].
    match type of H with
    | bind ?c _ = _ => destruct c as [item'|e] eqn:E1; cbn [bind] in H; [|discriminate]
    end.
    match type of H with
    | bind ?c _ = _ => destruct c as [rest|e] eqn:E2; cbn [bind] in H; [|discriminate]
    end.
    injection H as <-. constructor; [|exact (IH _ _ E2)].
    unfold same_settings. rewrite Hs.
    destruct (Num.ltb zero pennies).
    + destruct (Num.leb zero i).
      * destruct (add_keeps _ _ _ E0 _ _ E1) as [A B].
        rewrite A, B, S0, P0. auto.
      * destruct (subtract_keeps _ _ _ E0 _ _ E1) as [A B].
        rewrite A, B, S0, P0. auto.
    + injection E1 as <-. rewrite S0, P0. auto.
Qed.

(** X2.  For a value x returned by the constructor, every value that add,
    subtract, multiply or divide returns, and every element of the array
    distribute returns, has the same _settings and the same _precision as
    x. *)
Theorem operations_keep_settings
    (val : input) (opts : option Partial) (x : Currency) :
  new_Currency val opts = Normal x ->
  (forall number y, add x number = Normal y -> same_settings x y)
  /\ (forall number y, subtract x number = Normal y -> same_settings x y)
  /\ (forall m y, multiply x m = Normal (Some y) -> same_settings x y)
  /\ (forall d y, divide x d = Normal (Some y) -> same_settings x y)
  /\ (forall count l,
        distribute x count = Normal (Some l) -> Forall (same_settings x) l).
Proof.
  intros Hx.
  split; [intros; eapply add_keeps; eassumption|].
  split; [intros; eapply subtract_keeps; eassumption|].
  split; [intros; eapply multiply_keeps; eassumption|].
  split; [intros; eapply divide_keeps; eassumption|].
  intros count l H.
  destruct (constructed_settings _ _ _ Hx) as (i & st & pr & Hi & Hs & Hp).
  unfold distribute in H. rewrite Hi, Hp in H.
  destruct (Num.truthy i && Num.truthy pr); [|discriminate].
  cbv zeta in H.
  match type of H with
  | bind ?c _ = _ => destruct c as [d|e] eqn:E; cbn [bind] in H; [|discriminate]
  end.
  injection H as <-. rewrite Hs in E.
  exact (distribute_loop_keeps _ _ _ _ _ _ _ _ Hx Hs _ _ E).
Qed.

Lemma operations_keep_settings_witness :
  new_Currency (IString "$1,234.56") None = Normal sample_value
  /\ forall number y,
       add sample_value number = Normal y -> same_settings sample_value y.
Proof.
  split; [vm_compute; reflexivity|].
  apply (operations_keep_settings (IString "$1,234.56") None sample_value).
  vm_compute. reflexivity.
Defined.

(** ** Whole numbers of smallest units *)

Lemma pow_finite p : (p <= 22)%nat -> exists m e, pow p = S754_finite false m e.
Proof.
  intros Hp. destruct (pow10_normal p Hp) as (m & e & E & _). eauto.
Qed.

Lemma four_places_zero s : four_places (S754_zero s) = Normal zero.
Proof. destruct s; vm_compute; reflexivity. Qed.

Lemma round_zero : round zero = zero.
Proof. reflexivity. Qed.

Section Whole.

Variables (p : nat) (k : Z).
Hypothesis Hp : (p <= 22)%nat.
Hypothesis Hk : Z.abs k <= 10 ^ 15.

(** [k / 10^p] as a number literal denotes it. *)
Let amount : number := Num.of_dec k (- Z.of_nat p).

Lemma amount_rnd :
  k <> 0 -> amount = Num.rnd (k <? 0) (Z.abs k) (10 ^ Z.of_nat p).
Proof.
  intros N. unfold amount. rewrite of_dec_rnd by lia.
  now rewrite Z.opp_involutive.
Qed.

Lemma signed_abs_Z : (if k <? 0 then - Z.abs k else Z.abs k) = k.
Proof. destruct (Z.ltb_spec k 0); lia. Qed.

Lemma scaled_whole :
  exists w, four_places (Num.mul amount (pow p)) = Normal w
            /\ round w = Num.of_Z k.
Proof.
  destruct (Z.eq_dec k 0) as [Z0|N].
  - unfold amount. rewrite Z0. cbn [Num.of_dec Num.of_Z].
    destruct (pow_finite p Hp) as (m & e & ->).
    exists zero. split; reflexivity.
  - rewrite amount_rnd by assumption. unfold pow.
    destruct (parse_value_back p (Z.abs k) (k <? 0) Hp ltac:(lia))
      as (w & Hw & Rw & _).
    exists w. split; [assumption|]. now rewrite Rw, signed_abs_Z.
Qed.

Lemma div_whole : Num.div (Num.of_Z k) (pow p) = amount.
Proof.
  destruct (Z.eq_dec k 0) as [Z0|N].
  - unfold amount. rewrite Z0. cbn [Num.of_dec Num.of_Z].
    destruct (pow_finite p Hp) as (m & e & ->). reflexivity.
  - rewrite amount_rnd by assumption. unfold pow.
    rewrite <- (div_i_P p (Z.abs k) (k <? 0) Hp ltac:(lia)).
    now rewrite signed_abs_Z.
Qed.

Lemma parse_whole st :
  precision st = p ->
  parse (INumber amount) st true = Normal (Num.of_Z k).
Proof.
  intros E. unfold parse, scaled. rewrite E. cbn [bind].
  destruct scaled_whole as (w & -> & R). cbn [bind]. now rewrite R.
Qed.

Lemma parse_whole_Currency st c :
  precision st = p -> value c = Some amount ->
  parse (ICurrency c) st true = Normal (Num.of_Z k).
Proof.
  intros E V. unfold parse, scaled. rewrite E, V. cbn [bind or_else].
  destruct scaled_whole as (w & -> & R). cbn [bind]. now rewrite R.
Qed.

Lemma new_Currency_whole opts :
  precision (assign defaults opts) = p ->
  exists x,
    new_Currency (INumber amount) opts = Normal x
    /\ intValue x = Some (Num.of_Z k)
    /\ value x = Some amount.
Proof.
  intros E. unfold new_Currency.
  rewrite (parse_whole _ E). cbn [bind]. rewrite E.
  eexists. split; [reflexivity|]. cbn [intValue value].
  now rewrite div_whole.
Qed.

End Whole.

(** X3.  With precision p at most 22 and an integer k with |k| <= 10^15,
    the constructor applied to the double nearest to k / 10^p returns a
    value with intValue k, whose value and toJSON() are that same double;
    constructing again from this Currency with the same options returns
    the same value. *)
Theorem constructor_exact (opts : option Partial) (k : Z) :
  let p := precision (assign defaults opts) in
  (p <= 22)%nat -> Z.abs k <= 10 ^ 15 ->
  exists x,
    new_Currency (INumber (Num.of_dec k (- Z.of_nat p))) opts = Normal x
    /\ intValue x = Some (Num.of_Z k)
    /\ value x = Some (Num.of_dec k (- Z.of_nat p))
    /\ toJSON x = Some (Num.of_dec k (- Z.of_nat p))
    /\ new_Currency (ICurrency x) opts = Normal x.
Proof.
  intros p Hp Hk.
  destruct (new_Currency_whole p k Hp Hk opts eq_refl) as (x & Hx & Hi & Hv).
  exists x. split; [exact Hx|]. split; [exact Hi|]. split; [exact Hv|].
  split; [exact Hv|].
  unfold new_Currency in *. fold p in Hx |- *.
  rewrite (parse_whole_Currency p k Hp Hk _ x eq_refl Hv).
  rewrite (parse_whole p k Hp Hk _ eq_refl) in Hx. exact Hx.
Qed.

Lemma constructor_exact_witness :
  exists x,
    new_Currency (INumber (Num.of_dec 123456 (-2))) None = Normal x
    /\ intValue x = Some (Num.of_Z 123456).
Proof.
  destruct (constructor_exact None 123456) as (x & H1 & H2 & _).
  - vm_compute. repeat constructor.
  - vm_compute. discriminate.
  - exists x. split; assumption.
Defined.

Section Exact.

Variables (val : input) (opts : option Partial) (x : Currency) (a : Z).
Hypothesis Hx : new_Currency val opts = Normal x.

Let p : nat := precision (assign defaults opts).

Hypothesis Hp : (p <= 22)%nat.
Hypothesis Hi : intValue x = Some (Num.of_Z a).
Hypothesis Ha : 0 < Z.abs a <= 10 ^ 15.

Lemma receiver_fields :
  exists st,
    _settings x = Some st /\ precision st = p
    /\ _precision x = Some (pow p)
    /\ Num.truthy (Num.of_Z a) = true /\ Num.truthy (pow p) = true
    /\ precision (assign defaults (Some (as_opts st))) = p.
Proof.
  destruct (new_Currency_fields _ _ _ Hx)
    as (v & inc & g & _ & _ & _ & Hs & Hpr & _).
  eexists. split; [exact Hs|]. split; [reflexivity|].
  split; [exact Hpr|].
  split; [exact (normal_truthy _ _ _ (of_Z_normal a ltac:(lia)))|].
  split; [exact (P_truthy p Hp)|].
  rewrite settled_assign. reflexivity.
Qed.

Lemma parse_operand number b st :
  precision st = p -> Z.abs b <= 10 ^ 15 ->
  operand number = Some (Num.of_dec b (- Z.of_nat p)) ->
  parse number st true = Normal (Num.of_Z b).
Proof.
  intros E Hb O. destruct number as [c|n|s|]; try discriminate O.
  - cbn [operand] in O. injection O as O.
    unfold parse, scaled. rewrite E, O. cbn [bind].
    destruct (scaled_whole p b Hp Hb) as (w & -> & R). cbn [bind].
    now rewrite R.
  - injection O as ->. now apply parse_whole.
Qed.

Lemma add_exact number b :
  operand number = Some (Num.of_dec b (- Z.of_nat p)) ->
  Z.abs b <= 10 ^ 15 -> Z.abs (a + b) <= 10 ^ 15 ->
  exists y,
    add x number = Normal y
    /\ new_Currency (INumber (Num.of_dec (a + b) (- Z.of_nat p)))
         (opts_of (_settings x)) = Normal y
    /\ intValue y = Some (Num.of_Z (a + b))
    /\ value y = Some (Num.of_dec (a + b) (- Z.of_nat p)).
Proof.
  intros O Hb Hab.
  destruct receiver_fields as (st & Hs & Ep & Hpr & Ti & Tp & Ep').
  unfold add. rewrite Hi, Hs, Hpr, Ti, Tp. cbn [andb opts_of option_map].
  rewrite (parse_operand _ _ _ Ep Hb O). cbn [bind].
  rewrite add_of_Z by lia.
  rewrite (div_whole p (a + b) Hp Hab).
  destruct (new_Currency_whole p (a + b) Hp Hab _ Ep') as (y & E & I & V).
  exists y. auto.
Qed.

Lemma subtract_exact number b :
  operand number = Some (Num.of_dec b (- Z.of_nat p)) ->
  Z.abs b <= 10 ^ 15 -> Z.abs (a - b) <= 10 ^ 15 ->
  exists y,
    subtract x number = Normal y
    /\ new_Currency (INumber (Num.of_dec (a - b) (- Z.of_nat p)))
         (opts_of (_settings x)) = Normal y
    /\ intValue y = Some (Num.of_Z (a - b))
    /\ value y = Some (Num.of_dec (a - b) (- Z.of_nat p)).
Proof.
  intros O Hb Hab.
  destruct receiver_fields as (st & Hs & Ep & Hpr & Ti & Tp & Ep').
  unfold subtract. rewrite Hi, Hs, Hpr, Ti, Tp. cbn [andb opts_of option_map].
  rewrite (parse_operand _ _ _ Ep Hb O). cbn [bind].
  rewrite sub_of_Z by lia.
  rewrite (div_whole p (a - b) Hp Hab).
  destruct (new_Currency_whole p (a - b) Hp Hab _ Ep') as (y & E & I & V).
  exists y. auto.
Qed.

Lemma new_Currency_signed_zero s o :
  precision (assign defaults o) = p ->
  exists y,
    new_Currency (INumber (S754_zero s)) o = Normal y
    /\ intValue y = Some (Num.of_Z 0)
    /\ value y = Some (Num.of_dec 0 (- Z.of_nat p)).
Proof.
  intros E. unfold new_Currency, parse, scaled. rewrite E. cbn [bind].
  destruct (pow_finite p Hp) as (m & e & ->).
  cbn [Num.mul SFmul]. rewrite four_places_zero. cbn [bind].
  eexists. split; [reflexivity|]. split; reflexivity.
Qed.

Lemma multiply_exact m :
  Z.abs (a * m) <= 10 ^ 15 ->
  exists y,
    multiply x (Num.of_Z m) = Normal (Some y)
    /\ (m <> 0 ->
        new_Currency (INumber (Num.of_dec (a * m) (- Z.of_nat p)))
          (opts_of (_settings x)) = Normal y)
    /\ intValue y = Some (Num.of_Z (a * m))
    /\ value y = Some (Num.of_dec (a * m) (- Z.of_nat p)).
Proof.
  intros Ham.
  destruct receiver_fields as (st & Hs & Ep & Hpr & Ti & Tp & Ep').
  unfold multiply. rewrite Hi, Hs, Ti, Ep. cbn [opts_of option_map].
  destruct (Z.eq_dec m 0) as [->|Nm].
  - rewrite Z.mul_0_r.
    destruct (of_Z_finite a ltac:(lia)) as (ma & ea & ->).
    destruct (pow_finite p Hp) as (mp & ep & Epow).
    cbn [Num.of_Z Num.mul SFmul]. rewrite Epow. cbn [Num.div SFdiv].
    destruct (new_Currency_signed_zero (xorb (xorb (a <? 0) false) false)
                (Some (as_opts st)) Ep') as (y & -> & Iy & Vy).
    cbn [bind]. exists y. repeat split; auto. intros N. now elim N.
  - rewrite mul_of_Z by nia.
    rewrite (div_whole p (a * m) Hp Ham).
    destruct (new_Currency_whole p (a * m) Hp Ham _ Ep') as (y & E & Iy & Vy).
    rewrite E. cbn [bind]. exists y. auto.
Qed.

End Exact.

Lemma four_places_of_Z N :
  Z.abs N <= 10 ^ 15 -> four_places (Num.of_Z N) = Normal (Num.of_Z N).
Proof.
  intros HN. destruct (Z.eq_dec N 0) as [->|NZ]; [reflexivity|].
  pose proof (of_Z_normal N ltac:(lia)) as Hn.
  unfold four_places.
  assert (B : (inject_Z (Z.abs N) <= inject_Z (10 ^ 15))%Q)
    by (rewrite <- Zle_Qle; lia).
  rewrite (toFixed_normal _ _ _ 4 (Z.abs N * 10 ^ 4) Hn).
  - cbn [bind]. rewrite stringToNumber_fixed by lia.
    unfold Conv.of_sign_dec.
    destruct (Z.eqb_spec (Z.abs N * 10 ^ 4) 0) as [E|_]; [lia|].
    rewrite (of_Z_rnd N) by lia.
    f_equal. apply rnd_ext; try lia.
    change (Z.max 0 (- Z.of_nat 4)) with 0.
    change (Z.max 0 (- - Z.of_nat 4)) with 4. lia.
  - repeat constructor.
  - apply Qle_lt_trans with (1 := B). rewrite <- Zlt_Qlt. reflexivity.
  - rewrite inject_Z_mult. change (Z.of_nat 4) with 4. lra.
Qed.

Section Divide.

Variables (val : input) (opts : option Partial) (x : Currency) (a : Z).
Hypothesis Hx : new_Currency val opts = Normal x.

Let p : nat := precision (assign defaults opts).

Hypothesis Hp : (p <= 22)%nat.
Hypothesis Hi : intValue x = Some (Num.of_Z a).
Hypothesis Ha : 0 < Z.abs a <= 10 ^ 15.

Lemma pow_pos_Z : 0 < 10 ^ Z.of_nat p.
Proof. apply Z.pow_pos_nonneg; lia. Qed.

Lemma scale_of_Z d :
  0 < Z.abs d < 2 ^ 53 ->
  Num.mul (Num.of_Z d) (pow p) = Num.of_Z (d * 10 ^ Z.of_nat p).
Proof.
  intros Hd. pose proof pow_pos_Z as HT.
  rewrite (of_Z_rnd (d * 10 ^ Z.of_nat p)) by nia.
  replace (d * 10 ^ Z.of_nat p <? 0) with (xorb (d <? 0) false)
    by (rewrite xorb_false_r;
        destruct (Z.ltb_spec d 0), (Z.ltb_spec (d * 10 ^ Z.of_nat p) 0);
        try reflexivity; nia).
  apply (mul_normal _ _ _ _ _ _ _ _ (of_Z_normal d Hd) (pow10_normal p Hp));
    try nia.
  rewrite ratio_1, Z.abs_mul, inject_Z_mult.
  now rewrite (Z.abs_eq (10 ^ Z.of_nat p)) by lia.
Qed.

Lemma parse_divisor number d st :
  precision st = p ->
  operand number = Some (Num.of_Z d) ->
  0 < Z.abs d -> Z.abs d * 10 ^ Z.of_nat p <= 10 ^ 15 ->
  parse number st false = Normal (Num.of_Z (d * 10 ^ Z.of_nat p)).
Proof.
  intros E O Hd B. pose proof pow_pos_Z as HT.
  assert (P : forall v, v = Num.of_Z d ->
            (w <- four_places (Num.mul v (pow p)) ;; Normal w)
            = Normal (Num.of_Z (d * 10 ^ Z.of_nat p))).
  { intros v ->. rewrite scale_of_Z by nia.
    rewrite four_places_of_Z by (rewrite Z.abs_mul; lia). reflexivity. }
  destruct number as [c|n|s|]; try discriminate O;
    cbn [operand] in O; injection O as O;
    unfold parse, scaled; rewrite E; cbn [bind]; now apply P.
Qed.

Lemma divide_exact number d q :
  operand number = Some (Num.of_Z d) ->
  a = d * q -> Z.abs d * 10 ^ Z.of_nat p <= 10 ^ 15 ->
  exists y,
    divide x number = Normal (Some y)
    /\ new_Currency (INumber (Num.of_dec q (- Z.of_nat p)))
         (opts_of (_settings x)) = Normal y
    /\ intValue y = Some (Num.of_Z q)
    /\ value y = Some (Num.of_dec q (- Z.of_nat p)).
Proof.
  intros O E B. pose proof pow_pos_Z as HT.
  assert (Hd : 0 < Z.abs d)
    by (destruct (Z.eq_dec d 0) as [->|]; [rewrite Z.mul_0_l in E|]; lia).
  assert (Hq : 0 < Z.abs q <= 10 ^ 15).
  { destruct (Z.eq_dec q 0) as [->|]; [rewrite Z.mul_0_r in E; lia|].
    rewrite E, Z.abs_mul in Ha. nia. }
  destruct (receiver_fields val opts x a Hx Hp Ha)
    as (st & Hs & Ep & Hpr & Ti & Tp & Ep').
  fold p in Ep, Ep'.
  unfold divide. rewrite Hi, Hs, Ti. cbn [opts_of option_map].
  rewrite (parse_divisor _ _ _ Ep O Hd B). cbn [bind].
  rewrite div_of_Z by nia.
  assert (R : Num.rnd (xorb (a <? 0) (d * 10 ^ Z.of_nat p <? 0))
                (Z.abs a) (Z.abs (d * 10 ^ Z.of_nat p))
              = Num.of_dec q (- Z.of_nat p)).
  { rewrite (amount_rnd p q) by lia.
    replace (xorb (a <? 0) (d * 10 ^ Z.of_nat p <? 0)) with (q <? 0)
      by (destruct (Z.ltb_spec a 0), (Z.ltb_spec (d * 10 ^ Z.of_nat p) 0),
            (Z.ltb_spec q 0); try reflexivity; nia).
    apply rnd_ext; nia. }
  rewrite R.
  destruct (new_Currency_whole p q Hp ltac:(lia) _ Ep') as (y & Ey & Iy & Vy).
  rewrite Ey. cbn [bind]. exists y. auto.
Qed.

End Divide.

Lemma int32_small z : - 2 ^ 31 <= z < 2 ^ 31 -> int32 z = z.
Proof.
  intros H. unfold int32.
  change (2 ^ 32) with 4294967296 in *. change (2 ^ 31) with 2147483648 in *.
  destruct (Z.leb_spec 2147483648 (z mod 4294967296));
    Z.to_euclidean_division_equations; lia.
Qed.

(** The integer part of a finite number, toward zero. *)
Lemma quot_finite s m e K :
  (inject_Z K <= inject_Z (Zpos m) * q2 e < inject_Z K + 1)%Q -> 0 <= K ->
  Z.quot (Num.fnum (S754_finite s m e)) (Num.fden (S754_finite s m e))
  = cond_Zopp s K.
Proof.
  intros [L U] HK. cbn [Num.fnum Num.fden].
  set (A := Num.up (Zpos m) e). set (B := Num.up 1 (- e)).
  assert (HB : 0 < B) by (apply up_pos; lia).
  assert (HA : 0 < A) by (apply up_pos; lia).
  pose proof (ratio_finite m e) as R. fold A B in R.
  assert (L' : K * B <= A) by (apply ratio_ge_Z; [assumption|now rewrite R]).
  assert (U' : A < (K + 1) * B).
  { destruct (Z_lt_le_dec A ((K + 1) * B)) as [|C]; [assumption|exfalso].
    apply (ratio_ge_Z A B (K + 1) HB) in C. rewrite R in C.
    rewrite inject_Z_plus in C. change (inject_Z 1) with 1%Q in C. lra. }
  assert (Q : A / B = K) by (symmetry; apply Z.div_unique with (A - K * B); lia).
  destruct s; cbn [cond_Zopp].
  - rewrite Z.quot_opp_l by lia. rewrite Z.quot_div_nonneg by lia. now rewrite Q.
  - rewrite Z.quot_div_nonneg by lia. exact Q.
Qed.

Lemma toInt32_finite s m e K :
  (inject_Z K <= inject_Z (Zpos m) * q2 e < inject_Z K + 1)%Q -> 0 <= K ->
  Num.toInt32 (S754_finite s m e) = int32 (cond_Zopp s K).
Proof.
  intros H HK. unfold Num.toInt32. now rewrite (quot_finite s m e K H HK).
Qed.

Lemma toInt32_of_Z c : Z.abs c < 2 ^ 53 -> Num.toInt32 (Num.of_Z c) = int32 c.
Proof.
  intros Hc. destruct (Z.eq_dec c 0) as [->|N]; [reflexivity|].
  destruct (of_Z_normal c ltac:(lia)) as (m & e & -> & _ & E).
  rewrite (toInt32_finite _ m e (Z.abs c)); [|rewrite E; lra|lia].
  f_equal. destruct (Z.ltb_spec c 0); cbn [cond_Zopp]; lia.
Qed.

Lemma dbl_not_of_Z c :
  - 2 ^ 31 <= c < 2 ^ 31 -> Num.dbl_not (Num.of_Z c) = Num.of_Z c.
Proof.
  intros H. unfold Num.dbl_not. rewrite toInt32_of_Z by lia.
  now rewrite int32_small.
Qed.

Section Split.

Variables (p : nat) (n : Z) (s : bool).
Hypothesis Hp : (p <= 22)%nat.
Hypothesis Hn : 0 < n <= 10 ^ 15.

Let T : Z := 10 ^ Z.of_nat p.

(** The quotient [n / 10^p] rounded to a double has the integer part of
    the exact quotient. *)
Lemma toInt32_quotient :
  Num.toInt32 (Num.rnd s n T) = int32 (cond_Zopp s (n / T)).
Proof.
  pose proof (T_pos p Hp) as HT. fold T in HT.
  pose proof (Z.div_mod n T ltac:(lia)) as DM.
  pose proof (Z.mod_pos_bound n T HT) as MB.
  assert (K0 : 0 <= n / T) by (apply Z.div_pos; lia).
  destruct (Z.eq_dec (n mod T) 0) as [R0|RN].
  - assert (K1 : 0 < n / T) by nia.
    rewrite (rnd_ext s n T (n / T) 1) by nia.
    replace (Num.rnd s (n / T) 1) with (Num.of_Z (cond_Zopp s (n / T))).
    + apply toInt32_of_Z.
      assert (n / T <= n) by (apply Z.div_le_upper_bound; nia).
      destruct s; cbn [cond_Zopp]; lia.
    + rewrite of_Z_rnd by (destruct s; cbn [cond_Zopp]; lia).
      destruct s; cbn [cond_Zopp]; f_equal;
        try (symmetry; apply Z.ltb_lt; lia);
        try (symmetry; apply Z.ltb_ge; lia); lia.
  - destruct (v_normal p n s Hp Hn) as (q & (m & e & E & _ & Em) & Err).
    fold T in E, Err. rewrite E.
    apply toInt32_finite; [|assumption].
    rewrite Em.
    pose proof (T_bounds p Hp) as TB. fold T in TB.
    assert (NB : (1 <= inject_Z n <= 1000000000000000)%Q).
    { split; [change 1%Q with (inject_Z 1)
             |change 1000000000000000%Q with (inject_Z (10 ^ 15))];
        rewrite <- Zle_Qle; lia. }
    assert (En : (inject_Z n == inject_Z T * inject_Z (n / T)
                               + inject_Z (n mod T))%Q)
      by (rewrite <- inject_Z_mult, <- inject_Z_plus; now rewrite <- DM).
    assert (Rl : (1 <= inject_Z (n mod T))%Q)
      by (change 1%Q with (inject_Z 1); rewrite <- Zle_Qle; lia).
    assert (Ru : (inject_Z (n mod T) <= inject_Z T - 1)%Q).
    { change 1%Q with (inject_Z 1). unfold Qminus.
      rewrite <- inject_Z_opp, <- inject_Z_plus, <- Zle_Qle. lia. }
    norm_u.
    apply Qabs_Qle_condition in Err. destruct Err as [E1 E2].
    set (tq := inject_Z T) in *. set (kq := inject_Z (n / T)) in *.
    set (rq := inject_Z (n mod T)) in *. set (nq := inject_Z n) in *.
    split; nra.
Qed.

End Split.

(** An integer in a finite number: the significand shifted to a common
    exponent. *)
Lemma up_integer m e ez k :
  ez <= e -> ez <= 0 -> (inject_Z (Zpos m) * q2 e == inject_Z k)%Q ->
  Num.up (Zpos m) (e - ez) = k * 2 ^ (- ez).
Proof.
  intros H1 H2 E.
  apply inject_Z_injective. rewrite inject_Z_mult, q2_Z by lia.
  rewrite <- E.
  rewrite <- (inject_up_shift (Zpos m) e ez) by lia.
  pose proof (q2_inv ez) as I.
  set (u := inject_Z (Num.up (Z.pos m) (e - ez))) in *.
  rewrite <- Qmult_assoc, I. ring.
Qed.

Lemma normal_exp_neg x s k :
  normal x s (inject_Z k) -> k < 2 ^ 52 ->
  exists m e, x = S754_finite s m e /\ e < 0
              /\ (inject_Z (Zpos m) * q2 e == inject_Z k)%Q.
Proof.
  intros (m & e & -> & [Lm _] & E) Hk.
  exists m, e. split; [reflexivity|]. split; [|assumption].
  apply q2_lt_inv. rewrite q2_0.
  assert (A : (inject_Z (2 ^ 52) <= inject_Z (Zpos m))%Q)
    by (rewrite <- Zle_Qle; assumption).
  assert (B : (inject_Z k < inject_Z (2 ^ 52))%Q)
    by (rewrite <- Zlt_Qlt; assumption).
  pose proof (q2_pos e) as Pe.
  change (inject_Z (2 ^ 52)) with 4503599627370496%Q in A, B.
  set (mq := inject_Z (Zpos m)) in *. set (kq := inject_Z k) in *.
  nra.
Qed.

Section Remainder.

Variables (p : nat) (n : Z) (s : bool).
Hypothesis Hp : (p <= 22)%nat.
Hypothesis Hn : 0 < n <= 10 ^ 15.

Let T : Z := 10 ^ Z.of_nat p.

Lemma toInt32_rem :
  Num.toInt32 (Num.rem (Num.of_Z (if s then - n else n)) (Num.pow10 p))
  = int32 (cond_Zopp s (n mod T)).
Proof.
  pose proof (T_pos p Hp) as HT. fold T in HT.
  pose proof (Z.mod_pos_bound n T HT) as MB.
  assert (Hn52 : n < 2 ^ 52) by lia.
  destruct (normal_exp_neg _ _ _ (i_normal p n s Hp Hn) Hn52)
    as (mi & ei & -> & Ne & Ei).
  destruct (pow10_normal p Hp) as (mP & eP & -> & _ & EP). fold T in EP.
  cbn [Num.rem]. set (ez := Z.min ei eP).
  assert (Hz : ez <= 0) by (unfold ez; lia).
  rewrite (up_integer mi ei ez n) by (unfold ez; lia || assumption).
  rewrite (up_integer mP eP ez T) by (unfold ez; lia || assumption).
  assert (P2 : 0 < 2 ^ (- ez)) by (apply Z.pow_pos_nonneg; lia).
  rewrite Z.mul_mod_distr_r by lia.
  destruct (Z.eqb_spec (n mod T * 2 ^ (- ez)) 0) as [Z0|NZ].
  - assert (n mod T = 0) by nia.
    replace (n mod T) with 0 by lia. now destruct s.
  - assert (0 < n mod T) by nia.
    assert (n mod T <= n) by (apply Z.mod_le; lia).
    rewrite (up_nonpos_exp _ ez) by lia.
    rewrite (up_nonneg_exp 1 (- ez)) by lia. rewrite Z.mul_1_l.
    rewrite (rnd_ext s _ _ (n mod T) 1) by nia.
    replace (Num.rnd s (n mod T) 1) with (Num.of_Z (cond_Zopp s (n mod T))).
    + apply toInt32_of_Z. destruct s; cbn [cond_Zopp]; lia.
    + rewrite of_Z_rnd by (destruct s; cbn [cond_Zopp]; lia).
      destruct s; cbn [cond_Zopp]; f_equal;
        try (symmetry; apply Z.ltb_lt; lia);
        try (symmetry; apply Z.ltb_ge; lia); lia.
Qed.

End Remainder.

(** X4.  For a constructed value with precision p at most 22 and integer
    intValue a, 0 < |a| <= 10^15, and T = 10^p: dollars() is ToInt32 of a
    divided by T truncated toward zero, cents() is ToInt32 of the
    remainder (which has the sign of a), and a = T * quotient + remainder.
    ToInt32 changes nothing when |a| < 2^31 * T (dollars) and when T <=
    2^31 (cents); beyond that it wraps modulo 2^32. *)
Theorem dollars_cents_split
    (val : input) (opts : option Partial) (x : Currency) (a : Z) :
  let T := 10 ^ Z.of_nat (precision (assign defaults opts)) in
  new_Currency val opts = Normal x ->
  intValue x = Some (Num.of_Z a) ->
  (precision (assign defaults opts) <= 22)%nat ->
  0 < Z.abs a <= 10 ^ 15 ->
  dollars x = Some (Num.of_Z (int32 (Z.quot a T)))
  /\ cents x = Some (Num.of_Z (int32 (Z.rem a T)))
  /\ a = T * Z.quot a T + Z.rem a T
  /\ (Z.abs a < 2 ^ 31 * T -> int32 (Z.quot a T) = Z.quot a T)
  /\ (T <= 2 ^ 31 -> int32 (Z.rem a T) = Z.rem a T).
Proof.
  intros T Hx Hi Hp Ha.
  set (p := precision (assign defaults opts)) in *.
  pose proof (T_pos p Hp) as HT. fold T in HT.
  destruct (new_Currency_fields _ _ _ Hx)
    as (v & inc & g & _ & Hi' & Hv & _ & Hpr & _).
  fold p in Hv, Hpr. rewrite Hi in Hi'. injection Hi' as <-.
  set (s := a <? 0). set (n := Z.abs a).
  assert (Es : (if s then - n else n) = a)
    by (unfold s, n; destruct (Z.ltb_spec a 0); lia).
  assert (Eq : Z.quot a T = cond_Zopp s (n / T)).
  { unfold s, n. destruct (Z.ltb_spec a 0); cbn [cond_Zopp].
    - rewrite <- (Z.opp_involutive a) at 1.
      rewrite Z.quot_opp_l by lia. rewrite Z.quot_div_nonneg by lia.
      now rewrite Z.abs_neq by lia.
    - rewrite Z.quot_div_nonneg by lia. now rewrite Z.abs_eq by lia. }
  assert (Er : Z.rem a T = cond_Zopp s (n mod T)).
  { unfold s, n. destruct (Z.ltb_spec a 0); cbn [cond_Zopp].
    - rewrite <- (Z.opp_involutive a) at 1.
      rewrite Z.rem_opp_l by lia. rewrite Z.rem_mod_nonneg by lia.
      now rewrite Z.abs_neq by lia.
    - rewrite Z.rem_mod_nonneg by lia. now rewrite Z.abs_eq by lia. }
  split; [|split; [|split; [|split]]].
  - unfold dollars. rewrite Hv. unfold pow.
    rewrite <- Es, (div_i_P p n s Hp ltac:(unfold n; lia)).
    destruct (v_normal p n s Hp ltac:(unfold n; lia)) as (q & Nq & _).
    rewrite (normal_truthy _ _ _ Nq). unfold Num.dbl_not.
    rewrite (toInt32_quotient p n s Hp ltac:(unfold n; lia)).
    fold T. now rewrite Es, Eq.
  - unfold cents. rewrite Hi, Hpr. unfold pow.
    rewrite (normal_truthy _ _ _ (of_Z_normal a ltac:(lia))).
    rewrite (P_truthy p Hp). cbn [andb]. unfold Num.dbl_not.
    rewrite <- Es at 1.
    rewrite (toInt32_rem p n s Hp ltac:(unfold n; lia)).
    fold T. now rewrite Er.
  - apply Z.quot_rem'.
  - intros B. apply int32_small.
    assert (Z.abs (Z.quot a T) < 2 ^ 31).
    { rewrite Eq. assert (n / T < 2 ^ 31)
        by (apply Z.div_lt_upper_bound; unfold n; lia).
      assert (0 <= n / T) by (apply Z.div_pos; unfold n; lia).
      destruct s; cbn [cond_Zopp]; lia. }
    lia.
  - intros B. apply int32_small.
    pose proof (Z.mod_pos_bound n T HT). rewrite Er.
    destruct s; cbn [cond_Zopp]; lia.
Qed.

Lemma dollars_cents_split_witness :
  dollars sample_value = Some (Num.of_Z (int32 (Z.quot 123456 (10 ^ 2))))
  /\ cents sample_value = Some (Num.of_Z (int32 (Z.rem 123456 (10 ^ 2)))).
Proof.
  destruct (dollars_cents_split (IString "$1,234.56") None sample_value 123456)
    as (D & C & _).
  - vm_compute. reflexivity.
  - reflexivity.
  - vm_compute. repeat constructor.
  - vm_compute. split; [reflexivity|discriminate].
  - split; [exact D|exact C].
Defined.

(** ** The text of a value *)

Lemma fixed_parts n p :
  0 <= n ->
  exists ip fp,
    Conv.fixed n p = ip ++ match p with O => "" | _ => String "." fp end
    /\ all_chars Str.is_digit ip = true /\ ip <> ""
    /\ all_chars Str.is_digit fp = true /\ String.length fp = p
    /\ Str.digits_val 10 0 (ip ++ fp) = n.
Proof.
  intros Hn. destruct p as [|p'].
  - exists (Str.digits n), "".
    destruct (digits_spec n Hn) as (V & D & N).
    rewrite fixed_0, !append_nil_r. repeat split; assumption || reflexivity.
  - destruct (fixed_spec n (S p') Hn ltac:(discriminate))
      as (ip & fp & E & Dip & Nip & Dfp & Lfp & V).
    exists ip, fp. repeat split; assumption.
Qed.

Section Text.

Variables (val : input) (opts : option Partial) (x : Currency) (a : Z).

Let st : defaultsTypes := assign defaults opts.
Let p : nat := precision st.

Hypothesis Hx : new_Currency val opts = Normal x.
Hypothesis Hi : intValue x = Some (Num.of_Z a).
Hypothesis Hinc : truthy (increment st) = false.
Hypothesis Hp : (p <= 22)%nat.
Hypothesis Ha : 0 < Z.abs a <= 10 ^ 15.

Lemma signed_abs_a : (if a <? 0 then - Z.abs a else Z.abs a) = a.
Proof. destruct (Z.ltb_spec a 0); lia. Qed.

Lemma toString_fixed :
  toString x
  = Normal (Some ((if a <? 0 then "-" else "") ++ Conv.fixed (Z.abs a) p)).
Proof.
  destruct (new_Currency_fields _ _ _ Hx)
    as (v & inc & g & _ & _ & _ & Hs & Hpr & Einc & _).
  fold st p in Hs, Hpr, Einc. rewrite Hinc in Einc.
  unfold toString. rewrite Hi, Hs, Hpr.
  cbn [increment precision with_increment_groups truthy or_else].
  rewrite Einc. unfold pow.
  rewrite (normal_truthy _ _ _ (of_Z_normal a ltac:(lia))).
  rewrite (inc_truthy p Hp), (P_truthy p Hp). cbn [andb].
  pose proof (toFixed_rounding p (Z.abs a) (a <? 0) Hp ltac:(lia)) as TF.
  rewrite signed_abs_a in TF. fold st p. rewrite TF. reflexivity.
Qed.

Lemma value_shape :
  exists q,
    value x = Some (Num.rnd (a <? 0) (Z.abs a) (10 ^ Z.of_nat p))
    /\ normal (Num.rnd (a <? 0) (Z.abs a) (10 ^ Z.of_nat p)) (a <? 0) q.
Proof.
  destruct (new_Currency_fields _ _ _ Hx)
    as (v & inc & g & _ & Hi' & Hv & _).
  fold st p in Hv. rewrite Hi in Hi'. injection Hi' as <-.
  destruct (v_normal p (Z.abs a) (a <? 0) Hp ltac:(lia)) as (q & Nq & _).
  exists q. split; [|exact Nq].
  rewrite Hv. unfold pow.
  rewrite <- (div_i_P p (Z.abs a) (a <? 0) Hp ltac:(lia)).
  now rewrite signed_abs_a.
Qed.

End Text.

(** X5.  For a constructed value whose options give no (truthy) increment,
    with precision p at most 22 and integer intValue a, 0 < |a| <= 10^15,
    toString() returns a minus sign exactly when a < 0, then a non-empty
    run of digits, then, when p > 0, a point and exactly p digits; the
    digits read as one decimal integer are |a|. *)
Theorem toString_exact
    (val : input) (opts : option Partial) (x : Currency) (a : Z) :
  let p := precision (assign defaults opts) in
  new_Currency val opts = Normal x ->
  intValue x = Some (Num.of_Z a) ->
  truthy (increment (assign defaults opts)) = false ->
  (p <= 22)%nat -> 0 < Z.abs a <= 10 ^ 15 ->
  exists ip fp,
    toString x
    = Normal (Some ((if a <? 0 then "-" else "") ++ ip
                    ++ match p with O => "" | _ => String "." fp end))
    /\ all_chars Str.is_digit ip = true /\ ip <> ""
    /\ all_chars Str.is_digit fp = true /\ String.length fp = p
    /\ Str.digits_val 10 0 (ip ++ fp) = Z.abs a.
Proof.
  intros p Hx Hi Hinc Hp Ha.
  rewrite (toString_fixed val opts x a Hx Hi Hinc Hp Ha). fold p.
  destruct (fixed_parts (Z.abs a) p ltac:(lia)) as (ip & fp & -> & F).
  exists ip, fp. split; [reflexivity|exact F].
Qed.

Lemma toString_exact_witness :
  exists ip fp,
    toString sample_value = Normal (Some ("" ++ ip ++ String "." fp))
    /\ Str.digits_val 10 0 (ip ++ fp) = 123456.
Proof.
  destruct (toString_exact (IString "$1,234.56") None sample_value 123456)
    as (ip & fp & T & _ & _ & _ & _ & V).
  - vm_compute. reflexivity.
  - reflexivity.
  - reflexivity.
  - vm_compute. repeat constructor.
  - vm_compute. split; [reflexivity|discriminate].
  - exists ip, fp. split; [exact T|exact V].
Defined.

(** ** Strings that spell an amount *)

Lemma digits_val_nonneg s :
  all_chars Str.is_digit s = true -> 0 <= Str.digits_val 10 0 s.
Proof.
  assert (G : forall s acc, all_chars Str.is_digit s = true -> 0 <= acc ->
                            0 <= Str.digits_val 10 acc s).
  { clear s. induction s as [|c r IH]; intros acc H A; [assumption|].
    cbn [all_chars Str.digits_val] in *. apply andb_prop in H as [H1 H2].
    apply IH; [assumption|].
    unfold Str.is_digit, Str.digit_val in *. lia. }
  intros H. apply G; [assumption|lia].
Qed.

Section Numeral.

Variables (opts : option Partial) (neg : bool) (ip : string)
          (frac : option string).

Let st : defaultsTypes := assign defaults opts.
Let p : nat := precision st.
Let d : ascii := decimal st.
Let fp : string := or_else frac "".
Let D : Z := Str.digits_val 10 0 (ip ++ fp).
Let k : Z := D * 10 ^ (Z.of_nat p - Str.len fp).

Hypothesis Hd : plain_decimal d = true.
Hypothesis Hp : (p <= 22)%nat.
Hypothesis Hip : all_chars Str.is_digit ip = true.
Hypothesis Nip : ip <> "".
Hypothesis Hfp : all_chars Str.is_digit fp = true.
Hypothesis Lfp : (String.length fp <= p)%nat.
Hypothesis Hk : k <= 10 ^ 15.

Let sign : string := if neg then "-" else "".

Lemma numeral_cleaned s :
  all_chars (not_char "(") s = true ->
  Str.filter (kept d) s
  = sign ++ ip ++ match frac with Some f => String d f | None => "" end ->
  Conv.stringToNumber
    (Str.map (to_point d) (Str.filter (kept d) (Str.replace_parens s)))
  = Conv.of_sign_dec neg D (- Str.len fp).
Proof.
  intros Hs F. rewrite (replace_parens_none s Hs), F.
  destruct (decimal_facts d Hd) as (_ & Dm & _).
  destruct (digits_props d Hd ip Hip) as (_ & Mi & _).
  destruct (digits_props d Hd fp Hfp) as (_ & Mf & _).
  assert (Ms : Str.map (to_point d) sign = sign).
  { unfold sign. destruct neg; [|reflexivity].
    cbn [Str.map]. unfold to_point. rewrite Ascii.eqb_sym, Dm. reflexivity. }
  rewrite !map_append, Ms, Mi. unfold D, fp in *.
  destruct frac as [f|]; cbn [or_else] in *.
  - cbn [Str.map]. rewrite Mf. unfold to_point. rewrite Ascii.eqb_refl.
    unfold sign. apply (stringToNumber_point neg ip f Hip Nip Hfp).
  - cbn [Str.map]. rewrite !append_nil_r.
    unfold sign. apply (stringToNumber_int neg ip Hip Nip).
Qed.

Lemma numeral_parses s :
  all_chars (not_char "(") s = true ->
  Str.filter (kept d) s
  = sign ++ ip ++ match frac with Some f => String d f | None => "" end ->
  parse (IString s) st true = Normal (Num.of_Z (cond_Zopp neg k)).
Proof.
  intros Hs F. unfold parse, scaled. fold d p.
  rewrite (decimal_not_backslash d Hd).
  rewrite (numeral_cleaned s Hs F).
  assert (D0 : 0 <= D)
    by (apply digits_val_nonneg; rewrite all_chars_append; now rewrite Hip, Hfp).
  assert (P10 : 0 < 10 ^ (Z.of_nat p - Str.len fp))
    by (apply Z.pow_pos_nonneg; unfold Str.len; lia).
  unfold Conv.of_sign_dec.
  destruct (Z.eqb_spec D 0) as [Z0|NZ].
  - destruct (pow_finite p Hp) as (m & e & ->).
    cbn [Num.mul SFmul Num.truthy bind]. unfold zero at 1.
    rewrite four_places_zero.
    cbn [bind]. unfold k. rewrite Z0. now destruct neg.
  - rewrite (Z.max_l 0 (- Str.len fp)) by (unfold Str.len; lia).
    rewrite (Z.max_r 0 (- - Str.len fp)) by (unfold Str.len; lia).
    rewrite Z.opp_involutive. change (10 ^ 0) with 1. rewrite Z.mul_1_r.
    assert (Hk' : 0 < k <= 10 ^ 15) by (unfold k; nia).
    assert (P10' : 0 < 10 ^ Str.len fp)
      by (apply Z.pow_pos_nonneg; unfold Str.len; lia).
    assert (PT : 0 < 10 ^ Z.of_nat p) by (apply Z.pow_pos_nonneg; lia).
    assert (EQ : D * 10 ^ Z.of_nat p = k * 10 ^ Str.len fp).
    { unfold k. rewrite <- Z.mul_assoc, <- Z.pow_add_r
        by (unfold Str.len; lia).
      f_equal. f_equal. lia. }
    rewrite (rnd_ext neg D (10 ^ Str.len fp) k (10 ^ Z.of_nat p)) by lia.
    unfold pow.
    destruct (parse_value_back p k neg Hp Hk') as (w & Hw & Rw & Tw).
    rewrite Tw. cbn [bind]. rewrite Hw. cbn [bind]. rewrite Rw.
    now destruct neg.
Qed.

Lemma numeral_constructs s :
  all_chars (not_char "(") s = true ->
  Str.filter (kept d) s
  = sign ++ ip ++ match frac with Some f => String d f | None => "" end ->
  exists x,
    new_Currency (IString s) opts = Normal x
    /\ intValue x = Some (Num.of_Z (cond_Zopp neg k))
    /\ value x = Some (Num.of_dec (cond_Zopp neg k) (- Z.of_nat p)).
Proof.
  intros Hs F.
  assert (D0 : 0 <= D)
    by (apply digits_val_nonneg; rewrite all_chars_append; now rewrite Hip, Hfp).
  assert (P10 : 0 < 10 ^ (Z.of_nat p - Str.len fp))
    by (apply Z.pow_pos_nonneg; unfold Str.len; lia).
  assert (K0 : 0 <= k) by (unfold k; nia).
  unfold new_Currency. cbv zeta. fold st. rewrite (numeral_parses s Hs F).
  cbn [bind]. fold p.
  eexists. split; [reflexivity|]. cbn [intValue value]. split; [reflexivity|].
  rewrite (div_whole p (cond_Zopp neg k) Hp); [reflexivity|].
  destruct neg; cbn [cond_Zopp]; lia.
Qed.

End Numeral.

(** X6.  Let the decimal character be none of a word character, backslash,
    ], -, $ or (, and the precision p at most 22. A string without ( whose
    characters other than digits, minus signs and the decimal character
    are dropped, leaving an optional minus sign, a non-empty run of digits
    ip and optionally the decimal character with at most p digits fp,
    constructs exactly the value of that amount: intValue is the integer
    ip fp padded with zeros to p fraction digits (at most 10^15), negated
    under the minus sign, and value is the double nearest to it over 10^p. *)
Theorem string_amount_exact
    (opts : option Partial) (neg : bool) (ip : string) (frac : option string)
    (s : string) :
  let st := assign defaults opts in
  let p := precision st in
  let fp := or_else frac "" in
  let k := Str.digits_val 10 0 (ip ++ fp) * 10 ^ (Z.of_nat p - Str.len fp) in
  plain_decimal (decimal st) = true ->
  (p <= 22)%nat ->
  all_chars Str.is_digit ip = true -> ip <> "" ->
  all_chars Str.is_digit fp = true -> (String.length fp <= p)%nat ->
  k <= 10 ^ 15 ->
  all_chars (not_char "(") s = true ->
  Str.filter (kept (decimal st)) s
  = (if neg then "-" else "") ++ ip
    ++ match frac with Some f => String (decimal st) f | None => "" end ->
  exists x,
    new_Currency (IString s) opts = Normal x
    /\ intValue x = Some (Num.of_Z (cond_Zopp neg k))
    /\ value x = Some (Num.of_dec (cond_Zopp neg k) (- Z.of_nat p)).
Proof.
  intros st p fp k Hd Hp Hip Nip Hfp Lfp Hk Hs F.
  exact (numeral_constructs opts neg ip frac Hd Hp Hip Nip Hfp Lfp Hk s Hs F).
Qed.

Lemma string_amount_exact_witness :
  exists x,
    new_Currency (IString "USD 1,234.5") None = Normal x
    /\ intValue x = Some (Num.of_Z 123450).
Proof.
  destruct (string_amount_exact None false "1234" (Some "5") "USD 1,234.5")
    as (x & H1 & H2 & _); try reflexivity.
  - vm_compute. repeat constructor.
  - discriminate.
  - vm_compute. repeat constructor.
  - vm_compute. discriminate.
  - exists x. split; [exact H1|exact H2].
Defined.

(** ** Parentheses *)

Lemma last_close_none post :
  all_chars (not_char ")") post = true -> Str.last_close post = None.
Proof.
  induction post as [|c r IH]; [reflexivity|].
  cbn [all_chars Str.last_close]. intros H. apply andb_prop in H as [H1 H2].
  destruct (Str.is_line_terminator c); [reflexivity|].
  rewrite (IH H2). unfold not_char in H1. apply negb_true_iff in H1.
  now rewrite H1.
Qed.

Lemma last_close_found t post :
  all_chars (fun c => negb (Str.is_line_terminator c)) t = true ->
  all_chars (not_char ")") post = true ->
  Str.last_close (t ++ String ")" post) = Some (t, post).
Proof.
  intros Ht Hpost. induction t as [|c r IH].
  - cbn [append Str.last_close]. rewrite (last_close_none post Hpost).
    reflexivity.
  - cbn [all_chars] in Ht. apply andb_prop in Ht as [H1 H2].
    cbn [append Str.last_close]. apply negb_true_iff in H1. rewrite H1.
    now rewrite (IH H2).
Qed.

Lemma replace_parens_found pre t post :
  all_chars (not_char "(") pre = true ->
  all_chars (fun c => negb (Str.is_line_terminator c)) t = true ->
  all_chars (not_char ")") post = true ->
  Str.replace_parens (pre ++ String "(" (t ++ String ")" post))
  = pre ++ String "-" (t ++ post).
Proof.
  intros Hpre Ht Hpost. induction pre as [|c r IH].
  - cbn [append Str.replace_parens]. rewrite Ascii.eqb_refl.
    now rewrite (last_close_found t post Ht Hpost).
  - cbn [all_chars] in Hpre. apply andb_prop in Hpre as [H1 H2].
    cbn [append Str.replace_parens].
    unfold not_char in H1. apply negb_true_iff in H1. rewrite H1.
    now rewrite (IH H2).
Qed.

(** X7.  A string pre ( t ) post, where pre, t and post contain no other
    opening parenthesis, post contains no closing parenthesis and t
    contains no line terminator, gives the constructor the same outcome
    (value or error) as the string pre - t post. *)
Theorem parentheses_negate (opts : option Partial) (pre t post : string) :
  all_chars (not_char "(") (pre ++ t ++ post) = true ->
  all_chars (not_char ")") post = true ->
  all_chars (fun c => negb (Str.is_line_terminator c)) t = true ->
  new_Currency (IString (pre ++ String "(" (t ++ String ")" post))) opts
  = new_Currency (IString (pre ++ String "-" (t ++ post))) opts.
Proof.
  intros Hn Hpost Ht.
  rewrite !all_chars_append in Hn.
  apply andb_prop in Hn as [Hn1 Hn2]. apply andb_prop in Hn2 as [Hn2 Hn3].
  unfold new_Currency, parse, scaled.
  rewrite (replace_parens_found pre t post Hn1 Ht Hpost).
  rewrite (replace_parens_none (pre ++ String "-" (t ++ post))).
  - reflexivity.
  - rewrite all_chars_append. cbn [all_chars]. rewrite all_chars_append.
    now rewrite Hn1, Hn2, Hn3.
Qed.

Lemma parentheses_negate_witness :
  new_Currency (IString "$(1.50)") None = new_Currency (IString "$-1.50") None.
Proof.
  apply (parentheses_negate None "$" "1.50" ""); reflexivity.
Defined.

(** ** Integer parts of quotients *)

Lemma ratio_range n d :
  0 < n <= 10 ^ 15 -> 0 < d <= 10 ^ 22 ->
  (q2 (-1022) <= ratio n d)%Q /\ (ratio n d < q2 1023)%Q
  /\ (ratio n d * inject_Z d == inject_Z n)%Q.
Proof.
  intros Hn Hd.
  assert (Pd : (0 < inject_Z d)%Q) by (apply inject_Z_pos; lia).
  assert (E : (ratio n d * inject_Z d == inject_Z n)%Q)
    by (unfold ratio; field; lra).
  assert (Bn : (1 <= inject_Z n <= inject_Z (10 ^ 15))%Q)
    by (split; [change 1%Q with (inject_Z 1)|]; rewrite <- Zle_Qle; lia).
  assert (Bd : (1 <= inject_Z d <= inject_Z (10 ^ 22))%Q)
    by (split; [change 1%Q with (inject_Z 1)|]; rewrite <- Zle_Qle; lia).
  change (inject_Z (10 ^ 15)) with 1000000000000000%Q in Bn.
  change (inject_Z (10 ^ 22)) with 10000000000000000000000%Q in Bd.
  pose proof q2_m1022_small as S1. pose proof q2_1023_large as S2.
  change (inject_Z (10 ^ 40))
    with 10000000000000000000000000000000000000000%Q in S2.
  change (1 # 10 ^ 40)%Q
    with (1 # 10000000000000000000000000000000000000000)%Q in S1.
  set (r := ratio n d) in *. set (dq := inject_Z d) in *.
  set (nq := inject_Z n) in *.
  split; [|split; [|assumption]].
  - apply Qle_trans with (1 := S1). nra.
  - apply Qlt_le_trans with (2 := S2). nra.
Qed.

(** The quotient of two integers, rounded to a double, lies in the unit
    interval of the exact quotient. *)
Lemma rnd_int_part n d s :
  0 < n <= 10 ^ 15 -> 0 < d <= 10 ^ 22 ->
  exists m e,
    Num.rnd s n d = S754_finite s m e
    /\ (inject_Z (n / d) <= inject_Z (Zpos m) * q2 e < inject_Z (n / d) + 1)%Q
    /\ (n / d < 2 ^ 52 -> e < 0).
Proof.
  intros Hn Hd.
  destruct (ratio_range n d Hn Hd) as (Lo & Hi & Er).
  pose proof (Z.div_mod n d ltac:(lia)) as DM.
  pose proof (Z.mod_pos_bound n d ltac:(lia)) as MB.
  assert (K0 : 0 <= n / d) by (apply Z.div_pos; lia).
  assert (G : exists q, normal (Num.rnd s n d) s q
              /\ (inject_Z (n / d) <= q < inject_Z (n / d) + 1)%Q).
  { destruct (Z.eq_dec (n mod d) 0) as [R0|RN].
    - assert (K1 : 0 < n / d) by nia.
      assert (Kn : n / d <= n) by (apply Z.div_le_upper_bound; nia).
      assert (Eq : (ratio n d == inject_Z (n / d))%Q)
        by (apply ratio_eq_Z; lia).
      exists (ratio n d). split.
      + apply (rnd_exact s n d ltac:(lia) ltac:(lia) Lo Hi (n / d) 0); [lia|].
        rewrite q2_0, Eq. ring.
      + rewrite Eq. lra.
    - destruct (rnd_normal s n d ltac:(lia) ltac:(lia) Lo Hi) as (q & Nq & Err).
      exists q. split; [assumption|].
      assert (Pd : (1 <= inject_Z d)%Q)
        by (change 1%Q with (inject_Z 1); rewrite <- Zle_Qle; lia).
      assert (NB : (1 <= inject_Z n <= 1000000000000000)%Q).
      { split; [change 1%Q with (inject_Z 1)
               |change 1000000000000000%Q with (inject_Z (10 ^ 15))];
          rewrite <- Zle_Qle; lia. }
      assert (En : (inject_Z n == inject_Z d * inject_Z (n / d)
                                 + inject_Z (n mod d))%Q)
        by (rewrite <- inject_Z_mult, <- inject_Z_plus; now rewrite <- DM).
      assert (Rl : (1 <= inject_Z (n mod d))%Q)
        by (change 1%Q with (inject_Z 1); rewrite <- Zle_Qle; lia).
      assert (Ru : (inject_Z (n mod d) <= inject_Z d - 1)%Q).
      { change 1%Q with (inject_Z 1). unfold Qminus.
        rewrite <- inject_Z_opp, <- inject_Z_plus, <- Zle_Qle. lia. }
      pose proof (abs_scale q (ratio n d) (inject_Z d) u53 ltac:(lra) Err)
        as Err'.
      rewrite Er in Err'.
      norm_u. apply Qabs_Qle_condition in Err'. destruct Err' as [E1 E2].
      set (dq := inject_Z d) in *. set (kq := inject_Z (n / d)) in *.
      set (rq := inject_Z (n mod d)) in *. set (nq := inject_Z n) in *.
      clear Err Er Lo Hi. split; nra. }
  destruct G as (q & (m & e & E & [Lm _] & Em) & B).
  exists m, e. split; [assumption|]. split; [now rewrite Em|].
  intros K52. apply q2_lt_inv. rewrite q2_0.
  assert (A : (inject_Z (2 ^ 52) <= inject_Z (Zpos m))%Q)
    by (rewrite <- Zle_Qle; assumption).
  assert (C : (inject_Z (n / d) + 1 <= inject_Z (2 ^ 52))%Q).
  { change 1%Q with (inject_Z 1). rewrite <- inject_Z_plus, <- Zle_Qle. lia. }
  pose proof (q2_pos e) as Pe.
  change (inject_Z (2 ^ 52)) with 4503599627370496%Q in A, C.
  rewrite <- Em in B.
  set (mq := inject_Z (Zpos m)) in *. set (kq := inject_Z (n / d)) in *.
  nra.
Qed.

Lemma div_finite m e K :
  (inject_Z K <= inject_Z (Zpos m) * q2 e < inject_Z K + 1)%Q ->
  Num.up (Zpos m) e / Num.up 1 (- e) = K.
Proof.
  intros [L U].
  set (A := Num.up (Zpos m) e). set (B := Num.up 1 (- e)).
  assert (HB : 0 < B) by (apply up_pos; lia).
  pose proof (ratio_finite m e) as R. fold A B in R.
  assert (L' : K * B <= A) by (apply ratio_ge_Z; [assumption|now rewrite R]).
  assert (U' : A < (K + 1) * B).
  { destruct (Z_lt_le_dec A ((K + 1) * B)) as [|C]; [assumption|exfalso].
    apply (ratio_ge_Z A B (K + 1) HB) in C. rewrite R in C.
    rewrite inject_Z_plus in C. change (inject_Z 1) with 1%Q in C. lra. }
  symmetry. apply Z.div_unique with (A - K * B); lia.
Qed.

Lemma abs_of_Z z : Num.abs (Num.of_Z z) = Num.of_Z (Z.abs z).
Proof.
  destruct z as [|q|q]; [reflexivity|..];
    cbn [Num.of_Z Z.abs]; change (- Z.neg q) with (Z.pos q);
    unfold Num.abs, Num.rnd, Num.pack;
    (destruct (_ =? 0); [reflexivity|]);
    destruct (_ <=? _); reflexivity.
Qed.

Lemma ltb_zero_of_Z z :
  Z.abs z < 2 ^ 53 -> Num.ltb zero (Num.of_Z z) = (0 <? z).
Proof.
  intros H. destruct (Z.eq_dec z 0) as [->|N]; [reflexivity|].
  destruct (of_Z_finite z ltac:(lia)) as (m & e & ->).
  destruct (Z.ltb_spec z 0), (Z.ltb_spec 0 z); try lia; reflexivity.
Qed.

Lemma leb_zero_of_Z z :
  0 < Z.abs z < 2 ^ 53 -> Num.leb zero (Num.of_Z z) = (0 <? z).
Proof.
  intros H.
  destruct (of_Z_finite z ltac:(lia)) as (m & e & ->).
  destruct (Z.ltb_spec z 0), (Z.ltb_spec 0 z); try lia; reflexivity.
Qed.

(** [Math.floor] or [Math.ceil] of the quotient, as [distribute] picks
    them, is the quotient truncated toward zero. *)
Lemma trunc_quotient a c :
  0 < c <= Z.abs a -> Z.abs a <= 10 ^ 15 ->
  (if Num.leb zero (Num.of_Z a)
   then Num.floor (Num.div (Num.of_Z a) (Num.of_Z c))
   else Num.ceil (Num.div (Num.of_Z a) (Num.of_Z c)))
  = Num.of_Z (Z.quot a c).
Proof.
  intros Hc Ha.
  rewrite leb_zero_of_Z by lia.
  rewrite div_of_Z by lia.
  replace (c <? 0) with false by (symmetry; apply Z.ltb_ge; lia).
  rewrite xorb_false_r. rewrite (Z.abs_eq c) by lia.
  set (n := Z.abs a).
  destruct (rnd_int_part n c (a <? 0) ltac:(unfold n; lia) ltac:(lia))
    as (m & e & E & B & Ne).
  assert (K1 : 1 <= n / c) by (apply Z.div_le_lower_bound; unfold n; lia).
  assert (Kn : n / c <= n) by (apply Z.div_le_upper_bound; unfold n; nia).
  specialize (Ne ltac:(unfold n in *; lia)).
  rewrite E. pose proof (div_finite m e (n / c) B) as Q.
  destruct (Z.ltb_spec a 0) as [Neg|Pos].
  - replace (0 <? a) with false by (symmetry; apply Z.ltb_ge; lia).
    cbn [Num.ceil Num.fnum Num.fden cond_Zopp].
    replace (0 <=? e) with false by (symmetry; apply Z.leb_gt; lia).
    rewrite Z.opp_involutive, Q. unfold Num.of_Z_signed.
    replace (- (n / c) =? 0) with false by (symmetry; apply Z.eqb_neq; lia).
    f_equal. rewrite <- (Z.opp_involutive a) at 1.
    rewrite Z.quot_opp_l by lia. rewrite Z.quot_div_nonneg by lia.
    unfold n. now rewrite Z.abs_neq by lia.
  - replace (0 <? a) with true by (symmetry; apply Z.ltb_lt; lia).
    cbn [Num.floor Num.fnum Num.fden cond_Zopp].
    replace (0 <=? e) with false by (symmetry; apply Z.leb_gt; lia).
    rewrite Q. unfold Num.of_Z_signed.
    replace (n / c =? 0) with false by (symmetry; apply Z.eqb_neq; lia).
    f_equal. rewrite Z.quot_div_nonneg by lia.
    unfold n. now rewrite Z.abs_eq by lia.
Qed.

Lemma Forall2_seq_succ {A : Type} (R : nat -> A -> Prop) c :
  forall s l,
    Forall2 (fun j y => R (S j) y) (seq s c) l -> Forall2 R (seq (S s) c) l.
Proof.
  induction c as [|c IH]; intros s l H; cbn [seq] in *.
  - inversion H. constructor.
  - inversion H as [|j y js ys Hj Hr]; subst. constructor; [assumption|].
    now apply IH.
Qed.

Section Distribute.

Variables (st : defaultsTypes) (a sp : Z).

Let p : nat := precision st.
Let sg : Z := Z.sgn a.

Hypothesis Hp : (p <= 22)%nat.
Hypothesis Ha : 0 < Z.abs a <= 10 ^ 15.
Hypothesis Hsp : 0 < Z.abs sp <= 10 ^ 15.
Hypothesis Hsg : 0 < a * sp.

Lemma penny : Num.div (Num.of_Z 1) (pow p) = Num.of_dec 1 (- Z.of_nat p).
Proof. apply (div_whole p 1 Hp). cbn. lia. Qed.

Lemma item_plain :
  exists item,
    new_Currency (INumber (Num.div (Num.of_Z sp) (pow p))) (Some (as_opts st))
    = Normal item
    /\ has_units p sp item.
Proof.
  rewrite (div_whole p sp Hp ltac:(lia)).
  destruct (new_Currency_whole p sp Hp ltac:(lia) (Some (as_opts st)) eq_refl)
    as (item & E & I & V).
  exists item. split; [exact E|]. split; assumption.
Qed.

Lemma item_extra item :
  new_Currency (INumber (Num.div (Num.of_Z sp) (pow p))) (Some (as_opts st))
  = Normal item ->
  has_units p sp item ->
  Z.abs (sp + sg) <= 10 ^ 15 ->
  exists y,
    (if Num.leb zero (Num.of_Z a)
     then add item (INumber (Num.div (Num.of_Z 1) (pow p)))
     else subtract item (INumber (Num.div (Num.of_Z 1) (pow p))))
    = Normal y
    /\ has_units p (sp + sg) y.
Proof.
  intros E [I V] Hx. rewrite penny.
  rewrite leb_zero_of_Z by lia.
  destruct (Z.ltb_spec 0 a) as [Pos|Neg].
  - replace sg with 1 in * by (unfold sg; lia).
    destruct (add_exact _ _ _ sp E Hp I ltac:(lia)
                (INumber (Num.of_dec 1 (- Z.of_nat p))) 1 eq_refl
                ltac:(cbn; lia) Hx)
      as (y & Ey & _ & Iy & Vy).
    exists y. split; [exact Ey|]. split; assumption.
  - replace sg with (-1) in * by (unfold sg; lia).
    destruct (subtract_exact _ _ _ sp E Hp I ltac:(lia)
                (INumber (Num.of_dec 1 (- Z.of_nat p))) 1 eq_refl
                ltac:(cbn; lia) Hx)
      as (y & Ey & _ & Iy & Vy).
    exists y. split; [exact Ey|]. split; assumption.
Qed.

Lemma loop_shares count :
  forall z,
    Z.abs z + Z.of_nat count < 2 ^ 53 ->
    (0 < z -> Z.abs (sp + sg) <= 10 ^ 15) ->
  exists l,
    distribute_loop (Num.of_Z a) (Num.of_Z sp) (pow p) (Some st) count
      (Num.of_Z z)
    = Normal l
    /\ Forall2
         (fun j y =>
            has_units p (sp + (if Z.of_nat j <? z then sg else 0)) y)
         (seq 0 count) l.
Proof.
  induction count as [|c IH]; intros z Hz Hx.
  - exists []. split; [reflexivity|constructor].
  - cbn [distribute_loop opts_of option_map].
    destruct item_plain as (item & E & S0). rewrite E. cbn [bind].
    rewrite ltb_zero_of_Z by lia.
    rewrite sub_of_Z by (cbn; lia).
    destruct (IH (z - 1) ltac:(lia) ltac:(intros; apply Hx; lia))
      as (rest & Er & Fr).
    assert (Shift :
      Forall2
        (fun j y => has_units p (sp + (if Z.of_nat j <? z then sg else 0)) y)
        (seq 1 c) rest).
    { apply Forall2_seq_succ.
      eapply Forall2_impl; [|exact Fr].
      intros j y H. cbn beta in H.
      replace (Z.of_nat (S j) <? z) with (Z.of_nat j <? z - 1); [exact H|].
      destruct (Z.ltb_spec (Z.of_nat j) (z - 1)),
        (Z.ltb_spec (Z.of_nat (S j)) z); try reflexivity; lia. }
    change (Z.of_nat 0) with 0 in *.
    destruct (Z.ltb_spec 0 z) as [Pz|Nz].
    + destruct (item_extra item E S0 (Hx Pz)) as (y & Ey & Sy).
      rewrite Ey. cbn [bind]. rewrite Er. cbn [bind].
      exists (y :: rest). split; [reflexivity|].
      cbn [seq]. constructor; [|exact Shift].
      change (Z.of_nat 0) with 0.
      replace (0 <? z) with true by (symmetry; apply Z.ltb_lt; lia).
      exact Sy.
    + cbn [bind]. rewrite Er. cbn [bind].
      exists (item :: rest). split; [reflexivity|].
      cbn [seq]. constructor; [|exact Shift].
      change (Z.of_nat 0) with 0.
      replace (0 <? z) with false by (symmetry; apply Z.ltb_ge; lia).
      now rewrite Z.add_0_r.
Qed.

End Distribute.

Lemma Zsum_shares sp sg z c :
  forall s,
    Zsum (List.map (fun j => sp + (if Z.of_nat j <? z then sg else 0))
            (seq s c))
    = Z.of_nat c * sp
      + sg * Z.max 0 (Z.min (z - Z.of_nat s) (Z.of_nat c)).
Proof.
  induction c as [|c IH]; intros s.
  - cbn. lia.
  - cbn [seq List.map Zsum fold_right]. fold (Zsum (List.map
      (fun j => sp + (if Z.of_nat j <? z then sg else 0)) (seq (S s) c))).
    rewrite IH.
    destruct (Z.ltb_spec (Z.of_nat s) z).
    + replace (Z.max 0 (Z.min (z - Z.of_nat s) (Z.of_nat (S c))))
        with (Z.max 0 (Z.min (z - Z.of_nat (S s)) (Z.of_nat c)) + 1) by lia.
      lia.
    + replace (Z.max 0 (Z.min (z - Z.of_nat s) (Z.of_nat (S c)))) with 0 by lia.
      replace (Z.max 0 (Z.min (z - Z.of_nat (S s)) (Z.of_nat c))) with 0 by lia.
      lia.
Qed.

(** Integers of one sign add up without error below [2^53]. *)
Lemma fold_add_of_Z (e : nat -> Z) (sgn : Z) l :
  forall s c acc,
    Forall2 (fun j y => intValue y = Some (Num.of_Z (e j))) (seq s c) l ->
    (forall j, 0 <= sgn * e j) -> 0 <= sgn * acc -> Z.abs sgn = 1 ->
    sgn * (acc + Zsum (List.map e (seq s c))) < 2 ^ 53 ->
    fold_left (fun acc c => Num.add acc (or_else (intValue c) NaN)) l
      (Num.of_Z acc)
    = Num.of_Z (acc + Zsum (List.map e (seq s c))).
Proof.
  induction l as [|y l IH]; intros s c acc F He Hacc Hs B.
  - inversion F as [E|]. destruct c; [|discriminate].
    cbn. f_equal. lia.
  - destruct c as [|c]; [inversion F|]. cbn [seq] in F.
    inversion F as [|j y' js l' Hy Fr]; subst.
    cbn [fold_left seq List.map Zsum fold_right] in *.
    fold (Zsum (List.map e (seq (S s) c))) in *.
    rewrite Hy. cbn [or_else].
    assert (R0 : 0 <= sgn * Zsum (List.map e (seq (S s) c))).
    { clear -He. generalize (S s). induction c as [|c IHc]; intros s0.
      - cbn. lia.
      - cbn [seq List.map Zsum fold_right].
        fold (Zsum (List.map e (seq (S s0) c))).
        specialize (IHc (S s0)). specialize (He s0). lia. }
    pose proof (He s) as Hes.
    rewrite add_of_Z by nia.
    rewrite (IH (S s) c (acc + e s) Fr He ltac:(lia) Hs ltac:(lia)).
    f_equal. lia.
Qed.

(** X8.  For a constructed value x with precision at most 22 and integer
    intValue a, and a count with 0 < count <= |a| <= 10^15,
    distribute(count) returns count values; the one of index j has
    intValue quot(a, count), plus the sign of a when j < |rem(a, count)|,
    and value that many units; the intValues sum (as doubles and as
    integers) to a. *)
Theorem distribute_conserves
    (val : input) (opts : option Partial) (x : Currency) (a : Z) (count : nat) :
  let p := precision (assign defaults opts) in
  new_Currency val opts = Normal x ->
  intValue x = Some (Num.of_Z a) ->
  (p <= 22)%nat -> (0 < count)%nat ->
  Z.of_nat count <= Z.abs a <= 10 ^ 15 ->
  exists l,
    distribute x count = Normal (Some l)
    /\ List.length l = count
    /\ Forall2 (fun j y => has_units p (share a count j) y) (seq 0 count) l
    /\ sum_intValues l = Num.of_Z a
    /\ Zsum (List.map (share a count) (seq 0 count)) = a.
Proof.
  intros p Hx Hi Hp Hc Ha.
  destruct (new_Currency_fields _ _ _ Hx)
    as (v & inc & g & _ & _ & _ & Hs & Hpr & _).
  fold p in Hpr.
  set (st := with_increment_groups (assign defaults opts) inc g) in *.
  set (c := Z.of_nat count) in *.
  set (sp := Z.quot a c). set (r := Z.abs (Z.rem a c)).
  assert (QR : a = c * sp + Z.rem a c) by (apply Z.quot_rem'; lia).
  assert (RB : 0 <= r < c).
  { unfold r. pose proof (Z.rem_bound_abs a c ltac:(lia)). lia. }
  assert (RS : Z.rem a c = Z.sgn a * r).
  { unfold r. pose proof (Z.rem_sign_nz a c ltac:(lia)).
    destruct (Z.eq_dec (Z.rem a c) 0) as [->|N]; [lia|].
    specialize (H N). lia. }
  assert (SP : 0 < Z.abs sp <= 10 ^ 15 /\ 0 < a * sp).
  { assert (Z.abs sp = Z.abs a / c).
    { unfold sp. destruct (Z_lt_le_dec a 0).
      - rewrite <- (Z.opp_involutive a) at 1.
        rewrite Z.quot_opp_l by lia. rewrite Z.quot_div_nonneg by lia.
        rewrite Z.abs_opp, (Z.abs_neq a) by lia.
        apply Z.abs_eq. apply Z.div_pos; lia.
      - rewrite Z.quot_div_nonneg by lia. rewrite (Z.abs_eq a) by lia.
        apply Z.abs_eq. apply Z.div_pos; lia. }
    assert (1 <= Z.abs a / c) by (apply Z.div_le_lower_bound; lia).
    assert (Z.abs a / c <= Z.abs a) by (apply Z.div_le_upper_bound; nia).
    split; [lia|]. nia. }
  destruct SP as [SP1 SP2].
  assert (XB : 0 < r -> Z.abs (sp + Z.sgn a) <= 10 ^ 15) by nia.
  destruct (loop_shares st a sp Hp ltac:(lia) SP1 SP2 count r
              ltac:(fold c; lia) XB)
    as (l & El & Fl).
  assert (Fs : Forall2 (fun j y => has_units p (share a count j) y)
                 (seq 0 count) l).
  { eapply Forall2_impl; [|exact Fl]. intros j y H. exact H. }
  exists l. split; [|split; [|split; [exact Fs|]]].
  - unfold distribute. rewrite Hi, Hpr, Hs. unfold pow.
    rewrite (normal_truthy _ _ _ (of_Z_normal a ltac:(lia))).
    rewrite (P_truthy p Hp). cbn [andb]. cbv zeta. fold c.
    rewrite (trunc_quotient a c) by lia. fold sp.
    rewrite mul_of_Z by lia. rewrite sub_of_Z by nia.
    rewrite abs_of_Z.
    replace (Z.abs (a - sp * c)) with r by (unfold r; nia).
    fold (pow p). change (pow (precision st)) with (pow p) in El.
    rewrite El. reflexivity.
  - apply Forall2_length in Fl. now rewrite <- Fl, length_seq.
  - assert (ZS : Zsum (List.map (share a count) (seq 0 count)) = a).
    { unfold share. fold c sp r.
      rewrite (Zsum_shares sp (Z.sgn a) r count 0). fold c.
      change (Z.of_nat 0) with 0. nia. }
    split; [|exact ZS].
    unfold sum_intValues. change zero with (Num.of_Z 0).
    rewrite (fold_add_of_Z (share a count) (Z.sgn a) l 0 count 0).
    + now rewrite ZS.
    + eapply Forall2_impl; [|exact Fs]. intros j y [H _]. exact H.
    + intros j. unfold share. fold c sp r.
      destruct (Z.of_nat j <? r); nia.
    + lia.
    + lia.
    + rewrite ZS. nia.
Qed.

Lemma distribute_conserves_witness :
  exists l,
    distribute sample_value 5 = Normal (Some l)
    /\ sum_intValues l = Num.of_Z 123456.
Proof.
  destruct (distribute_conserves (IString "$1,234.56") None sample_value
              123456 5)
    as (l & D & _ & _ & S & _).
  - vm_compute. reflexivity.
  - reflexivity.
  - vm_compute. repeat constructor.
  - repeat constructor.
  - vm_compute. split; discriminate.
  - exists l. split; [exact D|exact S].
Defined.

(** ** The text [format] builds *)

Lemma strip_minus_signed (neg : bool) u :
  all_chars Str.is_digit u = true -> u <> "" ->
  forall rest, Str.strip_minus ((if neg then "-" else "") ++ u ++ rest)
               = u ++ rest.
Proof.
  intros Hu Nu rest. destruct neg; [reflexivity|].
  destruct u as [|c r]; [congruence|].
  cbn [append Str.strip_minus all_chars] in *.
  apply andb_prop in Hu as [Hc _].
  destruct (digit_facts c Hc) as (_ & _ & Hm & _). now rewrite Hm.
Qed.

Lemma digits_no_char c u :
  Str.is_digit c = false ->
  all_chars Str.is_digit u = true -> all_chars (not_char c) u = true.
Proof.
  intros Hc. apply all_chars_impl. intros x Hx. unfold not_char.
  apply negb_true_iff. apply Ascii.eqb_neq. intros ->. congruence.
Qed.

Lemma text_split (neg : bool) (ip fp : string) (d : ascii) (p : nat) :
  all_chars Str.is_digit ip = true -> ip <> "" ->
  all_chars Str.is_digit fp = true -> String.length fp = p ->
  let values :=
    Str.split_on "."
      (Str.strip_minus
         ((if neg then "-" else "") ++ ip
          ++ match p with O => "" | _ => String "." fp end)) in
  nth 0 values "" = ip
  /\ match nth_error values 1 with
     | Some c => if Str.is_empty c then "" else String d c
     | None => ""
     end
     = match p with O => "" | _ => String d fp end.
Proof.
  intros Hip Nip Hfp Lfp.
  rewrite (strip_minus_signed neg ip Hip Nip).
  pose proof (digits_no_char "." ip eq_refl Hip) as Pi.
  pose proof (digits_no_char "." fp eq_refl Hfp) as Pf.
  destruct p as [|p'].
  - rewrite append_nil_r, split_on_none by assumption. split; reflexivity.
  - rewrite split_on_one by assumption. cbn [nth nth_error].
    split; [reflexivity|].
    destruct fp; [discriminate Lfp|reflexivity].
Qed.

Section FormatShape.

Variables (sym sep ip fp : string) (d : ascii) (g : RegExp) (neg : bool)
          (p : nat).
Hypothesis Hsym : literal_dollars sym = true.
Hypothesis Hsym' : all_chars (not_char "#") sym = true.
Hypothesis Hsep : all_chars (not_char "$") sep = true.
Hypothesis Hd : Ascii.eqb d "$" = false.
Hypothesis Hip : all_chars Str.is_digit ip = true.
Hypothesis Hfp : all_chars Str.is_digit fp = true.
Hypothesis Lfp : String.length fp = p.

Let sign : string := if neg then "-" else "".
Let body : string :=
  Group.replace g ("$1" ++ sep) ip
  ++ match p with O => "" | _ => String d fp end.

Lemma body_no_dollar : all_chars (not_char "$") body = true.
Proof.
  unfold body. rewrite all_chars_append.
  pose proof (digits_no_char "$" ip eq_refl Hip) as Pi.
  pose proof (digits_no_char "$" fp eq_refl Hfp) as Pf.
  unfold Group.replace.
  rewrite (group_chars g sep Hsep (not_char "$") "" ip Hsep Pi).
  destruct p; [reflexivity|]. cbn [all_chars andb].
  unfold not_char at 1. now rewrite Hd, Pf.
Qed.

Lemma pattern_filled :
  Str.replace_char "#" body
    (Str.replace_char "!" sym (if negb neg then "!#" else "-!#"))
  = sign ++ sym ++ body.
Proof.
  unfold Str.replace_char, sign.
  assert (E1 : Str.replace_first "!" sym ""
                 (if negb neg then "!#" else "-!#")
               = (if neg then "-" else "") ++ sym ++ "#").
  { destruct neg; cbn [negb].
    - change "-!#" with ("-" ++ String "!" "#").
      rewrite replace_first_skip by reflexivity.
      now rewrite subst_literal.
    - change "!#" with ("" ++ String "!" "#").
      rewrite replace_first_skip by reflexivity.
      now rewrite subst_literal. }
  rewrite E1.
  replace ((if neg then "-" else "") ++ sym ++ "#")
    with (((if neg then "-" else "") ++ sym) ++ String "#" "")
    by (now rewrite append_assoc).
  rewrite replace_first_skip.
  - rewrite (subst_no_dollar _ _ _ _ body body_no_dollar).
    now rewrite append_nil_r, append_assoc.
  - rewrite all_chars_append, Hsym'. now destruct neg.
Qed.

End FormatShape.

(** X9.  For a constructed value with the default patterns !# and -!#, no
    (truthy) increment option, precision p at most 22 and integer intValue
    a, 0 < |a| <= 10^15, where the symbol in use has no # and no special $
    sequence, the separator has no $ and the decimal character is not $:
    format(useSymbol) returns a minus sign exactly when a < 0, then the
    symbol (when useSymbol, or formatWithSymbol if useSymbol is undefined,
    is true; nothing otherwise), then the integer digits of toString()
    with the separator inserted by the grouping expression, then, when p >
    0, the decimal character and the p fraction digits of toString(). *)
Theorem format_shape
    (val : input) (opts : option Partial) (x : Currency) (a : Z)
    (useSymbol : option bool) :
  let st := assign defaults opts in
  let p := precision st in
  let sym := if or_else useSymbol (formatWithSymbol st) then symbol st else "" in
  let g := match useVedic st with Some true => vedicRegex | _ => groupRegex end in
  new_Currency val opts = Normal x ->
  intValue x = Some (Num.of_Z a) ->
  truthy (increment st) = false ->
  (p <= 22)%nat -> 0 < Z.abs a <= 10 ^ 15 ->
  pattern st = "!#" -> negativePattern st = "-!#" ->
  literal_dollars sym = true -> all_chars (not_char "#") sym = true ->
  all_chars (not_char "$") (separator st) = true ->
  Ascii.eqb (decimal st) "$" = false ->
  exists ip fp,
    toString x
    = Normal (Some ((if a <? 0 then "-" else "") ++ ip
                    ++ match p with O => "" | _ => String "." fp end))
    /\ format x useSymbol
       = Normal (Some ((if a <? 0 then "-" else "") ++ sym
                       ++ Group.replace g ("$1" ++ separator st) ip
                       ++ match p with
                          | O => ""
                          | _ => String (decimal st) fp
                          end))
    /\ all_chars Str.is_digit ip = true /\ ip <> ""
    /\ all_chars Str.is_digit fp = true /\ String.length fp = p.
Proof.
  intros st p sym g Hx Hi Hinc Hp Ha Hpat Hneg Hsym Hsym' Hsep Hd.
  pose proof (toString_fixed val opts x a Hx Hi Hinc Hp Ha) as Ts.
  fold st p in Ts.
  destruct (fixed_parts (Z.abs a) p ltac:(lia))
    as (ip & fp & Ef & Dip & Nip & Dfp & Lfp & _).
  rewrite Ef in Ts.
  exists ip, fp. split; [exact Ts|].
  split; [|repeat split; assumption].
  destruct (new_Currency_fields _ _ _ Hx)
    as (v & inc & g' & _ & _ & _ & Hs & _ & _ & Eg).
  fold st g in Hs, Eg. subst g'.
  destruct (value_shape val opts x a Hx Hi Hp Ha) as (q & Hv & Nq).
  fold st p in Hv, Nq.
  unfold format, to_primitive_string. rewrite Ts. cbn [bind or_else].
  rewrite Hs, Hv.
  cbn [or_else groups with_increment_groups formatWithSymbol decimal
       separator symbol pattern negativePattern].
  rewrite (normal_truthy _ _ _ Nq), (normal_leb_zero _ _ _ Nq).
  rewrite Hpat, Hneg. fold sym.
  destruct (text_split (a <? 0) ip fp (decimal st) p Dip Nip Dfp Lfp)
    as [T1 T2].
  cbv zeta in T1, T2. rewrite T1, T2.
  rewrite (pattern_filled sym (separator st) ip fp (decimal st) g (a <? 0) p
             Hsym Hsym' Hsep Hd Dip Dfp Lfp).
  reflexivity.
Qed.

Lemma format_shape_witness :
  exists ip fp,
    toString sample_value = Normal (Some ("" ++ ip ++ String "." fp))
    /\ format sample_value (Some true)
       = Normal (Some ("" ++ "$" ++ Group.replace groupRegex "$1," ip
                       ++ String "." fp)).
Proof.
  destruct (format_shape (IString "$1,234.56") None sample_value 123456
              (Some true))
    as (ip & fp & T & F & _); try reflexivity.
  - vm_compute. repeat constructor.
  - vm_compute. split; [reflexivity|discriminate].
  - exists ip, fp. split; [exact T|exact F].
Defined.

(** ** Grouping *)

Lemma join_cons_char sep c h tl :
  join sep (String c h :: tl) = String c (join sep (h :: tl)).
Proof. destruct tl; reflexivity. Qed.

Lemma lookahead_digits g r :
  all_chars Str.is_digit r = true ->
  Group.lookahead g r
  = let j := String.length r in
    match g with
    | groupRegex =>
        if (0 <? j)%nat && (j mod 3 =? 0)%nat
        then Some (substring (j - 3) 3 r) else None
    | vedicRegex =>
        if (3 <=? j)%nat && (j mod 2 =? 1)%nat
        then Some (substring (j - 3) 2 r) else None
    end.
Proof.
  intros H. unfold Group.lookahead. rewrite (span_all _ _ H).
  cbv zeta. now rewrite !andb_true_r.
Qed.

Section GroupThree.

Variable sep : string.
Hypothesis Hsep : all_chars (not_char "$") sep = true.

Lemma group_three ds :
  all_chars Str.is_digit ds = true ->
  forall before,
  exists cs,
    Group.replace_from groupRegex ("$1" ++ sep) before ds = join sep cs
    /\ fold_right append "" cs = ds
    /\ match cs with
       | [] => ds = ""
       | h :: tl =>
           (1 <= String.length h <= 3)%nat
           /\ Forall (fun c => String.length c = 3%nat) tl
           /\ String.length ds = (String.length h + 3 * List.length tl)%nat
       end.
Proof.
  induction ds as [|c r IH]; intros Hd before.
  - exists []. repeat split.
  - cbn [all_chars] in Hd. apply andb_prop in Hd as [Hc Hr].
    destruct (IH Hr (before ++ String c "")) as (cs & E & C & S).
    cbn [Group.replace_from]. rewrite Hc, E.
    rewrite (lookahead_digits groupRegex r Hr). cbv zeta.
    destruct cs as [|h tl].
    + subst r. cbn [String.length Nat.ltb Nat.leb andb].
      exists [String c ""]. repeat split; cbn; auto.
    + destruct S as (Lh & Ft & Lr).
      assert (M : (String.length r mod 3 = String.length h mod 3)%nat).
      { rewrite Lr, Nat.mul_comm. apply Nat.Div0.mod_add. }
      assert (P : (0 < String.length r)%nat) by lia.
      apply Nat.ltb_lt in P. rewrite P. cbn [andb].
      destruct (Nat.eqb_spec (String.length r mod 3) 0) as [Z0|NZ].
      * assert (String.length h = 3%nat).
        { rewrite M in Z0.
          destruct (String.length h) as [|[|[|[|]]]]; try lia; discriminate. }
        rewrite (subst_group _ _ _ _ _ sep Hsep).
        exists (String c "" :: h :: tl). split; [|split].
        -- cbn [join]. now rewrite append_assoc.
        -- cbn [fold_right] in *. now rewrite C.
        -- split; [cbn; lia|]. split; [constructor; assumption|].
           cbn [String.length List.length]. lia.
      * assert (String.length h <> 3%nat).
        { intros E3. rewrite M, E3 in NZ. now apply NZ. }
        exists (String c h :: tl). split; [|split].
        -- now rewrite join_cons_char.
        -- cbn [fold_right append] in *. now rewrite C.
        -- split; [cbn [String.length]; lia|]. split; [assumption|].
           cbn [String.length]. lia.
Qed.

End GroupThree.

(** X10.  Replacing groupRegex by $1 followed by a separator without $ in
    a non-empty string of digits inserts the separator so that the digits,
    unchanged and in order, are cut into a first group of one to three
    digits followed by groups of exactly three. *)
Theorem groups_of_three (sep ds : string) :
  all_chars (not_char "$") sep = true ->
  all_chars Str.is_digit ds = true -> ds <> "" ->
  exists h tl,
    Group.replace groupRegex ("$1" ++ sep) ds = join sep (h :: tl)
    /\ fold_right append "" (h :: tl) = ds
    /\ (1 <= String.length h <= 3)%nat
    /\ Forall (fun c => String.length c = 3%nat) tl.
Proof.
  intros Hsep Hd N.
  destruct (group_three sep Hsep ds Hd "") as (cs & E & C & S).
  destruct cs as [|h tl]; [congruence|].
  destruct S as (Lh & Ft & _).
  exists h, tl. repeat split; try assumption; lia.
Qed.

Lemma groups_of_three_witness :
  exists h tl,
    Group.replace groupRegex ("$1" ++ ",") "1234567" = join "," (h :: tl)
    /\ fold_right append "" (h :: tl) = "1234567"
    /\ (1 <= String.length h <= 3)%nat
    /\ Forall (fun c => String.length c = 3%nat) tl.
Proof.
  apply (groups_of_three "," "1234567"); [reflexivity|reflexivity|discriminate].
Defined.

Example group_1234567 :
  Group.replace groupRegex "$1," "1234567" = "1,234,567"
  /\ Group.replace vedicRegex "$1," "1234567" = "12,34,567".
Proof. split; reflexivity. Qed.

Lemma join_app_cons sep c (rest : list string) :
  rest <> [] -> join sep (c :: rest) = c ++ sep ++ join sep rest.
Proof. destruct rest; [congruence|reflexivity]. Qed.

Section GroupVedic.

Variable sep : string.
Hypothesis Hsep : all_chars (not_char "$") sep = true.

Lemma group_vedic ds :
  all_chars Str.is_digit ds = true ->
  forall before,
    ((String.length ds <= 3)%nat ->
     Group.replace_from vedicRegex ("$1" ++ sep) before ds = ds)
    /\ ((4 <= String.length ds)%nat ->
        exists h mids last,
          Group.replace_from vedicRegex ("$1" ++ sep) before ds
          = join sep (h :: mids ++ [last])
          /\ fold_right append "" (h :: mids ++ [last]) = ds
          /\ (1 <= String.length h <= 2)%nat
          /\ Forall (fun c => String.length c = 2%nat) mids
          /\ String.length last = 3%nat
          /\ String.length ds
             = (String.length h + 3 + List.length mids * 2)%nat).
Proof.
  induction ds as [|c r IH]; intros Hd before.
  - split; [reflexivity|cbn; lia].
  - cbn [all_chars] in Hd. apply andb_prop in Hd as [Hc Hr].
    destruct (IH Hr (before ++ String c "")) as (Small & Large).
    cbn [Group.replace_from String.length]. rewrite Hc.
    rewrite (lookahead_digits vedicRegex r Hr). cbv zeta.
    destruct (Nat.leb_spec 3 (String.length r)) as [G3|L3]; cbn [andb].
    + destruct (Nat.eq_dec (String.length r) 3) as [E3|N3].
      * split; [lia|]. intros _. rewrite E3.
        change ((3 mod 2 =? 1)%nat) with true. cbn iota.
        rewrite (subst_group _ _ _ _ _ sep Hsep).
        rewrite (Small ltac:(lia)).
        exists (String c ""), [], r. cbn [app join fold_right List.length].
        rewrite append_nil_r, E3.
        repeat split; try (cbn [String.length]; lia); try constructor.
        all: try (now rewrite append_assoc).
      * split; [lia|]. intros _.
        destruct (Large ltac:(lia)) as (h & mids & last & E & C & Lh & Fm & Ll & Lr).
        rewrite E.
        assert (M : (String.length r mod 2
                     = (String.length h + 3) mod 2)%nat)
          by (rewrite Lr; apply Nat.Div0.mod_add).
        destruct (Nat.eq_dec (String.length h) 2) as [H2|H1].
        -- rewrite M, H2. change (((2 + 3) mod 2 =? 1)%nat) with true.
           cbn iota.
           rewrite (subst_group _ _ _ _ _ sep Hsep).
           exists (String c ""), (h :: mids), last.
           split; [|split; [|split; [|split; [|split]]]].
           ++ rewrite (join_app_cons sep (String c "")).
              ** now rewrite append_assoc.
              ** destruct mids; discriminate.
           ++ cbn [fold_right app] in *. now rewrite C.
           ++ cbn; lia.
           ++ constructor; assumption.
           ++ assumption.
           ++ cbn [String.length List.length]. lia.
        -- assert (H1' : String.length h = 1%nat) by lia.
           rewrite M, H1'. change (((1 + 3) mod 2 =? 1)%nat) with false.
           cbn iota.
           exists (String c h), mids, last.
           split; [|split; [|split; [|split; [|split]]]].
           ++ now rewrite join_cons_char.
           ++ cbn [fold_right app append] in *. now rewrite C.
           ++ cbn [String.length]. lia.
           ++ assumption.
           ++ assumption.
           ++ cbn [String.length]. lia.
    + split; [|lia]. intros _. now rewrite (Small ltac:(lia)).
Qed.

End GroupVedic.

(** X11.  Replacing vedicRegex by $1 followed by a separator without $
    leaves a string of at most three digits unchanged, and cuts a string
    of four or more digits, unchanged and in order, into a first group of
    one or two digits, then groups of exactly two, then a last group of
    exactly three. *)
Theorem groups_vedic (sep ds : string) :
  all_chars (not_char "$") sep = true ->
  all_chars Str.is_digit ds = true ->
  ((String.length ds <= 3)%nat ->
   Group.replace vedicRegex ("$1" ++ sep) ds = ds)
  /\ ((4 <= String.length ds)%nat ->
      exists h mids last,
        Group.replace vedicRegex ("$1" ++ sep) ds
        = join sep (h :: mids ++ [last])
        /\ fold_right append "" (h :: mids ++ [last]) = ds
        /\ (1 <= String.length h <= 2)%nat
        /\ Forall (fun c => String.length c = 2%nat) mids
        /\ String.length last = 3%nat).
Proof.
  intros Hsep Hd.
  destruct (group_vedic sep Hsep ds Hd "") as [S L].
  split; [exact S|]. intros H4.
  destruct (L H4) as (h & mids & last & E & C & Lh & Fm & Ll & _).
  exists h, mids, last. repeat split; try assumption; lia.
Qed.

Lemma groups_vedic_witness :
  Group.replace vedicRegex ("$1" ++ ",") "123" = "123".
Proof.
  apply (groups_vedic "," "123"); [reflexivity|reflexivity|].
  repeat constructor.
Defined.

(** ** Exact arithmetic on whole numbers of smallest units *)

Lemma value_whole val opts x a :
  new_Currency val opts = Normal x ->
  intValue x = Some (Num.of_Z a) ->
  (precision (assign defaults opts) <= 22)%nat -> Z.abs a <= 10 ^ 15 ->
  value x
  = Some (Num.of_dec a (- Z.of_nat (precision (assign defaults opts)))).
Proof.
  intros Hx Hi Hp Ha.
  destruct (new_Currency_fields _ _ _ Hx) as (v & inc & g & _ & Hi' & Hv & _).
  rewrite Hi in Hi'. injection Hi' as <-.
  rewrite Hv. f_equal. now apply div_whole.
Qed.

(** X12.  For a constructed value x with precision p at most 22 and
    integer intValue a, 0 < |a| <= 10^15, and an operand (a number, or a
    Currency through its value) equal to the double nearest to b / 10^p
    with |b| <= 10^15: if |a + b| <= 10^15 then x.add(operand) has
    intValue a + b and value the double nearest to (a + b) / 10^p, and if
    |a - b| <= 10^15 then x.subtract(operand) has intValue a - b and the
    corresponding value. *)
Theorem add_subtract_exact
    (val : input) (opts : option Partial) (x : Currency) (a b : Z)
    (number : input) :
  let p := precision (assign defaults opts) in
  new_Currency val opts = Normal x ->
  intValue x = Some (Num.of_Z a) ->
  (p <= 22)%nat -> 0 < Z.abs a <= 10 ^ 15 -> Z.abs b <= 10 ^ 15 ->
  operand number = Some (Num.of_dec b (- Z.of_nat p)) ->
  (Z.abs (a + b) <= 10 ^ 15 ->
   exists y, add x number = Normal y /\ has_units p (a + b) y)
  /\ (Z.abs (a - b) <= 10 ^ 15 ->
      exists y, subtract x number = Normal y /\ has_units p (a - b) y).
Proof.
  intros p Hx Hi Hp Ha Hb O. split; intros B.
  - destruct (add_exact val opts x a Hx Hp Hi Ha number b O Hb B)
      as (y & E & _ & I & V).
    exists y. split; [exact E|]. split; assumption.
  - destruct (subtract_exact val opts x a Hx Hp Hi Ha number b O Hb B)
      as (y & E & _ & I & V).
    exists y. split; [exact E|]. split; assumption.
Qed.

Lemma add_subtract_exact_witness :
  exists y,
    add sample_value (INumber (Num.of_dec 44 (-2))) = Normal y
    /\ has_units 2 123500 y.
Proof.
  destruct (add_subtract_exact (IString "$1,234.56") None sample_value
              123456 44 (INumber (Num.of_dec 44 (-2)))) as [A _].
  - vm_compute. reflexivity.
  - reflexivity.
  - vm_compute. repeat constructor.
  - vm_compute. split; [reflexivity|discriminate].
  - vm_compute. discriminate.
  - reflexivity.
  - apply A. vm_compute. discriminate.
Defined.

(** X13.  For a constructed value x with precision p at most 22 and
    integer intValue a, 0 < |a| <= 10^15, and an operand n (a number, or a
    Currency through its value) equal to the double nearest to b / 10^p
    with |b| <= 10^15: when 0 < |a + b| <= 10^15, x.add(n).subtract(n) has
    the intValue and the value of x, and when 0 < |a - b| <= 10^15,
    x.subtract(n).add(n) has the intValue and the value of x. *)
Theorem add_subtract_inverse
    (val : input) (opts : option Partial) (x : Currency) (a b : Z)
    (number : input) :
  let p := precision (assign defaults opts) in
  new_Currency val opts = Normal x ->
  intValue x = Some (Num.of_Z a) ->
  (p <= 22)%nat -> 0 < Z.abs a <= 10 ^ 15 -> Z.abs b <= 10 ^ 15 ->
  operand number = Some (Num.of_dec b (- Z.of_nat p)) ->
  (0 < Z.abs (a + b) <= 10 ^ 15 ->
   exists y z,
     add x number = Normal y /\ subtract y number = Normal z
     /\ intValue z = intValue x /\ value z = value x)
  /\ (0 < Z.abs (a - b) <= 10 ^ 15 ->
      exists y z,
        subtract x number = Normal y /\ add y number = Normal z
        /\ intValue z = intValue x /\ value z = value x).
Proof.
  intros p Hx Hi Hp Ha Hb O.
  pose proof (value_whole val opts x a Hx Hi Hp ltac:(lia)) as Vx.
  destruct (new_Currency_fields _ _ _ Hx)
    as (v & inc & g & _ & _ & _ & Hs & _).
  split; intros B.
  - destruct (add_exact val opts x a Hx Hp Hi Ha number b O Hb ltac:(lia))
      as (y & E & C & I & V).
    rewrite Hs in C. cbn [opts_of option_map] in C.
    destruct (subtract_exact _ _ y (a + b) C Hp I B number b O Hb ltac:(lia))
      as (z & E' & _ & I' & V').
    exists y, z. split; [exact E|]. split; [exact E'|].
    rewrite I', V', Hi, Vx. fold p.
    replace (a + b - b) with a by lia. split; reflexivity.
  - destruct (subtract_exact val opts x a Hx Hp Hi Ha number b O Hb ltac:(lia))
      as (y & E & C & I & V).
    rewrite Hs in C. cbn [opts_of option_map] in C.
    destruct (add_exact _ _ y (a - b) C Hp I B number b O Hb ltac:(lia))
      as (z & E' & _ & I' & V').
    exists y, z. split; [exact E|]. split; [exact E'|].
    rewrite I', V', Hi, Vx. fold p.
    replace (a - b + b) with a by lia. split; reflexivity.
Qed.

Lemma add_subtract_inverse_witness :
  exists y z,
    add sample_value (INumber (Num.of_dec 44 (-2))) = Normal y
    /\ subtract y (INumber (Num.of_dec 44 (-2))) = Normal z
    /\ intValue z = intValue sample_value.
Proof.
  destruct (add_subtract_inverse (IString "$1,234.56") None sample_value
              123456 44 (INumber (Num.of_dec 44 (-2)))) as [A _].
  - vm_compute. reflexivity.
  - reflexivity.
  - vm_compute. repeat constructor.
  - vm_compute. split; [reflexivity|discriminate].
  - vm_compute. discriminate.
  - reflexivity.
  - destruct A as (y & z & E1 & E2 & I & _).
    + vm_compute. split; [reflexivity|discriminate].
    + exists y, z. auto.
Defined.

(** X14.  For a constructed value x with precision p at most 22 and
    integer intValue a, 0 < |a| <= 10^15: x.multiply(m) for an integer m
    with |a * m| <= 10^15 has intValue a * m, and x.divide(d) for an
    integer d (a number, or a Currency with that value) with |d| * 10^p <=
    10^15 that divides a, a = d * q, has intValue q; in both cases value
    is the double nearest to the intValue over 10^p. *)
Theorem multiply_divide_exact
    (val : input) (opts : option Partial) (x : Currency) (a m d q : Z)
    (number : input) :
  let p := precision (assign defaults opts) in
  new_Currency val opts = Normal x ->
  intValue x = Some (Num.of_Z a) ->
  (p <= 22)%nat -> 0 < Z.abs a <= 10 ^ 15 ->
  (Z.abs (a * m) <= 10 ^ 15 ->
   exists y, multiply x (Num.of_Z m) = Normal (Some y) /\ has_units p (a * m) y)
  /\ (operand number = Some (Num.of_Z d) -> a = d * q ->
      Z.abs d * 10 ^ Z.of_nat p <= 10 ^ 15 ->
      exists y, divide x number = Normal (Some y) /\ has_units p q y).
Proof.
  intros p Hx Hi Hp Ha. split.
  - intros B.
    destruct (multiply_exact val opts x a Hx Hp Hi Ha m B)
      as (y & E & _ & I & V).
    exists y. split; [exact E|]. split; assumption.
  - intros O E B.
    destruct (divide_exact val opts x a Hx Hp Hi Ha number d q O E B)
      as (y & Ed & _ & I & V).
    exists y. split; [exact Ed|]. split; assumption.
Qed.

Lemma multiply_divide_exact_witness :
  exists y,
    multiply sample_value (Num.of_Z 3) = Normal (Some y)
    /\ has_units 2 370368 y.
Proof.
  destruct (multiply_divide_exact (IString "$1,234.56") None sample_value
              123456 3 1 123456 (INumber (Num.of_Z 1))) as [M _].
  - vm_compute. reflexivity.
  - reflexivity.
  - vm_compute. repeat constructor.
  - vm_compute. split; [reflexivity|discriminate].
  - apply M. vm_compute. discriminate.
Defined.

(** X15.  For a constructed value x with precision p at most 22 and
    integer intValue a that is not zero, and a non-zero integer m with |a
    * m| <= 10^15 and |m| * 10^p <= 10^15, x.multiply(m).divide(m) has the
    intValue and the value of x. *)
Theorem multiply_divide_inverse
    (val : input) (opts : option Partial) (x : Currency) (a m : Z) :
  let p := precision (assign defaults opts) in
  new_Currency val opts = Normal x ->
  intValue x = Some (Num.of_Z a) ->
  (p <= 22)%nat -> 0 < Z.abs a -> m <> 0 ->
  Z.abs (a * m) <= 10 ^ 15 -> Z.abs m * 10 ^ Z.of_nat p <= 10 ^ 15 ->
  exists y z,
    multiply x (Num.of_Z m) = Normal (Some y)
    /\ divide y (INumber (Num.of_Z m)) = Normal (Some z)
    /\ intValue z = intValue x /\ value z = value x.
Proof.
  intros p Hx Hi Hp Ha Hm B D.
  assert (Ha' : 0 < Z.abs a <= 10 ^ 15) by nia.
  pose proof (value_whole val opts x a Hx Hi Hp ltac:(lia)) as Vx.
  destruct (new_Currency_fields _ _ _ Hx)
    as (v & inc & g & _ & _ & _ & Hs & _).
  destruct (multiply_exact val opts x a Hx Hp Hi Ha' m B)
    as (y & E & C & I & V).
  specialize (C Hm). rewrite Hs in C. cbn [opts_of option_map] in C.
  destruct (divide_exact _ _ y (a * m) C Hp I ltac:(nia)
              (INumber (Num.of_Z m)) m a eq_refl ltac:(lia) D)
    as (z & E' & _ & I' & V').
  exists y, z. split; [exact E|]. split; [exact E'|].
  rewrite I', V', Hi, Vx. split; reflexivity.
Qed.

Lemma multiply_divide_inverse_witness :
  exists y z,
    multiply sample_value (Num.of_Z 3) = Normal (Some y)
    /\ divide y (INumber (Num.of_Z 3)) = Normal (Some z)
    /\ intValue z = intValue sample_value.
Proof.
  destruct (multiply_divide_inverse (IString "$1,234.56") None sample_value
              123456 3) as (y & z & E1 & E2 & I & _).
  - vm_compute. reflexivity.
  - reflexivity.
  - vm_compute. repeat constructor.
  - vm_compute. reflexivity.
  - discriminate.
  - vm_compute. discriminate.
  - vm_compute. discriminate.
  - exists y, z. auto.
Defined.

(** ** Strings without an amount *)

(** X16.  When the decimal character is none of a word character, a
    backslash, ], -, $ or (, a string with no digit, no minus sign, no
    decimal character and no opening parenthesis (the empty string
    included) constructs, for every errorOnInvalid, the value with
    intValue 0 and value 0, whose toString() is undefined. *)
Theorem noise_is_zero (opts : option Partial) (s : string) :
  let st := assign defaults opts in
  plain_decimal (decimal st) = true ->
  all_chars (fun c => negb (kept (decimal st) c)) s = true ->
  all_chars (not_char "(") s = true ->
  exists x,
    new_Currency (IString s) opts = Normal x
    /\ intValue x = Some zero /\ value x = Some zero
    /\ toString x = Normal None.
Proof.
  intros st Hd Hk Hp.
  assert (P : parse (IString s) st true = Normal zero).
  { unfold parse, scaled. rewrite (decimal_not_backslash _ Hd).
    rewrite (replace_parens_none s Hp), (filter_none _ s Hk).
    cbn [Str.map]. change (Conv.stringToNumber "") with zero.
    assert (T : Num.truthy (Num.mul zero (pow (precision st))) = false).
    { destruct (pow_shape (precision st)) as [(m & e & ->)| ->]; reflexivity. }
    rewrite T. cbn [bind]. unfold zero at 1. rewrite four_places_zero.
    reflexivity. }
  unfold new_Currency. fold st. rewrite P. cbn [bind].
  eexists. split; [reflexivity|]. cbn [intValue value].
  split; [reflexivity|]. split.
  - f_equal.
    destruct (pow_shape (precision st)) as [(m & e & ->)| ->]; reflexivity.
  - reflexivity.
Qed.

Lemma noise_is_zero_witness :
  exists x,
    new_Currency (IString "free of charge") None = Normal x
    /\ intValue x = Some zero.
Proof.
  destruct (noise_is_zero None "free of charge") as (x & E & I & _).
  - vm_compute. reflexivity.
  - reflexivity.
  - reflexivity.
  - exists x. auto.
Defined.

Section EmitterFacts.

Import Emitter.

Lemma own_set_same ev type hs : own (set ev type hs) type = Some hs.
Proof.
  induction ev as [|[k v] r IH]; cbn [set own].
  - now rewrite String.eqb_refl.
  - destruct (String.eqb k type) eqn:E; cbn [own]; rewrite E; auto.
Qed.

Lemma own_set_other ev type hs k :
  k <> type -> own (set ev type hs) k = own ev k.
Proof.
  intros N. induction ev as [|[k0 v] r IH]; cbn [set own].
  - destruct (String.eqb_spec type k); [congruence|reflexivity].
  - destruct (String.eqb_spec k0 type) as [->|]; cbn [own].
    + destruct (String.eqb_spec type k); [congruence|reflexivity].
    + destruct (String.eqb k0 k); auto.
Qed.

Lemma own_delete_same ev type : own (delete ev type) type = None.
Proof.
  induction ev as [|[k v] r IH]; cbn [delete own]; [reflexivity|].
  destruct (String.eqb k type) eqn:E; cbn [own]; [|rewrite E]; auto.
Qed.

Lemma own_delete_other ev type k :
  k <> type -> own (delete ev type) k = own ev k.
Proof.
  intros N. induction ev as [|[k0 v] r IH]; cbn [delete own]; [reflexivity|].
  destruct (String.eqb_spec k0 type) as [->|]; cbn [own].
  - destruct (String.eqb_spec type k); [congruence|assumption].
  - destruct (String.eqb k0 k); auto.
Qed.

Lemma remove_first_added h hs :
  ~ In h hs -> remove_first h (hs ++ [h])%list = hs.
Proof.
  induction hs as [|k r IH]; intros N; cbn [app remove_first].
  - now rewrite Nat.eqb_refl.
  - destruct (Nat.eqb_spec k h) as [->|_].
    + elim N. now left.
    + f_equal. apply IH. intros I. apply N. now right.
Qed.

Lemma count_remove_first h k hs :
  count_occ Nat.eq_dec (remove_first h hs) k
  = (count_occ Nat.eq_dec hs k
     - if Nat.eqb k h then 1 else 0)%nat.
Proof.
  induction hs as [|x r IH]; [now destruct (Nat.eqb k h)|].
  cbn [remove_first count_occ].
  destruct (Nat.eqb_spec x h) as [->|N].
  - destruct (Nat.eq_dec h k) as [->|D].
    + rewrite Nat.eqb_refl. lia.
    + destruct (Nat.eqb_spec k h); [congruence|lia].
  - cbn [count_occ]. rewrite IH.
    destruct (Nat.eq_dec x k) as [->|D]; [|reflexivity].
    destruct (Nat.eqb_spec k h); [congruence|lia].
Qed.

End EmitterFacts.

Section EmitterTheorems.

Import Emitter.

Lemma not_poisoned ev type :
  own ev "hasOwnProperty" = None ->
  hasOwnProperty ev type
  = Done match own ev type with Some _ => true | None => false end.
Proof. intros H. unfold hasOwnProperty. now rewrite H. Qed.

Lemma on_registers ev type h :
  own ev "hasOwnProperty" = None -> type <> "__proto__" ->
  on ev type h
  = Done (set ev type (or_else (own ev type) [] ++ [h])%list, This).
Proof.
  intros P N. unfold on. rewrite (not_poisoned ev type P).
  destruct (own ev type) as [hs|]; [reflexivity|].
  destruct (String.eqb_spec type "__proto__"); [congruence|reflexivity].
Qed.

(** X17.  On an emitter whose events has no own property hasOwnProperty,
    for a type other than hasOwnProperty and __proto__: on(type, h)
    appends h to the handlers of the type (creating the list if needed)
    and returns this; off(type, h) right after removes the first
    occurrence of h from that list and returns this, so that when h was
    not registered before the list is as it was (the empty list if the
    type was new: the type stays registered); no other type changes. *)
Theorem on_off_round_trip (ev : events) (type : string) (h : handler) :
  own ev "hasOwnProperty" = None ->
  type <> "hasOwnProperty" -> type <> "__proto__" ->
  exists ev1 ev2,
    on ev type h = Done (ev1, This)
    /\ off ev1 (TypeAndHandler type h) = Done (ev2, This)
    /\ own ev1 type = Some (or_else (own ev type) [] ++ [h])%list
    /\ own ev2 type
       = Some (remove_first h (or_else (own ev type) [] ++ [h])%list)
    /\ (~ In h (or_else (own ev type) []) ->
        own ev2 type = Some (or_else (own ev type) []))
    /\ (forall k, k <> type -> own ev2 k = own ev k).
Proof.
  intros P N1 N2.
  set (old := or_else (own ev type) []).
  exists (set ev type (old ++ [h])%list).
  exists (set (set ev type (old ++ [h])%list) type
            (remove_first h (old ++ [h])%list)).
  assert (P1 : own (set ev type (old ++ [h])%list) "hasOwnProperty" = None)
    by (rewrite own_set_other by congruence; exact P).
  split; [apply on_registers; assumption|].
  split.
  { cbn [off]. unfold _offByHandler.
    rewrite (not_poisoned _ type P1), own_set_same. reflexivity. }
  split; [apply own_set_same|].
  split; [apply own_set_same|].
  split.
  - intros NI. rewrite own_set_same. f_equal. now apply remove_first_added.
  - intros k Nk. now rewrite !own_set_other by assumption.
Qed.

Lemma on_off_round_trip_witness :
  exists ev1 ev2,
    on new_Emitter "change" 7%nat = Done (ev1, This)
    /\ off ev1 (TypeAndHandler "change" 7%nat) = Done (ev2, This)
    /\ own ev2 "change" = Some [].
Proof.
  destruct (on_off_round_trip new_Emitter "change" 7%nat)
    as (ev1 & ev2 & E1 & E2 & _ & _ & R & _);
    [reflexivity|discriminate|discriminate|].
  exists ev1, ev2. split; [exact E1|]. split; [exact E2|].
  apply R. intros [].
Defined.

(** X18.  On an emitter whose events has no own property hasOwnProperty,
    off(type, h) on a registered type returns this and removes exactly one
    occurrence of h, the first, if there is one: the count of h drops by
    one (or stays 0), the counts of the other handlers and the other types
    do not change. On a type that is not registered it changes nothing and
    returns undefined. *)
Theorem off_removes_one (ev : events) (type : string) (h : handler) :
  own ev "hasOwnProperty" = None ->
  match own ev type with
  | Some hs =>
      exists ev',
        off ev (TypeAndHandler type h) = Done (ev', This)
        /\ own ev' type = Some (remove_first h hs)
        /\ (forall k,
              count_occ Nat.eq_dec (remove_first h hs) k
              = (count_occ Nat.eq_dec hs k
                 - if Nat.eqb k h then 1 else 0)%nat)
        /\ (forall k, k <> type -> own ev' k = own ev k)
  | None => off ev (TypeAndHandler type h) = Done (ev, Undefined)
  end.
Proof.
  intros P. cbn [off]. unfold _offByHandler.
  rewrite (not_poisoned ev type P).
  destruct (own ev type) as [hs|] eqn:E; [|reflexivity].
  eexists. split; [reflexivity|]. cbn [or_else].
  split; [apply own_set_same|].
  split; [intros k; apply count_remove_first|].
  intros k Nk. now apply own_set_other.
Qed.

Lemma off_removes_one_witness :
  off new_Emitter (TypeAndHandler "change" 7%nat) = Done (new_Emitter, Undefined).
Proof.
  apply (off_removes_one new_Emitter "change" 7%nat). reflexivity.
Defined.

(** X19.  On an emitter whose events has no own property hasOwnProperty,
    off(type) returns this, leaves the type unregistered and every other
    type as it was; off() with no argument returns this and leaves the
    events of a new emitter. *)
Theorem off_forgets (ev : events) (type : string) :
  own ev "hasOwnProperty" = None ->
  exists ev',
    off ev (OnlyType type) = Done (ev', This)
    /\ own ev' type = None
    /\ (forall k, k <> type -> own ev' k = own ev k)
    /\ off ev NoArguments = Done (new_Emitter, This).
Proof.
  intros P. cbn [off]. unfold _offByType.
  rewrite (not_poisoned ev type P).
  destruct (own ev type) as [hs|] eqn:E.
  - exists (delete ev type). split; [reflexivity|].
    split; [apply own_delete_same|].
    split; [intros k Nk; now apply own_delete_other|reflexivity].
  - exists ev. split; [reflexivity|]. split; [exact E|].
    split; [reflexivity|reflexivity].
Qed.

Lemma off_forgets_witness :
  exists ev',
    off [("change", [7; 8]%nat)] (OnlyType "change") = Done (ev', This)
    /\ own ev' "change" = None.
Proof.
  destruct (off_forgets [("change", [7; 8]%nat)] "change") as (ev' & E & O & _);
    [reflexivity|].
  exists ev'. split; assumption.
Defined.

(** X20.  On an emitter whose events has neither hasOwnProperty nor
    __proto__ as own property: on('__proto__', h) returns this and
    registers nothing; on('hasOwnProperty', h) returns this, and from then
    on every on(type, h'), off(type) and off(type, h') throws a TypeError,
    until off() with no argument, which returns this and resets the
    events. *)
Theorem special_names (ev : events) (h : handler) :
  own ev "hasOwnProperty" = None -> own ev "__proto__" = None ->
  on ev "__proto__" h = Done (ev, This)
  /\ exists ev1,
       on ev "hasOwnProperty" h = Done (ev1, This)
       /\ (forall type h',
             on ev1 type h' = TypeError
             /\ off ev1 (OnlyType type) = TypeError
             /\ off ev1 (TypeAndHandler type h') = TypeError)
       /\ off ev1 NoArguments = Done (new_Emitter, This).
Proof.
  intros P Q. split.
  - unfold on. rewrite (not_poisoned ev "__proto__" P), Q. reflexivity.
  - exists (set ev "hasOwnProperty" [h]).
    split.
    + unfold on. rewrite (not_poisoned ev "hasOwnProperty" P), P.
      reflexivity.
    + split; [|reflexivity].
      intros type h'. cbn [off].
      unfold on, _offByType, _offByHandler, hasOwnProperty.
      rewrite own_set_same. auto.
Qed.

Lemma special_names_witness :
  exists ev1,
    on new_Emitter "hasOwnProperty" 7%nat = Done (ev1, This)
    /\ on ev1 "change" 8%nat = TypeError.
Proof.
  destruct (special_names new_Emitter 7%nat) as (_ & ev1 & E & T & _);
    [reflexivity|reflexivity|].
  exists ev1. split; [exact E|]. apply (T "change" 8%nat).
Defined.

End EmitterTheorems.

(** ** The scaled integer is an integer *)

(** X21.  Whatever the input and the options, when the constructor returns
    a value whose intValue is a finite non-zero double, that double is a
    whole number. *)
Theorem intValue_is_integer
    (val : input) (opts : option Partial) (x : Currency) (i : number) :
  new_Currency val opts = Normal x ->
  intValue x = Some i ->
  match i with
  | S754_finite _ _ _ => exists k, (Num.toQ i == inject_Z k)%Q
  | _ => True
  end.
Proof.
  intros Hx Hi.
  destruct (new_Currency_fields _ _ _ Hx) as (v & inc & g & P & Hi' & _).
  rewrite Hi in Hi'. injection Hi' as <-.
  unfold parse in P.
  destruct (scaled val (assign defaults opts)) as [v0|e]; cbn [bind] in P;
    [|discriminate].
  destruct (four_places v0) as [w|e] eqn:F; cbn [bind] in P; [|discriminate].
  injection P as <-.
  pose proof (round_half_up w (four_places_wf _ _ F)) as R.
  unfold round.
  destruct w as [s| | |s m e]; try (rewrite R; exact I).
  destruct R as (k & E & _).
  destruct (Num.round (S754_finite s m e)); try exact I.
  exists k. exact E.
Qed.

Lemma intValue_is_integer_witness :
  exists k, (Num.toQ (Num.of_Z 123456) == inject_Z k)%Q.
Proof.
  apply (intValue_is_integer (IString "$1,234.56") None sample_value
           (Num.of_Z 123456)).
  - vm_compute. reflexivity.
  - reflexivity.
Defined.

(** ** Reading [toString] back *)

Lemma fraction_empty (fp : string) : String.length fp = O -> fp = "".
Proof. destruct fp; [reflexivity|discriminate]. Qed.

(** X22.  For a constructed value x whose decimal character is a point,
    with no (truthy) increment option, precision at most 22 and integer
    intValue a, 0 < |a| <= 10^15, toString() returns a text, and the
    constructor applied to that text with the same options returns a value
    with the intValue and the value of x. *)
Theorem toString_round_trip
    (val : input) (opts : option Partial) (x : Currency) (a : Z) :
  let st := assign defaults opts in
  new_Currency val opts = Normal x ->
  intValue x = Some (Num.of_Z a) ->
  truthy (increment st) = false ->
  (precision st <= 22)%nat -> 0 < Z.abs a <= 10 ^ 15 ->
  decimal st = "."%char ->
  exists text y,
    toString x = Normal (Some text)
    /\ new_Currency (IString text) opts = Normal y
    /\ intValue y = intValue x /\ value y = value x.
Proof.
  intros st Hx Hi Hinc Hp Ha Hd.
  set (p := precision st) in *.
  pose proof (toString_fixed val opts x a Hx Hi Hinc Hp Ha) as Ts.
  fold st p in Ts.
  destruct (fixed_parts (Z.abs a) p ltac:(lia))
    as (ip & fp & Ef & Dip & Nip & Dfp & Lfp & V).
  rewrite Ef in Ts.
  set (frac := match p with O => None | _ => Some fp end).
  assert (Efp : or_else frac "" = fp).
  { unfold frac. destruct p; [|reflexivity].
    symmetry. now apply fraction_empty. }
  assert (Pd : plain_decimal (decimal (assign defaults opts)) = true)
    by (fold st; rewrite Hd; reflexivity).
  assert (Kq : Str.digits_val 10 0 (ip ++ or_else frac "")
               * 10 ^ (Z.of_nat p - Str.len (or_else frac "")) = Z.abs a).
  { rewrite Efp, V. unfold Str.len. rewrite Lfp, Z.sub_diag. lia. }
  set (text := (if a <? 0 then "-" else "") ++ ip
               ++ match p with O => "" | _ => String "." fp end) in *.
  assert (Tn : all_chars (not_char "(") text = true).
  { unfold text. rewrite !all_chars_append.
    rewrite (digits_no_char "(" ip eq_refl Dip).
    destruct (a <? 0), p; cbn [all_chars andb]; try reflexivity;
      now rewrite (digits_no_char "(" fp eq_refl Dfp). }
  assert (Tf : Str.filter (kept (decimal (assign defaults opts))) text
               = (if a <? 0 then "-" else "") ++ ip
                 ++ match frac with
                    | Some f => String (decimal (assign defaults opts)) f
                    | None => ""
                    end).
  { fold st. rewrite Hd.
    replace (match frac with Some f => String "." f | None => "" end)
      with (match p with O => "" | _ => String "." fp end)
      by (unfold frac; now destruct p).
    fold text. apply filter_all. unfold text. rewrite !all_chars_append.
    assert (Ki : all_chars (kept ".") ip = true).
    { revert Dip. apply all_chars_impl. intros c Hc. unfold kept.
      now rewrite Hc, orb_true_r. }
    assert (Kf : all_chars (kept ".") fp = true).
    { revert Dfp. apply all_chars_impl. intros c Hc. unfold kept.
      now rewrite Hc, orb_true_r. }
    rewrite Ki. destruct (a <? 0), p; cbn [all_chars andb]; try reflexivity;
      now rewrite Kf. }
  assert (Hk : Str.digits_val 10 0 (ip ++ or_else frac "")
               * 10 ^ (Z.of_nat (precision (assign defaults opts))
                       - Str.len (or_else frac "")) <= 10 ^ 15)
    by (fold st; fold p; rewrite Kq; lia).
  assert (Hl : (String.length (or_else frac "")
                <= precision (assign defaults opts))%nat)
    by (fold st; fold p; rewrite Efp, Lfp; lia).
  destruct (numeral_constructs opts (a <? 0) ip frac Pd Hp Dip Nip
              ltac:(now rewrite Efp) Hl Hk text Tn Tf)
    as (y & Ey & Iy & Vy).
  fold st in Iy, Vy. fold p in Iy, Vy. rewrite Kq in Iy, Vy.
  exists text, y. split; [exact Ts|]. split; [exact Ey|].
  assert (Es : cond_Zopp (a <? 0) (Z.abs a) = a)
    by (destruct (Z.ltb_spec a 0); cbn [cond_Zopp]; lia).
  rewrite Es in Iy, Vy. rewrite Iy, Hi, Vy.
  split; [reflexivity|].
  symmetry. apply (value_whole val opts x a Hx Hi Hp). lia.
Qed.

Lemma toString_round_trip_witness :
  exists text y,
    toString sample_value = Normal (Some text)
    /\ new_Currency (IString text) None = Normal y
    /\ intValue y = intValue sample_value.
Proof.
  destruct (toString_round_trip (IString "$1,234.56") None sample_value 123456)
    as (text & y & T & E & I & _).
  - vm_compute. reflexivity.
  - reflexivity.
  - reflexivity.
  - vm_compute. repeat constructor.
  - vm_compute. split; [reflexivity|discriminate].
  - reflexivity.
  - exists text, y. auto.
Defined.

(** With another decimal character the point of [toString] is dropped
    when the text is read: 1.50 comes back as 150. *)
Example toString_comma_decimal :
  exists x y,
    new_Currency (INumber (Num.of_dec 15 (-1)))
      (Some (only_decimal ",")) = Normal x
    /\ toString x = Normal (Some "1.50")
    /\ new_Currency (IString "1.50") (Some (only_decimal ",")) = Normal y
    /\ intValue x = Some (Num.of_Z 150)
    /\ intValue y = Some (Num.of_Z 15000).
Proof.
  do 2 eexists. split; [vm_compute; reflexivity|].
  split; [vm_compute; reflexivity|].
  split; [vm_compute; reflexivity|].
  split; vm_compute; reflexivity.
Qed.

(** ** Division by zero *)

Lemma round_infinity s : round (S754_infinity s) = S754_infinity s.
Proof. destruct s; vm_compute; reflexivity. Qed.

Lemma four_places_infinity s :
  four_places (S754_infinity s) = Normal (S754_infinity s).
Proof. destruct s; vm_compute; reflexivity. Qed.

(** X23.  For a constructed value x with precision at most 22 and a finite
    non-zero intValue, divide(0) and divide(-0) do not throw: they return
    a value whose intValue and value are Infinity with the sign of x's
    intValue, with the settings of x. *)
Theorem divide_by_zero
    (val : input) (opts : option Partial) (x : Currency)
    (s : bool) (m : positive) (e : Z) (z : bool) :
  new_Currency val opts = Normal x ->
  intValue x = Some (S754_finite s m e) ->
  (precision (assign defaults opts) <= 22)%nat ->
  exists y,
    divide x (INumber (S754_zero z)) = Normal (Some y)
    /\ intValue y = Some (S754_infinity s)
    /\ value y = Some (S754_infinity s)
    /\ same_settings x y.
Proof.
  intros Hx Hi Hp.
  destruct (new_Currency_fields _ _ _ Hx)
    as (v & inc & g & _ & _ & _ & Hs & Hpr & _).
  destruct (pow_finite _ Hp) as (mp & ep & Ep).
  assert (E : exists y,
            divide x (INumber (S754_zero z)) = Normal (Some y)
            /\ intValue y = Some (S754_infinity s)
            /\ value y = Some (S754_infinity s)).
  { unfold divide. rewrite Hi, Hs. cbn [Num.truthy].
    unfold parse, scaled.
    cbn [precision with_increment_groups bind]. rewrite Ep.
    cbn [Num.mul SFmul xorb]. rewrite four_places_zero. cbn [bind].
    unfold zero. cbn [Num.div SFdiv].
    unfold new_Currency, parse, scaled. rewrite settled_assign.
    cbn [precision with_increment_groups bind]. rewrite Ep.
    cbn [Num.mul SFmul]. rewrite xorb_false_r.
    rewrite four_places_infinity. cbn [bind].
    rewrite round_infinity. repeat rewrite xorb_false_r.
    eexists. split; [reflexivity|]. split; [reflexivity|].
    cbn [value Num.div SFdiv]. now rewrite xorb_false_r. }
  destruct E as (y & Ed & Iy & Vy).
  exists y. split; [exact Ed|]. split; [exact Iy|]. split; [exact Vy|].
  exact (divide_keeps val opts x Hx _ _ Ed).
Qed.

Lemma divide_by_zero_witness :
  exists y,
    divide sample_value (INumber zero) = Normal (Some y)
    /\ intValue y = Some (S754_infinity false).
Proof.
  destruct (divide_by_zero (IString "$1,234.56") None sample_value
              false 8483831719919616 (-36) false) as (y & E & I & _).
  - vm_compute. reflexivity.
  - vm_compute. reflexivity.
  - vm_compute. repeat constructor.
  - exists y. split; [exact E|exact I].
Defined.
